(** * supriya non-realtime timeline engine: a shallow embedding

    The development follows [supriya/nonrealtime/Session.py] and
    [supriya/tools/nonrealtimetools/Synth.py].

    Modelling conventions.
    - Time coordinates and parameter values are exact numbers, written
      as [Z] (ticks of a fixed unit); session offsets additionally have
      the two infinities that the code obtains from [float("-inf")] and
      [float("inf")].  Rounding of machine floats is outside the model.
    - A Python [dict] is a [gmap] when only lookups matter and an
      association list when its iteration order reaches the output.
    - A raised exception is a [Raise] result; functions that mutate the
      session thread it explicitly and return it next to the result, so
      that the state left behind by a failing call can be inspected. *)

From Stdlib Require Import ZArith Lia.
From stdpp Require Import base decidable option list sorting countable gmap strings.

Local Open Scope Z_scope.

(** ** Results of fallible calls *)

Inductive exn : Type :=
| AssertionError
| KeyError
| IndexError
| ValueError
| AttributeError
| TypeError.

Inductive result (A : Type) : Type :=
| Ok (a : A)
| Raise (e : exn).
Arguments Ok {A} a.
Arguments Raise {A} e.

Global Instance result_ret : MRet result := fun A a => Ok a.
Global Instance result_bind : MBind result := fun A B k r =>
  match r with
  | Ok a => k a
  | Raise e => Raise e
  end.

Global Instance result_fmap : FMap result := fun A B f r =>
  match r with
  | Ok a => Ok (f a)
  | Raise e => Raise e
  end.

Definition of_option {A} (e : exn) (o : option A) : result A :=
  match o with
  | Some a => Ok a
  | None => Raise e
  end.

(** ** Offsets: exact times extended with the two infinities *)

Inductive Offset : Type :=
| NegInf
| Finite (t : Z)
| PosInf.

Global Instance Offset_eq_dec : EqDecision Offset.
Proof. solve_decision. Defined.

Global Instance Offset_countable : Countable Offset.
Proof.
  refine (inj_countable'
    (fun o => match o with NegInf => inl false | PosInf => inl true | Finite t => inr t end)
    (fun s => match s with inl false => NegInf | inl true => PosInf | inr t => Finite t end) _).
  by intros [].
Defined.

Definition Offset_ltb (a b : Offset) : bool :=
  match a, b with
  | NegInf, NegInf => false
  | NegInf, _ => true
  | Finite _, NegInf => false
  | Finite x, Finite y => x <? y
  | Finite _, PosInf => true
  | PosInf, _ => false
  end.

Definition Offset_leb (a b : Offset) : bool := negb (Offset_ltb b a).

Definition Offset_lt (a b : Offset) : Prop := Offset_ltb a b = true.

(** [a - b] for a finite [b]. *)
Definition Offset_sub (a : Offset) (b : Z) : Offset :=
  match a with
  | Finite x => Finite (x - b)
  | inf => inf
  end.

(** [a + b] for a finite [a]. *)
Definition Offset_add (a : Z) (b : Offset) : Offset :=
  match b with
  | Finite y => Finite (a + y)
  | inf => inf
  end.

(** ** Python list primitives *)

Section ListPrimitives.
Context {A : Type}.

(** [l.insert(i, x)] for [0 <= i]: past the end it appends. *)
Definition list_insert_at (i : nat) (x : A) (l : list A) : list A :=
  take i l ++ x :: drop i l.

(** [l[-1]] *)
Definition list_last (l : list A) : option A := last l.

Variable ltb : A → A → bool.

(** [bisect.bisect_left(a, x)]:
    [lo, hi = 0, len(a)]; while [lo < hi]: [mid = (lo + hi) // 2];
    if [a[mid] < x] then [lo = mid + 1] else [hi = mid]; return [lo].
    The interval shrinks at every turn, so [len(a)] turns are enough. *)
Fixpoint bisect_left_loop (fuel : nat) (a : list A) (x : A) (lo hi : nat) : nat :=
  match fuel with
  | O => lo
  | S fuel' =>
    if (lo <? hi)%nat then
      let mid := ((lo + hi) / 2)%nat in
      match a !! mid with
      | Some y =>
        if ltb y x then bisect_left_loop fuel' a x (mid + 1)%nat hi
        else bisect_left_loop fuel' a x lo mid
      | None => lo
      end
    else lo
  end.

Definition bisect_left (a : list A) (x : A) : nat :=
  bisect_left_loop (length a) a x 0%nat (length a).

(** [a.index(x)]: position of the first element equal to [x]. *)
Fixpoint list_index `{EqDecision A} (x : A) (a : list A) : option nat :=
  match a with
  | [] => None
  | y :: a' => if decide (y = x) then Some O else S <$> list_index x a'
  end.
(** [bisect.bisect(a, x)], that is [bisect_right]:
    [lo, hi = 0, len(a)]; while [lo < hi]: [mid = (lo + hi) // 2];
    if [x < a[mid]] then [hi = mid] else [lo = mid + 1]; return [lo]. *)
Fixpoint bisect_right_loop (fuel : nat) (a : list A) (x : A) (lo hi : nat) : nat :=
  match fuel with
  | O => lo
  | S fuel' =>
    if (lo <? hi)%nat then
      let mid := ((lo + hi) / 2)%nat in
      match a !! mid with
      | Some y =>
        if ltb x y then bisect_right_loop fuel' a x lo mid
        else bisect_right_loop fuel' a x (mid + 1)%nat hi
      | None => lo
      end
    else lo
  end.

Definition bisect_right (a : list A) (x : A) : nat :=
  bisect_right_loop (length a) a x 0%nat (length a).

(** [a.remove(x)]: drop the first element equal to [x]; [None] stands
    for the [ValueError] of a list that has none. *)
Fixpoint list_remove_first `{EqDecision A} (x : A) (a : list A) : option (list A) :=
  match a with
  | [] => None
  | y :: a' => if decide (y = x) then Some a' else (y ::.) <$> list_remove_first x a'
  end.
End ListPrimitives.

(** [sorted(l, key=key)] for integer keys. *)
Definition key_le {A} (key : A → Z) (a b : A) : Prop := key a ≤ key b.

Global Instance key_le_dec {A} (key : A → Z) a b : Decision (key_le key a b).
Proof. unfold key_le. apply _. Defined.

Definition sorted_by {A} (key : A → Z) (l : list A) : list A :=
  merge_sort (key_le key) l.

(** Python's ordering of pairs: lexicographic. *)
Definition tuple_ltb (p q : Z * Z) : bool :=
  (p.1 <? q.1) || ((p.1 =? q.1) && (p.2 <? q.2)).

(** * The automation track of a synth ([nonrealtimetools/Synth.py]) *)

Module Synth.

(** The slots of a Synth that the automation track reads:
    the timespan, the keyword arguments given at creation, the
    defaults declared by the synthdef ([synthdef.parameters[item].value])
    and the breakpoints, per parameter name. *)
Record t : Type := {
  start_offset : Z;
  stop_offset : Offset;
  _synth_kwargs : gmap string Z;
  synthdef_parameters : gmap string Z;
  _events : gmap string (list (Z * Z));
}.

(** [Timespan.duration]: stop minus start. *)
Definition duration (self : t) : Offset :=
  Offset_sub (stop_offset self) (start_offset self).

Definition default_of (self : t) (item : string) : result Z :=
  declared ← of_option KeyError (synthdef_parameters self !! item);
  Ok (default declared (_synth_kwargs self !! item)).

(** Lines 166-177, on a non-empty breakpoint list. *)
Definition lookup_events (events : list (Z * Z)) (timestep dflt : Z) : result Z :=
  let index := bisect_left tuple_ltb events (timestep, 0) in
  '(old_timestep, value) ←
    of_option IndexError
      (if (length events <=? index)%nat then list_last events else events !! index);
  if old_timestep =? timestep then Ok value
  else
    match index with
    | O => Ok dflt
    | S index' =>
      '(_, value) ← of_option IndexError (events !! index');
      Ok value
    end.

Definition _get_at_timestep (self : t) (timestep : Z) (item : string) : result Z :=
  let timestep := timestep - start_offset self in
  let events := _events self !! item in
  dflt ← default_of self item;
  match events with
  | None | Some [] => Ok dflt
  | Some events => lookup_events events timestep dflt
  end.

(** Lines 191-198: the search and the update, on a non-empty list. *)
Definition insert_or_overwrite (events : list (Z * Z)) (timestep value : Z)
  : result (list (Z * Z)) :=
  let new_event := (timestep, value) in
  let index := bisect_left tuple_ltb events new_event in
  let events :=
    if (length events <=? index)%nat then events ++ [new_event] else events in
  '(old_timestep, old_value) ← of_option IndexError (events !! index);
  if old_timestep =? timestep then Ok (<[index := (timestep, value)]> events)
  else Ok (list_insert_at index new_event events).

(** Lines 187-198: the update of one breakpoint list. *)
Definition write_events (events : list (Z * Z)) (timestep value : Z)
  : result (list (Z * Z)) :=
  match events with
  | [] => Ok [(timestep, value)]
  | _ => insert_or_overwrite events timestep value
  end.

Definition with_events (self : t) (ev : gmap string (list (Z * Z))) : t :=
  {| start_offset := start_offset self;
     stop_offset := stop_offset self;
     _synth_kwargs := _synth_kwargs self;
     synthdef_parameters := synthdef_parameters self;
     _events := ev |}.

(** The call returns nothing; the model returns the synth it leaves. *)
Definition _set_at_timestep (self : t) (timestep : Z) (item : string) (value : Z)
  : result t :=
  let timestep := timestep - start_offset self in
  if (timestep <? 0) || Offset_ltb (duration self) (Finite timestep) then Ok self
  else
    (* [self._events.setdefault(item, [])] *)
    let events := default [] (_events self !! item) in
    events' ← write_events events timestep value;
    Ok (with_events self (<[item := events']> (_events self))).

End Synth.

(** * The session ([nonrealtime/Session.py]) *)

(** ** Dictionaries whose iteration order is observable *)

Section Dict.
Context {K V : Type} `{EqDecision K}.

Fixpoint dict_get (k : K) (d : list (K * V)) : option V :=
  match d with
  | [] => None
  | (k', v) :: d' => if decide (k' = k) then Some v else dict_get k d'
  end.

(** [d[k] = v]: overwrite in place, or add at the end. *)
Fixpoint dict_set (k : K) (v : V) (d : list (K * V)) : list (K * V) :=
  match d with
  | [] => [(k, v)]
  | (k', v') :: d' =>
    if decide (k' = k) then (k, v) :: d' else (k', v') :: dict_set k v d'
  end.

(** [d.update(e)] *)
Definition dict_update (d e : list (K * V)) : list (K * V) :=
  foldl (fun acc kv => dict_set kv.1 kv.2 acc) d e.

(** [del d[k]] once [k] is known to be present. *)
Definition dict_remove (k : K) (d : list (K * V)) : list (K * V) :=
  filter (fun kv => kv.1 ≠ k) d.

(** [k in d] *)
Definition dict_mem (k : K) (d : list (K * V)) : bool :=
  match dict_get k d with
  | Some _ => true
  | None => false
  end.

(** [d[k]] *)
Definition dict_item (k : K) (d : list (K * V)) : result V :=
  of_option KeyError (dict_get k d).
End Dict.

(** ** Timeline objects *)

Inductive CalculationRate : Type := AUDIO | CONTROL.

Inductive ParameterRate : Type := SCALAR_RATE | CONTROL_RATE | AUDIO_RATE.

Inductive AddAction : Type :=
| ADD_TO_HEAD | ADD_TO_TAIL | ADD_BEFORE | ADD_AFTER | REPLACE.

(** A bus group: its logical id, its rate and its width ([len(group)]). *)
Record BusGroup : Type := {
  bus_group_session_id : Z;
  bus_group_calculation_rate : CalculationRate;
  bus_count : nat;
}.

(** A bus is either on its own ([bus.bus_group is None]) or the
    [index]-th member of a group. *)
Inductive Bus : Type :=
| LoneBus (session_id : Z) (rate : CalculationRate)
| MemberBus (group : BusGroup) (index : nat).

Definition bus_group (b : Bus) : option BusGroup :=
  match b with
  | LoneBus _ _ => None
  | MemberBus g _ => Some g
  end.

Definition calculation_rate (b : Bus) : CalculationRate :=
  match b with
  | LoneBus _ r => r
  | MemberBus g _ => bus_group_calculation_rate g
  end.

(** Iterating a bus group yields its members in index order. *)
Definition bus_group_members (g : BusGroup) : list Bus :=
  MemberBus g <$> seq 0 (bus_count g).

Inductive ChannelCount : Type :=
| NoChannelCount
| IntChannelCount (n : Z)
| TupleChannelCount (indices : list Z).

(** The geometry of one buffer, without its group. *)
Record BufferData : Type := {
  buffer_session_id : Z;
  frame_count : option Z;
  channel_count : ChannelCount;
  file_path : option string;
  starting_frame : option Z;
}.

(** A buffer group is the list of its member buffers. *)
Record BufferGroup : Type := { buffer_group_members : list BufferData }.

Record Buffer : Type := {
  buffer_data : BufferData;
  buffer_group : option BufferGroup;
}.

Definition buffer_group_buffers (g : BufferGroup) : list Buffer :=
  (fun d => {| buffer_data := d; buffer_group := Some g |}) <$> buffer_group_members g.

(** Values of synth parameters and request arguments.  A number is an
    extended exact number, like an offset. *)
Inductive Value : Type :=
| VNum (x : Offset)
| VNone
| VStr (s : string)
| VTuple (l : list Z)
| VBus (b : Bus)
| VBusGroup (g : BusGroup)
| VBuffer (b : Buffer)
| VBufferGroup (g : BufferGroup).

Record SynthDef : Type := {
  anonymous_name : string;
  parameters : list (string * ParameterRate);
}.

Definition parameter_names (sd : SynthDef) : list string := (parameters sd).*1.

Inductive NodeKind : Type :=
| RootNodeKind
| GroupKind
| SynthKind (synthdef : SynthDef) (synth_kwargs : list (string * Value)).

Record Node : Type := {
  node_session_id : Z;
  node_kind : NodeKind;
  node_start_offset : Z;
  node_stop_offset : Offset;
  node_duration : Offset;
}.

(** A recorded tree transition: move [source] relative to [target]. *)
Record Action : Type := {
  action_source : Node;
  action_target : Node;
  action_add_action : AddAction;
}.

(** The keys of the id mapping. *)
Inductive SessionObject : Type :=
| ONode (n : Node)
| OBuffer (b : Buffer)
| OBufferGroup (g : BufferGroup)
| OBus (b : Bus)
| OBusGroup (g : BusGroup).

Global Instance CalculationRate_eq_dec : EqDecision CalculationRate.
Proof. solve_decision. Defined.
Global Instance ParameterRate_eq_dec : EqDecision ParameterRate.
Proof. solve_decision. Defined.
Global Instance AddAction_eq_dec : EqDecision AddAction.
Proof. solve_decision. Defined.
Global Instance BusGroup_eq_dec : EqDecision BusGroup.
Proof. solve_decision. Defined.
Global Instance Bus_eq_dec : EqDecision Bus.
Proof. solve_decision. Defined.
Global Instance ChannelCount_eq_dec : EqDecision ChannelCount.
Proof. solve_decision. Defined.
Global Instance BufferData_eq_dec : EqDecision BufferData.
Proof. solve_decision. Defined.
Global Instance BufferGroup_eq_dec : EqDecision BufferGroup.
Proof. solve_decision. Defined.
Global Instance Buffer_eq_dec : EqDecision Buffer.
Proof. solve_decision. Defined.
Global Instance Value_eq_dec : EqDecision Value.
Proof. solve_decision. Defined.
Global Instance SynthDef_eq_dec : EqDecision SynthDef.
Proof. solve_decision. Defined.
Global Instance NodeKind_eq_dec : EqDecision NodeKind.
Proof. solve_decision. Defined.
Global Instance Node_eq_dec : EqDecision Node.
Proof. solve_decision. Defined.
Global Instance Action_eq_dec : EqDecision Action.
Proof. solve_decision. Defined.
Global Instance SessionObject_eq_dec : EqDecision SessionObject.
Proof. solve_decision. Defined.

(** ** Requests and bundles *)

Inductive BufferRequestType : Type :=
| BufferReadRequest
| BufferReadChannelRequest
| BufferZeroRequest
| BufferFillRequest
| BufferGenerateRequest
| BufferSetRequest
| BufferSetContiguousRequest
| BufferNormalizeRequest
| BufferCopyRequest
| BufferWriteRequest.

Global Instance BufferRequestType_eq_dec : EqDecision BufferRequestType.
Proof. solve_decision. Defined.

Inductive AllocateClass : Type :=
| BufferAllocateRequest
| BufferAllocateReadRequest
| BufferAllocateReadChannelRequest.

(** The keyword arguments assembled for an allocation. *)
Record AllocateArguments : Type := {
  arg_buffer_id : Z;
  arg_frame_count : option Z;
  arg_file_path : option string;
  arg_starting_frame : option Z;
  arg_channel_indices : option (list Z);
  arg_channel_count : option ChannelCount;
}.

(** Modelled from the spec: the requests built by [Node._to_request] and
    by the [_to_request] of a recorded transition, whose classes are not
    part of the sources at hand; section 6 of the specification lists
    them as node-new and node-move (before/after/head/tail). *)
Inductive NodeTreeRequest : Type :=
| GroupNewRequest (add_action : AddAction) (node_id target_node_id : Z)
| SynthNewRequest (add_action : AddAction) (node_id : Z) (synthdef : string)
    (target_node_id : Z) (kwargs : list (string * Value))
| NodeMoveRequest (add_action : AddAction) (node_id target_node_id : Z).

Inductive Request : Type :=
| SynthDefReceiveRequest (synthdefs : SynthDef)
| BufferAllocation (cls : AllocateClass) (arguments : AllocateArguments)
| BufferOperation (cls : BufferRequestType) (payload : list (string * Value))
| BufferCloseRequest (buffer_id : Z)
| BufferFreeRequest (buffer_id : Z)
| NodeTree (request : NodeTreeRequest)
| ControlBusSetRequest (index_value_pairs : list (Z * Offset))
| NodeSetRequest (node_id : Z) (settings : list (string * Value))
| NodeMapToAudioBusRequest (node_id : Z) (settings : list (string * Z))
| NodeMapToControlBusRequest (node_id : Z) (settings : list (string * Z))
| NodeFreeRequest (node_ids : list Z)
| NothingRequest.

Record RequestBundle : Type := {
  contents : list Request;
  timestamp : Offset;
}.

(** ** States *)

(** [nodes_to_children]: each node with its children, or [None]. *)
Definition NodeTreeShape : Type := list (Node * option (list Node)).

Module State.
(** A state at one offset.  The sets of the source are duplicate-free
    lists; every consumer below sorts what it iterates. *)
Record t : Type := {
  offset : Offset;
  nodes_to_children : option NodeTreeShape;
  nodes_to_parents : option (list (Node * option Node));
  start_nodes : list Node;
  stop_nodes : list Node;
  overlap_nodes : list Node;
  start_buffers : list Buffer;
  stop_buffers : list Buffer;
  overlap_buffers : list Buffer;
  transitions : list (Node * Action);
}.
End State.

(** The id mapping: session object to integer id. *)
Abbreviation IdMapping := (list (SessionObject * Z)) (only parsing).

(** Methods of [State] and [Node] that the session calls and whose
    classes are outside the sources at hand.  They are taken as
    parameters: pure functions of what they are handed. *)
Class Collaborators : Type := {
  (** [State._clone(new_offset)] *)
  State_clone : State.t → Offset → State.t;
  (** [State._iterate_nodes(root_node, nodes_to_children)] *)
  State_iterate_nodes : Node → NodeTreeShape → list Node;
  (** [Node._collect_settings(offset, id_mapping=..., persistent=False)] *)
  Node_collect_settings : Node → Offset → IdMapping → list (string * Value);
  (** [Node._to_request(action, id_mapping, **kwargs)] *)
  Node_to_request :
    Node → Action → IdMapping → list (string * Value) → result NodeTreeRequest;
  (** [action._to_request(id_mapping)] *)
  Action_to_request : Action → IdMapping → result NodeTreeRequest;
}.

(** ** The session and its private methods *)

Abbreviation BufferEvents :=
  (list (BufferRequestType * list (Offset * list (string * Value)))) (only parsing).

(** The settings gathered before the walk: per offset, the buffer
    operations filed by type and the control-bus values by bus id; and
    the settings of the nodes of one offset, in tree order. *)
Abbreviation BufferSettings :=
  (gmap Offset (list (BufferRequestType * list Request))) (only parsing).
Abbreviation BusSettings := (gmap Offset (list (Z * Offset))) (only parsing).
Abbreviation NodeSettings := (list (Node * list (string * Value))) (only parsing).

Module Session.

(** The mutable attributes [_events] of buffers and buses are kept next
    to the object in the session's collections, so that the object
    itself stays a plain key. *)
Record t : Type := {
  offsets : list Offset;
  states : gmap Offset State.t;
  _buffers : list (Buffer * BufferEvents);
  _buses : list (Bus * list (Offset * Offset));
  root_node : Node;
  _input_bus_channel_count : nat;
  _output_bus_channel_count : nat;
  audio_input_bus_group : option BusGroup;
  audio_output_bus_group : option BusGroup;
  (* [float(padding)], which may be an infinity, or [None] *)
  padding : option Offset;
}.

Definition with_timeline (self : t) (o : list Offset) (s : gmap Offset State.t) : t :=
  {| offsets := o;
     states := s;
     _buffers := _buffers self;
     _buses := _buses self;
     root_node := root_node self;
     _input_bus_channel_count := _input_bus_channel_count self;
     _output_bus_channel_count := _output_bus_channel_count self;
     audio_input_bus_group := audio_input_bus_group self;
     audio_output_bus_group := audio_output_bus_group self;
     padding := padding self |}.

(** A method that may mutate the session and may raise: the session
    it leaves is returned in both cases. *)
Definition M (A : Type) : Type := t → result A * t.

Definition ret {A} (a : A) : M A := fun s => (Ok a, s).
Definition raise {A} (e : exn) : M A := fun s => (Raise e, s).
Definition bind {A B} (m : M A) (k : A → M B) : M B :=
  fun s =>
    match m s with
    | (Ok a, s') => k a s'
    | (Raise e, s') => (Raise e, s')
    end.
Definition lift {A} (r : result A) : M A := fun s => (r, s).
Definition get : M t := fun s => (Ok s, s).
Definition put (s' : t) : M unit := fun _ => (Ok tt, s').

Section Methods.
Context `{Collaborators}.

(** The downward scan of [_find_state_before] with
    [with_node_tree]: indices [n - 1], [n - 2], ..., [0]. *)
Fixpoint scan_for_tree_before (self : t) (n : nat) : result (option State.t) :=
  match n with
  | O => Ok None
  | S index =>
    o ← of_option IndexError (offsets self !! index);
    state ← of_option KeyError (states self !! o);
    match State.nodes_to_children state with
    | Some _ => Ok (Some state)
    | None => scan_for_tree_before self index
    end
  end.

Definition _find_state_before (self : t) (offset : Offset) (with_node_tree : bool)
  : result (option State.t) :=
  let index := bisect_left Offset_ltb (offsets self) offset in
  (* [index == len]: step back; on an empty list [offsets[-1]] raises *)
  index ← (if decide (index = length (offsets self)) then
             match index with
             | O => Raise IndexError
             | S i => Ok i
             end
           else Ok index);
  old_offset ← of_option IndexError (offsets self !! index);
  (* [if offset <= old_offset: index -= 1], counted from one *)
  let count := if Offset_leb offset old_offset then index else S index in
  match count with
  | O => Ok None
  | S index =>
    if with_node_tree then scan_for_tree_before self count
    else
      o ← of_option IndexError (offsets self !! index);
      state ← of_option KeyError (states self !! o);
      Ok (Some state)
  end.

(** The tail shared by [_find_state_at] and [_add_state_at]:
    clone, register, splice the offset after the cloned state's. *)
Definition clone_and_insert (old_state : option State.t) (offset : Offset)
  : M State.t :=
  fun self =>
    match old_state with
    | None => (Raise AttributeError, self)
    | Some old_state =>
      let state := State_clone old_state offset in
      let self := with_timeline self (offsets self) (<[offset := state]> (states self)) in
      match list_index (State.offset old_state) (offsets self) with
      | None => (Raise ValueError, self)
      | Some i =>
        (Ok state,
         with_timeline self (list_insert_at (S i) offset (offsets self)) (states self))
      end
    end.

Definition _add_state_at (offset : Offset) : M State.t :=
  fun self =>
    match _find_state_before self offset false with
    | Raise e => (Raise e, self)
    | Ok old_state => clone_and_insert old_state offset self
    end.

Definition _find_state_at (offset : Offset) (clone_if_missing : bool)
  : M (option State.t) :=
  fun self =>
    match states self !! offset with
    | None =>
      if clone_if_missing then
        match _find_state_before self offset true with
        | Raise e => (Raise e, self)
        | Ok old_state =>
          bind (clone_and_insert old_state offset) (fun st => ret (Some st)) self
        end
      else (Ok None, self)
    | Some state => (Ok (Some state), self)
    end.

(** What [at] hands back: the arguments of the [Moment] it builds. *)
Record Moment : Type := {
  moment_offset : Offset;
  moment_state : State.t;
  moment_propagate : bool;
}.

Definition at_ (offset : Offset) (propagate : bool) : M Moment :=
  fun self =>
    if negb (Offset_leb (Finite 0) offset) then (Raise AssertionError, self)
    else
      match _find_state_at offset false self with
      | (Raise e, self) => (Raise e, self)
      | (Ok (Some state), self) =>
        if decide (is_Some (states self !! State.offset state)) then
          (Ok {| moment_offset := offset; moment_state := state;
                 moment_propagate := propagate |}, self)
        else (Raise AssertionError, self)
      | (Ok None, self) =>
        match _add_state_at offset self with
        | (Raise e, self) => (Raise e, self)
        | (Ok state, self) =>
          (Ok {| moment_offset := offset; moment_state := state;
                 moment_propagate := propagate |}, self)
        end
      end.

(** *** The id mapping *)

Definition _build_id_mapping_for_buffers (self : t) : result IdMapping :=
  foldl
    (fun acc entry =>
       mapping ← acc;
       let buffer_ : Buffer := entry.1 in
       if dict_mem (OBuffer buffer_) mapping then Ok mapping
       else
         match buffer_group buffer_ with
         | None =>
           Ok (dict_set (OBuffer buffer_)
                 (buffer_session_id (buffer_data buffer_)) mapping)
         | Some group =>
           first ← of_option IndexError (buffer_group_buffers group !! O);
           let initial_id := buffer_session_id (buffer_data first) in
           let mapping := dict_set (OBufferGroup group) initial_id mapping in
           Ok (foldl
                 (fun m child =>
                    dict_set (OBuffer child)
                      (buffer_session_id (buffer_data child)) m)
                 mapping (buffer_group_buffers group))
         end)
    (Ok []) (_buffers self).

(** Modelled from the spec: [supriya.realtime.BlockAllocator], which
    is outside the sources at hand.  The specification describes it
    as handing out contiguous integer ranges with free and reuse;
    the builder below never frees, so blocks follow one another from
    [heap_minimum] (zero when not given). *)
Record BlockAllocator : Type := { next_free : Z }.

Definition allocate (a : BlockAllocator) (desired_block_size : nat)
  : Z * BlockAllocator :=
  (next_free a, {| next_free := next_free a + Z.of_nat desired_block_size |}).

(** [for bus_id, bus in enumerate(bus_group, start): mapping[bus] = bus_id] *)
Definition map_enumerated (group : BusGroup) (start : Z) (mapping : IdMapping)
  : IdMapping :=
  foldl
    (fun m ib => dict_set (OBus ib.2) (start + Z.of_nat ib.1) m)
    mapping (imap pair (bus_group_members group)).

Definition map_hardware_group (count : nat) (group : option BusGroup)
    (first_id : Z) (mapping : IdMapping) : result IdMapping :=
  match count with
  | O => Ok mapping
  | S _ =>
    match group with
    | None => Raise TypeError
    | Some bus_group =>
      let mapping := dict_set (OBusGroup bus_group) first_id mapping in
      Ok (map_enumerated bus_group first_id mapping)
    end
  end.

(** One turn of the loop over [self._buses]; the state is the
    mapping and the two allocators (audio, control). *)
Definition map_private_bus
    (acc : IdMapping * (BlockAllocator * BlockAllocator)) (bus : Bus)
  : IdMapping * (BlockAllocator * BlockAllocator) :=
  let '(mapping, (audio, control)) := acc in
  if dict_mem (OBus bus) mapping
     || match bus_group bus with
        | Some g => dict_mem (OBusGroup g) mapping
        | None => false
        end
  then acc
  else
    let allocator :=
      match calculation_rate bus with AUDIO => audio | CONTROL => control end in
    let store a :=
      match calculation_rate bus with
      | AUDIO => (a, control)
      | CONTROL => (audio, a)
      end in
    match bus_group bus with
    | None =>
      let '(bus_id, allocator) := allocate allocator 1 in
      (dict_set (OBus bus) bus_id mapping, store allocator)
    | Some group =>
      let '(block_id, allocator) := allocate allocator (bus_count group) in
      let mapping := dict_set (OBusGroup group) block_id mapping in
      (* [for bus_id in range(block_id, block_id + len(group)):
            mapping[bus] = bus_id] *)
      (foldl (fun m i => dict_set (OBus bus) (block_id + Z.of_nat i) m)
         mapping (seq 0 (bus_count group)),
       store allocator)
    end.

Definition _build_id_mapping_for_buses (self : t) : result IdMapping :=
  let input_count := _input_bus_channel_count self in
  let output_count := _output_bus_channel_count self in
  let first_private_bus_id := Z.of_nat (input_count + output_count) in
  let allocators :=
    ({| next_free := first_private_bus_id |}, {| next_free := 0 |}) in
  mapping ← map_hardware_group output_count (audio_output_bus_group self) 0 [];
  mapping ← map_hardware_group input_count (audio_input_bus_group self)
              (Z.of_nat output_count) mapping;
  Ok (foldl map_private_bus (mapping, allocators) (_buses self).*1).1.

(** The node id allocator only feeds a value that the next line of
    the loop overwrites; it is kept as a counter from 1000. *)
Definition map_start_nodes (acc : IdMapping * Z) (nodes : list Node)
  : IdMapping * Z :=
  foldl
    (fun '(mapping, next_node_id) node =>
       let mapping := dict_set (ONode node) next_node_id mapping in
       (dict_set (ONode node) (node_session_id node) mapping, next_node_id + 1))
    acc nodes.

(** One turn of the loop over [self.offsets[1:]]. *)
Definition map_offset (self : t) (acc : result (IdMapping * Z)) (offset : Offset)
  : result (IdMapping * Z) :=
  acc ← acc;
  state ← of_option KeyError (states self !! offset);
  let nodes := sorted_by node_session_id (State.start_nodes state) in
  Ok (map_start_nodes acc nodes).

Definition _build_id_mapping_for_nodes (self : t) : result IdMapping :=
  fst <$>
  foldl (map_offset self)
    (Ok ([(ONode (root_node self), 0)], 1000)) (drop 1 (offsets self)).

Definition _build_id_mapping (self : t) : result IdMapping :=
  let id_mapping : IdMapping := [] in
  buffers ← _build_id_mapping_for_buffers self;
  let id_mapping := dict_update id_mapping buffers in
  buses ← _build_id_mapping_for_buses self;
  let id_mapping := dict_update id_mapping buses in
  nodes ← _build_id_mapping_for_nodes self;
  Ok (dict_update id_mapping nodes).

(** *** Settings gathered before the walk over the offsets *)

(** Python truthiness of a value. *)
Definition truthy (v : Value) : bool :=
  match v with
  | VNum (Finite 0) | VNone | VStr EmptyString | VTuple [] => false
  | _ => true
  end.

(** The session object a value stands for, if it is one. *)
Definition value_key (v : Value) : option SessionObject :=
  match v with
  | VBus b => Some (OBus b)
  | VBusGroup g => Some (OBusGroup g)
  | VBuffer b => Some (OBuffer b)
  | VBufferGroup g => Some (OBufferGroup g)
  | _ => None
  end.

(** [if value in id_mapping: payload[key] = id_mapping[value]] *)
Definition resolve_payload (id_mapping : IdMapping) (payload : list (string * Value))
  : list (string * Value) :=
  (fun kv : string * Value =>
     match value_key kv.2 ≫= (fun o => dict_get o id_mapping) with
     | Some i => (kv.1, VNum (Finite i))
     | None => kv
     end) <$> payload.

Definition to_buffer_event (event_type : BufferRequestType)
    (payload : list (string * Value)) : Request :=
  match event_type with
  | BufferReadRequest =>
    match dict_get "channel_indices"%string payload with
    | Some VNone =>
      BufferOperation BufferReadRequest (dict_remove "channel_indices"%string payload)
    | Some _ => BufferOperation BufferReadChannelRequest payload
    | None => BufferOperation BufferReadRequest payload
    end
  | _ => BufferOperation event_type payload
  end.

Definition add_buffer_event (event_type : BufferRequestType) (offset : Offset)
    (event : Request) (buffer_settings : BufferSettings) : BufferSettings :=
  let offset_settings := default [] (buffer_settings !! offset) in
  let event_type_settings := default [] (dict_get event_type offset_settings) in
  <[offset := dict_set event_type (event_type_settings ++ [event]) offset_settings]>
    buffer_settings.

Definition _collect_buffer_settings (self : t) (id_mapping : IdMapping)
  : result BufferSettings :=
  keyed ← mapM (fun entry : Buffer * BufferEvents =>
                  (fun i => (i, entry)) <$> dict_item (OBuffer entry.1) id_mapping)
               (_buffers self);
  let sorted_buffers := sorted_by fst keyed in
  Ok (foldl
        (fun buffer_settings (entry : Z * (Buffer * BufferEvents)) =>
           foldl
             (fun buffer_settings (typed : BufferRequestType * _) =>
                foldl
                  (fun buffer_settings (ev : Offset * list (string * Value)) =>
                     let payload := resolve_payload id_mapping ev.2 in
                     add_buffer_event typed.1 ev.1
                       (to_buffer_event typed.1 payload) buffer_settings)
                  buffer_settings typed.2)
             buffer_settings entry.2.2)
        ∅ sorted_buffers).

Definition _collect_bus_settings (self : t) (id_mapping : IdMapping)
  : result BusSettings :=
  foldl
    (fun acc (entry : Bus * list (Offset * Offset)) =>
       bus_settings ← acc;
       match calculation_rate entry.1 with
       | AUDIO => Ok bus_settings
       | CONTROL =>
         bus_id ← dict_item (OBus entry.1) id_mapping;
         Ok (foldl
               (fun (bus_settings : BusSettings) (ev : Offset * Offset) =>
                  <[ev.1 := dict_set bus_id ev.2 (default [] (bus_settings !! ev.1))]>
                    bus_settings)
               bus_settings entry.2)
       end)
    (Ok ∅) (_buses self).

(** *** The collectors of one offset *)

(** [s.add(x)] on a set kept as a duplicate-free list. *)
Definition set_add {A} `{EqDecision A} (x : A) (l : list A) : list A :=
  if decide (x ∈ l) then l else l ++ [x].

(** [s.update(other)] *)
Definition set_update {A} `{EqDecision A} (l other : list A) : list A :=
  foldl (fun acc x => set_add x acc) l other.

Definition by_anonymous_name (a b : SynthDef) : Prop :=
  String.leb (anonymous_name a) (anonymous_name b) = true.

Global Instance by_anonymous_name_dec a b : Decision (by_anonymous_name a b).
Proof. unfold by_anonymous_name. apply _. Defined.

Definition _collect_synthdef_requests
    (start_nodes : list Node) (visited_synthdefs : list SynthDef)
  : list Request * list SynthDef :=
  let '(synthdefs, visited_synthdefs) :=
    foldl
      (fun '(synthdefs, visited) node =>
         match node_kind node with
         | SynthKind synthdef _ =>
           if decide (synthdef ∈ visited) then (synthdefs, visited)
           else (set_add synthdef synthdefs, set_add synthdef visited)
         | _ => (synthdefs, visited)
         end)
      ([], visited_synthdefs) start_nodes in
  (SynthDefReceiveRequest <$> merge_sort by_anonymous_name synthdefs,
   visited_synthdefs).

Definition buffer_key (b : Buffer) : Z := buffer_session_id (buffer_data b).

(** The request class and arguments chosen for one starting buffer. *)
Definition allocate_request (buffer_id : Z) (buffer_ : Buffer) : Request :=
  let d := buffer_data buffer_ in
  match file_path d with
  | Some path =>
    let arguments indices :=
      {| arg_buffer_id := buffer_id; arg_frame_count := frame_count d;
         arg_file_path := Some path; arg_starting_frame := starting_frame d;
         arg_channel_indices := indices; arg_channel_count := None |} in
    match channel_count d with
    | IntChannelCount n =>
      BufferAllocation BufferAllocateReadChannelRequest
        (arguments (Some (Z.of_nat <$> seq 0 (Z.to_nat n))))
    | TupleChannelCount indices =>
      BufferAllocation BufferAllocateReadChannelRequest (arguments (Some indices))
    | NoChannelCount =>
      BufferAllocation BufferAllocateReadRequest (arguments None)
    end
  | None =>
    (* [channel_count or 1], [frame_count or 1] *)
    let channels :=
      match channel_count d with
      | NoChannelCount | IntChannelCount 0 | TupleChannelCount [] => IntChannelCount 1
      | c => c
      end in
    let frames :=
      match frame_count d with
      | None | Some 0 => 1
      | Some n => n
      end in
    BufferAllocation BufferAllocateRequest
      {| arg_buffer_id := buffer_id; arg_frame_count := Some frames;
         arg_file_path := None; arg_starting_frame := None;
         arg_channel_indices := None; arg_channel_count := Some channels |}
  end.

Definition _collect_buffer_allocate_requests
    (buffer_open_states : gmap Z bool) (id_mapping : IdMapping)
    (start_buffers : list Buffer)
  : result (list Request * gmap Z bool) :=
  foldl
    (fun acc buffer_ =>
       '(requests, buffer_open_states) ← acc;
       buffer_id ← dict_item (OBuffer buffer_) id_mapping;
       Ok (requests ++ [allocate_request buffer_id buffer_],
           <[buffer_id := false]> buffer_open_states))
    (Ok ([], buffer_open_states)) (sorted_by buffer_key start_buffers).

Definition _collect_buffer_free_requests
    (buffer_open_states : gmap Z bool) (id_mapping : IdMapping)
    (stop_buffers : list Buffer)
  : result (list Request * gmap Z bool) :=
  foldl
    (fun acc buffer_ =>
       '(requests, buffer_open_states) ← acc;
       buffer_id ← dict_item (OBuffer buffer_) id_mapping;
       open_state ← of_option KeyError (buffer_open_states !! buffer_id);
       let requests :=
         if open_state : bool then requests ++ [BufferCloseRequest buffer_id]
         else requests in
       Ok (requests ++ [BufferFreeRequest buffer_id],
           delete buffer_id buffer_open_states))
    (Ok ([], buffer_open_states)) (sorted_by buffer_key stop_buffers).

(** [request.buffer_id] and [request.leave_open] of a buffer operation. *)
Definition request_buffer_id (request : Request) : result Z :=
  match request with
  | BufferOperation _ payload =>
    match dict_get "buffer_id"%string payload with
    | Some (VNum (Finite i)) => Ok i
    | _ => Raise KeyError
    end
  | _ => Raise AttributeError
  end.

Definition request_leave_open (request : Request) : bool :=
  match request with
  | BufferOperation _ payload =>
    match dict_get "leave_open"%string payload with
    | Some v => truthy v
    | None => false
    end
  | _ => false
  end.

Definition opens_or_closes (request_type : BufferRequestType) : bool :=
  match request_type with
  | BufferReadRequest | BufferReadChannelRequest | BufferWriteRequest => true
  | _ => false
  end.

(** The inner loop over the requests filed under a reading or
    writing type. *)
Definition emit_with_close
    (acc : result (list Request * gmap Z bool)) (request : Request)
  : result (list Request * gmap Z bool) :=
  '(requests, buffer_open_states) ← acc;
  buffer_id ← request_buffer_id request;
  open_state ← of_option KeyError (buffer_open_states !! buffer_id);
  let requests :=
    if open_state : bool then requests ++ [BufferCloseRequest buffer_id]
    else requests in
  Ok (requests ++ [request],
      <[buffer_id := request_leave_open request]> buffer_open_states).

(** One turn of the loop over the request types. *)
Definition emit_type (settings : list (BufferRequestType * list Request))
    (acc : result (list Request * gmap Z bool)) (request_type : BufferRequestType)
  : result (list Request * gmap Z bool) :=
  match dict_get request_type settings with
  | None | Some [] => acc
  | Some buffer_requests =>
    if opens_or_closes request_type then foldl emit_with_close acc buffer_requests
    else
      '(requests, buffer_open_states) ← acc;
      Ok (requests ++ buffer_requests, buffer_open_states)
  end.

Definition _collect_buffer_nonlifecycle_requests
    (buffer_open_states : gmap Z bool) (buffer_settings : BufferSettings)
    (id_mapping : IdMapping) (offset : Offset)
    (request_types : list BufferRequestType)
  : result (list Request * gmap Z bool) :=
  match buffer_settings !! offset with
  | None | Some [] => Ok ([], buffer_open_states)
  | Some buffer_settings =>
    foldl (emit_type buffer_settings) (Ok ([], buffer_open_states)) request_types
  end.

Definition _ordered_buffer_post_alloc_request_types : list BufferRequestType :=
  [ BufferReadRequest; BufferReadChannelRequest; BufferZeroRequest;
    BufferFillRequest; BufferGenerateRequest; BufferSetRequest;
    BufferSetContiguousRequest; BufferNormalizeRequest; BufferCopyRequest ].

Definition _ordered_buffer_pre_free_request_types : list BufferRequestType :=
  [ BufferWriteRequest ].

Definition _collect_bus_set_requests (bus_settings : BusSettings) (offset : Offset)
  : list Request :=
  match bus_settings !! offset with
  | Some settings => [ControlBusSetRequest (sorted_by fst settings)]
  | None => []
  end.

Definition _collect_node_settings (self : t) (offset : Offset) (state : State.t)
    (id_mapping : IdMapping) : result NodeSettings :=
  nodes ←
    match State.nodes_to_children state with
    | None =>
      (* the state is sparse: order by the previous state with a tree *)
      state ← _find_state_before self offset true;
      match state with
      | None => Raise AttributeError
      | Some state =>
        match State.nodes_to_children state with
        | Some tree => Ok (State_iterate_nodes (root_node self) tree)
        | None => Raise AttributeError
        end
      end
    | Some tree => Ok (State_iterate_nodes (root_node self) tree)
    end;
  Ok (foldl
        (fun result node =>
           match Node_collect_settings node offset id_mapping with
           | [] => result
           | settings => dict_set node settings result
           end)
        [] nodes).

Definition _collect_node_action_requests
    (duration : Offset) (id_mapping : IdMapping)
    (node_actions : list (Node * Action)) (node_settings : NodeSettings)
    (start_nodes : list Node)
  : result (list Request * NodeSettings) :=
  foldl
    (fun acc (item : Node * Action) =>
       '(requests, node_settings) ← acc;
       let '(source, action) := item in
       if decide (source ∈ start_nodes) then
         match node_kind source with
         | SynthKind synthdef synth_kwargs =>
           let '(synth_kwargs, node_settings) :=
             match dict_get source node_settings with
             | Some settings =>
               (dict_update synth_kwargs settings, dict_remove source node_settings)
             | None => (synth_kwargs, node_settings)
             end in
           let synth_kwargs :=
             if decide ("duration"%string ∈ parameter_names synthdef) then
               let node_duration :=
                 if Offset_ltb duration (node_stop_offset source)
                 then Offset_sub duration (node_start_offset source)
                 else node_duration source in
               dict_set "duration"%string (VNum node_duration) synth_kwargs
             else synth_kwargs in
           request ← Node_to_request source action id_mapping synth_kwargs;
           Ok (requests ++ [NodeTree request], node_settings)
         | _ =>
           request ← Node_to_request source action id_mapping [];
           Ok (requests ++ [NodeTree request], node_settings)
         end
       else
         request ← Action_to_request action id_mapping;
         Ok (requests ++ [NodeTree request], node_settings))
    (Ok ([], node_settings)) node_actions.

(** The three-way split of the settings of one node. *)
Definition split_settings (id_mapping : IdMapping)
    (parameters : list (string * ParameterRate))
    (settings : list (string * Value))
  : result (list (string * Value) * list (string * Z) * list (string * Z)) :=
  foldl
    (fun acc (kv : string * Value) =>
       '(n_settings, a_settings, c_settings) ← acc;
       let '(key, value) := kv in
       if decide (dict_get key parameters = Some SCALAR_RATE) then
         Ok (n_settings, a_settings, c_settings)
       else
         match value with
         | VNone => Ok (n_settings, a_settings, dict_set key (-1) c_settings)
         | VBus b =>
           i ← dict_item (OBus b) id_mapping;
           match calculation_rate b with
           | CONTROL => Ok (n_settings, a_settings, dict_set key i c_settings)
           | AUDIO => Ok (n_settings, dict_set key i a_settings, c_settings)
           end
         | VBusGroup g =>
           i ← dict_item (OBusGroup g) id_mapping;
           match bus_group_calculation_rate g with
           | CONTROL => Ok (n_settings, a_settings, dict_set key i c_settings)
           | AUDIO => Ok (n_settings, dict_set key i a_settings, c_settings)
           end
         | VBuffer b =>
           i ← dict_item (OBuffer b) id_mapping;
           Ok (dict_set key (VNum (Finite i)) n_settings, a_settings, c_settings)
         | VBufferGroup g =>
           i ← dict_item (OBufferGroup g) id_mapping;
           Ok (dict_set key (VNum (Finite i)) n_settings, a_settings, c_settings)
         | _ => Ok (dict_set key value n_settings, a_settings, c_settings)
         end)
    (Ok ([], [], [])) settings.

Definition _collect_node_set_requests
    (id_mapping : IdMapping) (node_settings : NodeSettings)
  : result (list Request) :=
  foldl
    (fun acc (item : Node * list (string * Value)) =>
       requests ← acc;
       let '(node, settings) := item in
       let parameters :=
         match node_kind node with
         | SynthKind synthdef _ => parameters synthdef
         | _ => []
         end in
       node_id ← dict_item (ONode node) id_mapping;
       '(n_settings, a_settings, c_settings) ←
         split_settings id_mapping parameters settings;
       let requests :=
         match n_settings with
         | [] => requests
         | _ => requests ++ [NodeSetRequest node_id n_settings]
         end in
       let requests :=
         match a_settings with
         | [] => requests
         | _ => requests ++ [NodeMapToAudioBusRequest node_id a_settings]
         end in
       let requests :=
         match c_settings with
         | [] => requests
         | _ => requests ++ [NodeMapToControlBusRequest node_id c_settings]
         end in
       Ok requests)
    (Ok []) node_settings.

(** [hasattr(node, "synthdef") and "gate" in node.synthdef.parameter_names] *)
Definition has_gate (node : Node) : bool :=
  match node_kind node with
  | SynthKind synthdef _ => bool_decide ("gate"%string ∈ parameter_names synthdef)
  | _ => false
  end.

(** Truthiness of [node.duration]. *)
Definition has_duration (node : Node) : bool :=
  negb (bool_decide (node_duration node = Finite 0)).

Definition gate_off (node_id : Z) : Request :=
  NodeSetRequest node_id [("gate"%string, VNum (Finite 0))].

(** The loop of lines 726-734: the ids to free and the ids to gate. *)
Definition partition_stop_nodes (id_mapping : IdMapping) (stop_nodes : list Node)
  : result (list Z * list Z) :=
  foldl
    (fun acc node =>
       '(free_ids, gate_ids) ← acc;
       node_id ← dict_item (ONode node) id_mapping;
       if has_gate node then Ok (free_ids, gate_ids ++ [node_id])
       else if has_duration node then Ok (free_ids ++ [node_id], gate_ids)
       else Ok (free_ids, gate_ids))
    (Ok ([], [])) stop_nodes.

Definition _collect_node_free_requests
    (id_mapping : IdMapping) (stop_nodes : list Node) : result (list Request) :=
  match stop_nodes with
  | [] => Ok []
  | _ =>
    '(free_ids, gate_ids) ← partition_stop_nodes id_mapping stop_nodes;
    let free_ids := merge_sort Z.le free_ids in
    let gate_ids := merge_sort Z.le gate_ids in
    let requests :=
      match free_ids with
      | [] => []
      | _ => [NodeFreeRequest free_ids]
      end in
    Ok (requests ++ (gate_off <$> gate_ids))
  end.

(** *** One offset, and the walk over all of them *)

(** The start and stop sets of the state at [offset].  The source
    also builds [all_buffers] and [all_nodes] from the interval
    collections; nothing reads them afterwards and they are left
    out. *)
Definition _collect_durated_objects (offset : Offset) (is_last_offset : bool)
  : M (list Buffer * list Node * list Buffer * list Node) :=
  bind (_find_state_at offset true) (fun state =>
    match state with
    | None => raise AttributeError
    | Some state =>
      let stop_buffers := State.stop_buffers state in
      let stop_nodes := State.stop_nodes state in
      let stop_buffers :=
        if is_last_offset then set_update stop_buffers (State.overlap_buffers state)
        else stop_buffers in
      let stop_nodes :=
        if is_last_offset then set_update stop_nodes (State.overlap_nodes state)
        else stop_nodes in
      ret (State.start_buffers state, State.start_nodes state,
           stop_buffers, stop_nodes)
    end).

(** The nine categories of one offset, given the state found there. *)
Definition requests_of_state (self : t)
    (buffer_open_states : gmap Z bool) (buffer_settings : BufferSettings)
    (bus_settings : BusSettings) (duration : Offset) (id_mapping : IdMapping)
    (offset : Offset) (visited_synthdefs : list SynthDef)
    (objects : list Buffer * list Node * list Buffer * list Node)
    (state : State.t)
  : result (list Request * gmap Z bool * list SynthDef) :=
  let '(start_buffers, start_nodes, stop_buffers, stop_nodes) := objects in
  let node_actions := State.transitions state in
  node_settings ← _collect_node_settings self offset state id_mapping;
  let '(synthdef_requests, visited_synthdefs) :=
    _collect_synthdef_requests start_nodes visited_synthdefs in
  '(allocate_requests, buffer_open_states) ←
    _collect_buffer_allocate_requests buffer_open_states id_mapping start_buffers;
  '(post_alloc_requests, buffer_open_states) ←
    _collect_buffer_nonlifecycle_requests buffer_open_states buffer_settings
      id_mapping offset _ordered_buffer_post_alloc_request_types;
  '(node_action_requests, node_settings) ←
    _collect_node_action_requests duration id_mapping node_actions
      node_settings start_nodes;
  let bus_set_requests := _collect_bus_set_requests bus_settings offset in
  node_set_requests ← _collect_node_set_requests id_mapping node_settings;
  node_free_requests ← _collect_node_free_requests id_mapping stop_nodes;
  '(pre_free_requests, buffer_open_states) ←
    _collect_buffer_nonlifecycle_requests buffer_open_states buffer_settings
      id_mapping offset _ordered_buffer_pre_free_request_types;
  '(buffer_free_requests, buffer_open_states) ←
    _collect_buffer_free_requests buffer_open_states id_mapping stop_buffers;
  Ok (synthdef_requests ++ allocate_requests ++ post_alloc_requests
        ++ node_action_requests ++ bus_set_requests ++ node_set_requests
        ++ node_free_requests ++ pre_free_requests ++ buffer_free_requests,
      buffer_open_states, visited_synthdefs).

Definition _collect_requests_at_offset
    (buffer_open_states : gmap Z bool) (buffer_settings : BufferSettings)
    (bus_settings : BusSettings) (duration : Offset) (id_mapping : IdMapping)
    (is_last_offset : bool) (offset : Offset) (visited_synthdefs : list SynthDef)
  : M (list Request * gmap Z bool * list SynthDef) :=
  bind (_collect_durated_objects offset is_last_offset) (fun objects =>
  bind (_find_state_at offset true) (fun state =>
    match state with
    | None => raise AttributeError
    | Some state =>
      bind get (fun self =>
        lift (requests_of_state self buffer_open_states buffer_settings
                bus_settings duration id_mapping offset visited_synthdefs
                objects state))
    end)).

(** The property [duration].  The padding is added to a positive
    duration when it is truthy, that is, not zero; added to a duration
    of plus infinity it leaves plus infinity (the sum with minus
    infinity, a NaN, is outside the model). *)
Definition duration (self : t) : Offset :=
  let duration :=
    match list_find (fun o => Offset_ltb o PosInf = true) (reverse (offsets self)) with
    | Some (_, o) => o
    | None => default (Finite 0) (head (offsets self))
    end in
  let duration := if Offset_ltb duration (Finite 0) then Finite 0 else duration in
  match duration, padding self with
  | Finite d, Some p =>
    if (0 <? d) && negb (bool_decide (p = Finite 0)) then Offset_add d p else duration
  | _, _ => duration
  end.

(** The loop of lines 1006-1028. *)
Fixpoint compile_offsets
    (buffer_settings : BufferSettings) (bus_settings : BusSettings)
    (duration : Offset) (id_mapping : IdMapping)
    (offsets : list Offset) (request_bundles : list RequestBundle)
    (buffer_open_states : gmap Z bool) (visited_synthdefs : list SynthDef)
  : M (list RequestBundle) :=
  match offsets with
  | [] => ret request_bundles
  | offset :: offsets =>
    let is_last_offset := bool_decide (offset = duration) in
    bind (_collect_requests_at_offset buffer_open_states buffer_settings
            bus_settings duration id_mapping is_last_offset offset
            visited_synthdefs)
      (fun '(requests, buffer_open_states, visited_synthdefs) =>
         let requests :=
           if is_last_offset then requests ++ [NothingRequest] else requests in
         let request_bundles :=
           match requests with
           | [] => request_bundles
           | _ => request_bundles
                    ++ [{| contents := requests; timestamp := offset |}]
           end in
         if is_last_offset then ret request_bundles
         else compile_offsets buffer_settings bus_settings duration id_mapping
                offsets request_bundles buffer_open_states visited_synthdefs)
  end.

Definition Offset_le (a b : Offset) : Prop := Offset_leb a b = true.

Global Instance Offset_le_dec a b : Decision (Offset_le a b).
Proof. unfold Offset_le. apply _. Defined.

(** [duration or self.duration] *)
Definition duration_or (duration_ : option Offset) (self : t) : Offset :=
  match duration_ with
  | None | Some (Finite 0) => duration self
  | Some d => d
  end.

Definition _to_non_xrefd_request_bundles (duration_ : option Offset)
  : M (list RequestBundle) :=
  fun self =>
    match _build_id_mapping self with
    | Raise e => (Raise e, self)
    | Ok id_mapping =>
      if bool_decide (duration self = PosInf)
         && negb (match duration_ with
                  | Some d => Offset_ltb (Finite 0) d && Offset_ltb d PosInf
                  | None => false
                  end)
      then (Raise AssertionError, self)
      else
        let duration := duration_or duration_ self in
        let offsets := drop 1 (offsets self) in
        let offsets :=
          if decide (duration ∈ offsets) then offsets
          else merge_sort Offset_le (offsets ++ [duration]) in
        match _collect_buffer_settings self id_mapping with
        | Raise e => (Raise e, self)
        | Ok buffer_settings =>
          match _collect_bus_settings self id_mapping with
          | Raise e => (Raise e, self)
          | Ok bus_settings =>
            compile_offsets buffer_settings bus_settings duration id_mapping
              offsets [] ∅ [] self
          end
        end
    end.

(** *** The rest of the offset index *)

(** The upward scan of [_find_state_after] with [with_node_tree],
    over [offsets[index:]]. *)
Fixpoint scan_for_tree_after (self : t) (rest : list Offset) : result (option State.t) :=
  match rest with
  | [] => Ok None
  | o :: rest =>
    state ← of_option KeyError (states self !! o);
    match State.nodes_to_children state with
    | Some _ => Ok (Some state)
    | None => scan_for_tree_after self rest
    end
  end.

Definition _find_state_after (self : t) (offset : Offset) (with_node_tree : bool)
  : result (option State.t) :=
  let index := bisect_right Offset_ltb (offsets self) offset in
  if with_node_tree then scan_for_tree_after self (drop index (offsets self))
  else
    match offsets self !! index with
    | Some old_offset =>
      if Offset_ltb offset old_offset then
        state ← of_option KeyError (states self !! old_offset);
        Ok (Some state)
      else Ok None
    | None => Ok None
    end.

(** [State.is_sparse] belongs to a class outside the sources at hand
    and is handed in. *)
Definition _remove_state_at (is_sparse : State.t → bool) (offset : Offset)
  : M (option State.t) :=
  fun self =>
    match _find_state_at offset false self with
    | (Raise e, self) => (Raise e, self)
    | (Ok None, self) => (Ok None, self)
    | (Ok (Some state), self) =>
      if is_sparse state then
        match list_remove_first offset (offsets self) with
        | None => (Raise ValueError, self)
        | Some offsets' =>
          (Ok (Some state),
           with_timeline self offsets' (delete offset (states self)))
        end
      else (Raise AssertionError, self)
    end.

(** [_get_next_session_id], on the dictionary [self._session_ids] that
    it reads and updates: the id handed out and the dictionary left. *)
Definition _get_next_session_id (kind : string) (_session_ids : gmap string Z)
  : Z * gmap string Z :=
  let dflt := if decide (kind = "node"%string) then 1000 else 0 in
  let session_id := default dflt (_session_ids !! kind) in
  (session_id, <[kind := session_id + 1]> _session_ids).

(** Modelled from the spec: the constructor [State(session, offset)],
    whose class is outside the sources at hand; section 3 of the
    specification lists what a state records, and a new one records
    nothing. *)
Definition State_new (offset : Offset) : State.t :=
  {| State.offset := offset;
     State.nodes_to_children := None;
     State.nodes_to_parents := None;
     State.start_nodes := [];
     State.stop_nodes := [];
     State.overlap_nodes := [];
     State.start_buffers := [];
     State.stop_buffers := [];
     State.overlap_buffers := [];
     State.transitions := [] |}.

Definition with_tree (state : State.t) (children : NodeTreeShape)
    (parents : list (Node * option Node)) : State.t :=
  {| State.offset := State.offset state;
     State.nodes_to_children := Some children;
     State.nodes_to_parents := Some parents;
     State.start_nodes := State.start_nodes state;
     State.stop_nodes := State.stop_nodes state;
     State.overlap_nodes := State.overlap_nodes state;
     State.start_buffers := State.start_buffers state;
     State.stop_buffers := State.stop_buffers state;
     State.overlap_buffers := State.overlap_buffers state;
     State.transitions := State.transitions state |}.

Definition _setup_initial_states : M unit :=
  fun self =>
    let offset := NegInf in
    let state := State_new offset in
    let state := with_tree state [(root_node self, None)] [(root_node self, None)] in
    let self :=
      with_timeline self (offsets self ++ [offset]) (<[offset := state]> (states self)) in
    let offset := Finite 0 in
    let state := State_clone state offset in
    (Ok tt,
     with_timeline self (offsets self ++ [offset]) (<[offset := state]> (states self))).

End Methods.
End Session.

(** * Collaborators and sample timelines used to run the model *)

(** Modelled from the spec: [State._clone], which belongs to a class
    outside the sources at hand.  Section 4.1 of the specification has
    it copy the tree shape of the state it is called on into a new state
    at the new offset, with nothing recorded in it yet. *)
Definition clone_tree_shape (old_state : State.t) (new_offset : Offset) : State.t :=
  {| State.offset := new_offset;
     State.nodes_to_children := State.nodes_to_children old_state;
     State.nodes_to_parents := State.nodes_to_parents old_state;
     State.start_nodes := [];
     State.stop_nodes := [];
     State.overlap_nodes := [];
     State.start_buffers := [];
     State.stop_buffers := [];
     State.overlap_buffers := [];
     State.transitions := [] |}.

(** Modelled from the spec: the request of a starting node, which
    [Node._to_request] builds outside the sources at hand: a node-new
    request carrying the ids of the node and of the transition's target. *)
Definition node_new_request (source : Node) (action : Action)
    (id_mapping : IdMapping) (kwargs : list (string * Value))
  : result NodeTreeRequest :=
  node_id ← dict_item (ONode source) id_mapping;
  target_node_id ← dict_item (ONode (action_target action)) id_mapping;
  match node_kind source with
  | SynthKind synthdef _ =>
    Ok (SynthNewRequest (action_add_action action) node_id
          (anonymous_name synthdef) target_node_id kwargs)
  | _ => Ok (GroupNewRequest (action_add_action action) node_id target_node_id)
  end.

(** Modelled from the spec: the request of a recorded move, built
    outside the sources at hand: a node-move request. *)
Definition node_move_request (action : Action) (id_mapping : IdMapping)
  : result NodeTreeRequest :=
  node_id ← dict_item (ONode (action_source action)) id_mapping;
  target_node_id ← dict_item (ONode (action_target action)) id_mapping;
  Ok (NodeMoveRequest (action_add_action action) node_id target_node_id).

(** Collaborators for timelines on which no parameter change is
    recorded: the tree is walked in the order the shape lists it. *)
Definition plain_collaborators : Collaborators :=
  {| State_clone := clone_tree_shape;
     State_iterate_nodes := fun _ tree => tree.*1;
     Node_collect_settings := fun _ _ _ => [];
     Node_to_request := node_new_request;
     Action_to_request := node_move_request |}.

Module Samples.

(** A synth over [0, 10] with one declared parameter. *)
Definition sine : Synth.t :=
  {| Synth.start_offset := 0;
     Synth.stop_offset := Finite 10;
     Synth._synth_kwargs := ∅;
     Synth.synthdef_parameters := {[ "frequency"%string := 440 ]};
     Synth._events := ∅ |}.

Definition root : Node :=
  {| node_session_id := 0; node_kind := RootNodeKind;
     node_start_offset := 0; node_stop_offset := PosInf;
     node_duration := PosInf |}.

Definition default_synthdef : SynthDef :=
  {| anonymous_name := "da0982184cc8fa54cf9d288a0fe1f6ca";
     parameters := [("amplitude", CONTROL_RATE); ("frequency", CONTROL_RATE);
                    ("gate", CONTROL_RATE); ("out", SCALAR_RATE);
                    ("pan", CONTROL_RATE)]%string |}.

Definition rand_seed_synthdef : SynthDef :=
  {| anonymous_name := "rand_seed";
     parameters := [("rand_id", SCALAR_RATE); ("rand_seed", SCALAR_RATE)]%string |}.

Definition group (session_id : Z) (start duration : Z) : Node :=
  {| node_session_id := session_id; node_kind := GroupKind;
     node_start_offset := start; node_stop_offset := Finite (start + duration);
     node_duration := Finite duration |}.

Definition synth (session_id : Z) (synthdef : SynthDef) (start duration : Z) : Node :=
  {| node_session_id := session_id; node_kind := SynthKind synthdef [];
     node_start_offset := start; node_stop_offset := Finite (start + duration);
     node_duration := Finite duration |}.

(** The synth that [set_rand_seed] adds: no gate, duration zero. *)
Definition rand_seed_synth : Node := synth 1000 rand_seed_synthdef 0 0.

(** The nodes of scenario A of the specification. *)
Definition scenario_nodes : list Node :=
  [group 1000 0 20; synth 1002 default_synthdef 0 20; group 1003 0 20; group 1001 0 20].

Definition node_ids (nodes : list Node) : IdMapping :=
  (fun n => (ONode n, node_session_id n)) <$> nodes.

Definition root_shape : NodeTreeShape := [(root, None)].

Definition empty_state (o : Offset) : State.t :=
  {| State.offset := o;
     State.nodes_to_children := Some root_shape;
     State.nodes_to_parents := Some [(root, None)];
     State.start_nodes := [];
     State.stop_nodes := [];
     State.overlap_nodes := [];
     State.start_buffers := [];
     State.stop_buffers := [];
     State.overlap_buffers := [];
     State.transitions := [] |}.

(** A session without hardware buses. *)
Definition session (offsets : list Offset) (states : gmap Offset State.t)
    (buffers : list (Buffer * BufferEvents))
    (buses : list (Bus * list (Offset * Offset))) : Session.t :=
  {| Session.offsets := offsets;
     Session.states := states;
     Session._buffers := buffers;
     Session._buses := buses;
     Session.root_node := root;
     Session._input_bus_channel_count := 0;
     Session._output_bus_channel_count := 0;
     Session.audio_input_bus_group := None;
     Session.audio_output_bus_group := None;
     Session.padding := None |}.

(** The session right after [Session()]: offsets [-inf] and [0]. *)
Definition fresh : Session.t :=
  session [NegInf; Finite 0]
    {[ NegInf := empty_state NegInf; Finite 0 := empty_state (Finite 0) ]} [] [].

(** [add_bus_group(bus_count=2)] on a fresh session. *)
Definition control_pair : BusGroup :=
  {| bus_group_session_id := 0; bus_group_calculation_rate := CONTROL;
     bus_count := 2 |}.

Definition with_control_pair : Session.t :=
  session [NegInf; Finite 0]
    {[ NegInf := empty_state NegInf; Finite 0 := empty_state (Finite 0) ]} []
    [(MemberBus control_pair 0, []); (MemberBus control_pair 1, [])].

(** Two output channels and one input channel. *)
Definition outputs : BusGroup :=
  {| bus_group_session_id := 0; bus_group_calculation_rate := AUDIO; bus_count := 2 |}.
Definition inputs : BusGroup :=
  {| bus_group_session_id := 1; bus_group_calculation_rate := AUDIO; bus_count := 1 |}.
Definition audio_pair : BusGroup :=
  {| bus_group_session_id := 2; bus_group_calculation_rate := AUDIO; bus_count := 2 |}.

Definition with_hardware : Session.t :=
  {| Session.offsets := [NegInf; Finite 0];
     Session.states :=
       {[ NegInf := empty_state NegInf; Finite 0 := empty_state (Finite 0) ]};
     Session._buffers := [];
     Session._buses := [(MemberBus audio_pair 0, []); (MemberBus audio_pair 1, [])];
     Session.root_node := root;
     Session._input_bus_channel_count := 1;
     Session._output_bus_channel_count := 2;
     Session.audio_input_bus_group := Some inputs;
     Session.audio_output_bus_group := Some outputs;
     Session.padding := None |}.

(** Scenario A of the specification: three groups and a synth, all
    created at offset 0 for a duration of 20. *)
Definition g1000 : Node := group 1000 0 20.
Definition g1001 : Node := group 1001 0 20.
Definition s1002 : Node := synth 1002 default_synthdef 0 20.
Definition g1003 : Node := group 1003 0 20.

Definition add_to_head (source target : Node) : Node * Action :=
  (source, {| action_source := source; action_target := target;
              action_add_action := ADD_TO_HEAD |}).

Definition scenario_a_start : State.t :=
  {| State.offset := Finite 0;
     State.nodes_to_children :=
       Some [(root, Some [g1003; g1001; g1000]); (g1003, None);
             (g1001, Some [s1002]); (s1002, None); (g1000, None)];
     State.nodes_to_parents :=
       Some [(root, None); (g1003, Some root); (g1001, Some root);
             (s1002, Some g1001); (g1000, Some root)];
     State.start_nodes := [g1000; g1001; s1002; g1003];
     State.stop_nodes := [];
     State.overlap_nodes := [];
     State.start_buffers := [];
     State.stop_buffers := [];
     State.overlap_buffers := [];
     State.transitions :=
       [add_to_head g1000 root; add_to_head g1001 root;
        add_to_head s1002 g1001; add_to_head g1003 root] |}.

Definition scenario_a_stop : State.t :=
  {| State.offset := Finite 20;
     State.nodes_to_children := Some root_shape;
     State.nodes_to_parents := Some [(root, None)];
     State.start_nodes := [];
     State.stop_nodes := [g1000; g1001; s1002; g1003];
     State.overlap_nodes := [];
     State.start_buffers := [];
     State.stop_buffers := [];
     State.overlap_buffers := [];
     State.transitions := [] |}.

Definition scenario_a : Session.t :=
  session [NegInf; Finite 0; Finite 20]
    {[ NegInf := empty_state NegInf; Finite 0 := scenario_a_start;
       Finite 20 := scenario_a_stop ]} [] [].

Definition scenario_a_bundles : list RequestBundle :=
  [ {| contents :=
         [ SynthDefReceiveRequest default_synthdef;
           NodeTree (GroupNewRequest ADD_TO_HEAD 1000 0);
           NodeTree (GroupNewRequest ADD_TO_HEAD 1001 0);
           NodeTree (SynthNewRequest ADD_TO_HEAD 1002
                       "da0982184cc8fa54cf9d288a0fe1f6ca" 1001 []);
           NodeTree (GroupNewRequest ADD_TO_HEAD 1003 0) ];
       timestamp := Finite 0 |};
    {| contents :=
         [ NodeFreeRequest [1000; 1001; 1003];
           NodeSetRequest 1002 [("gate"%string, VNum (Finite 0))];
           NothingRequest ];
       timestamp := Finite 20 |} ].

(** A buffer of five time units on an otherwise empty session.  The
    state at its stop offset is sparse: it holds no tree shape. *)
Definition buffer0 : Buffer :=
  {| buffer_data :=
       {| buffer_session_id := 0; frame_count := Some 1024;
          channel_count := IntChannelCount 1; file_path := None;
          starting_frame := None |};
     buffer_group := None |}.

Definition buffer0_start : State.t :=
  {| State.offset := Finite 0;
     State.nodes_to_children := Some root_shape;
     State.nodes_to_parents := Some [(root, None)];
     State.start_nodes := [];
     State.stop_nodes := [];
     State.overlap_nodes := [];
     State.start_buffers := [buffer0];
     State.stop_buffers := [];
     State.overlap_buffers := [];
     State.transitions := [] |}.

Definition buffer0_stop : State.t :=
  {| State.offset := Finite 5;
     State.nodes_to_children := None;
     State.nodes_to_parents := None;
     State.start_nodes := [];
     State.stop_nodes := [];
     State.overlap_nodes := [];
     State.start_buffers := [];
     State.stop_buffers := [buffer0];
     State.overlap_buffers := [];
     State.transitions := [] |}.

Definition one_buffer : Session.t :=
  session [NegInf; Finite 0; Finite 5]
    {[ NegInf := empty_state NegInf; Finite 0 := buffer0_start;
       Finite 5 := buffer0_stop ]}
    [(buffer0, [])] [].

Definition allocate_buffer0 : Request :=
  BufferAllocation BufferAllocateRequest
    {| arg_buffer_id := 0; arg_frame_count := Some 1024; arg_file_path := None;
       arg_starting_frame := None; arg_channel_indices := None;
       arg_channel_count := Some (IntChannelCount 1) |}.

(** Scenario A rendered up to 10 only. *)
Definition scenario_a_truncated : result (list RequestBundle) * Session.t :=
  Session._to_non_xrefd_request_bundles (H := plain_collaborators)
    (Some (Finite 10)) scenario_a.

Definition scenario_a_node_ids : IdMapping :=
  [(ONode root, 0); (ONode g1000, 1000); (ONode g1001, 1001);
   (ONode s1002, 1002); (ONode g1003, 1003)].

(** Two buffers over [0, 10], each read from a file at offset 0: the
    first with a channel subset, the second whole. *)
Definition file_buffer (session_id : Z) : Buffer :=
  {| buffer_data :=
       {| buffer_session_id := session_id; frame_count := Some 1024;
          channel_count := IntChannelCount 2; file_path := None;
          starting_frame := None |};
     buffer_group := None |}.

Definition read_event (b : Buffer) (channel_indices : Value) (path : string)
  : Offset * list (string * Value) :=
  (Finite 0,
   [("buffer_id", VBuffer b); ("channel_indices", channel_indices);
    ("file_path", VStr path); ("leave_open", VNone)]%string).

Definition two_reads : Session.t :=
  session [NegInf; Finite 0; Finite 10]
    {[ NegInf := empty_state NegInf;
       Finite 0 :=
         {| State.offset := Finite 0;
            State.nodes_to_children := Some root_shape;
            State.nodes_to_parents := Some [(root, None)];
            State.start_nodes := [];
            State.stop_nodes := [];
            State.overlap_nodes := [];
            State.start_buffers := [file_buffer 0; file_buffer 1];
            State.stop_buffers := [];
            State.overlap_buffers := [];
            State.transitions := [] |};
       Finite 10 :=
         {| State.offset := Finite 10;
            State.nodes_to_children := Some root_shape;
            State.nodes_to_parents := Some [(root, None)];
            State.start_nodes := [];
            State.stop_nodes := [];
            State.overlap_nodes := [];
            State.start_buffers := [];
            State.stop_buffers := [file_buffer 0; file_buffer 1];
            State.overlap_buffers := [];
            State.transitions := [] |} ]}
    [ (file_buffer 0,
       [(BufferReadRequest, [read_event (file_buffer 0) (VTuple [0]) "a.aiff"])]);
      (file_buffer 1,
       [(BufferReadRequest, [read_event (file_buffer 1) VNone "b.aiff"])]) ]
    [].

Definition two_reads_ids : IdMapping :=
  [(OBuffer (file_buffer 0), 0); (OBuffer (file_buffer 1), 1); (ONode root, 0)].

Definition read_channels_a : Request :=
  BufferOperation BufferReadChannelRequest
    [("buffer_id", VNum (Finite 0)); ("channel_indices", VTuple [0]);
     ("file_path", VStr "a.aiff"); ("leave_open", VNone)]%string.

Definition read_b : Request :=
  BufferOperation BufferReadRequest
    [("buffer_id", VNum (Finite 1)); ("file_path", VStr "b.aiff");
     ("leave_open", VNone)]%string.

Definition allocate (buffer_id : Z) : Request :=
  BufferAllocation BufferAllocateRequest
    {| arg_buffer_id := buffer_id; arg_frame_count := Some 1024;
       arg_file_path := None; arg_starting_frame := None;
       arg_channel_indices := None;
       arg_channel_count := Some (IntChannelCount 2) |}.

(** What [_collect_buffer_settings] files for the two buffers. *)
Definition two_reads_settings : BufferSettings :=
  {[ Finite 0 := [(BufferReadRequest, [read_channels_a; read_b])] ]}.

Definition two_reads_first : list Request :=
  [allocate 0; allocate 1; read_channels_a; read_b].

Definition two_reads_render : result (list RequestBundle) * Session.t :=
  Session._to_non_xrefd_request_bundles (H := plain_collaborators)
    (Some (Finite 10)) two_reads.

Definition scenario_a_render : result (list RequestBundle) * Session.t :=
  Session._to_non_xrefd_request_bundles (H := plain_collaborators)
    (Some (Finite 20)) scenario_a.

End Samples.

(** The invariant of the offset index: the offset list is strictly
    ascending and starts at minus infinity, the states are registered
    under exactly the listed offsets, each under its own offset. *)
Record timeline_ok (self : Session.t) : Prop := {
  offsets_sorted : StronglySorted Offset_lt (Session.offsets self);
  offsets_head : head (Session.offsets self) = Some NegInf;
  states_registered :
    ∀ o, o ∈ Session.offsets self ↔ is_Some (Session.states self !! o);
  states_offset :
    ∀ o state, Session.states self !! o = Some state → State.offset state = o;
}.

(** The ids that a stop set contributes: those of the nodes [keep]
    selects, in the order of the set. *)
Definition ids_where (keep : Node → bool) (id_mapping : IdMapping) (nodes : list Node)
  : list Z :=
  omap (fun n => if keep n then dict_get (ONode n) id_mapping else None) nodes.

(** A stopping node is freed outright when it has no gate and a
    duration other than zero. *)
Definition hard_freed (n : Node) : bool :=
  negb (Session.has_gate n) && Session.has_duration n.

(** What a render may do to the session: register states under offsets
    that had none and list offsets after the first; nothing is removed
    and the objects of the session stay. *)
Record extends (self self' : Session.t) : Prop := {
  extends_states :
    ∀ o state, Session.states self !! o = Some state →
               Session.states self' !! o = Some state;
  extends_offsets :
    ∀ o, o ∈ drop 1 (Session.offsets self) → o ∈ drop 1 (Session.offsets self');
  extends_registered :
    (∀ o, o ∈ drop 1 (Session.offsets self) → is_Some (Session.states self !! o)) →
    ∀ o, o ∈ drop 1 (Session.offsets self') → is_Some (Session.states self' !! o);
  extends_objects :
    self' = Session.with_timeline self (Session.offsets self') (Session.states self');
}.

Definition monotone {A} (m : Session.M A) : Prop :=
  ∀ self r self', m self = (r, self') → extends self self'.

(** The nodes in the start sets of the states listed under [offs]. *)
Definition started (self : Session.t) (offs : list Offset) : list Node :=
  offs ≫= fun o =>
    match Session.states self !! o with
    | Some state => State.start_nodes state
    | None => []
    end.

(** Every buffer in a mapping is mapped to its logical id. *)
Definition buffer_ids_ok (mapping : IdMapping) : Prop :=
  ∀ b i, dict_get (OBuffer b) mapping = Some i → i = Session.buffer_key b.

(** The classes of requests by which the categories are told apart. *)
Definition is_synthdef_receive (r : Request) : bool :=
  match r with SynthDefReceiveRequest _ => true | _ => false end.
Definition is_allocation (r : Request) : bool :=
  match r with BufferAllocation _ _ => true | _ => false end.
Definition is_node_tree (r : Request) : bool :=
  match r with NodeTree _ => true | _ => false end.
Definition is_control_bus_set (r : Request) : bool :=
  match r with ControlBusSetRequest _ => true | _ => false end.
Definition is_node_setting (r : Request) : bool :=
  match r with
  | NodeSetRequest _ _ | NodeMapToAudioBusRequest _ _ | NodeMapToControlBusRequest _ _ =>
    true
  | _ => false
  end.
Definition is_close_or_free (r : Request) : bool :=
  match r with BufferCloseRequest _ | BufferFreeRequest _ => true | _ => false end.

(** The requests filed under a type at an offset. *)
Definition filed (buffer_settings : BufferSettings) (offset : Offset)
    (request_type : BufferRequestType) : list Request :=
  default [] (buffer_settings !! offset ≫= dict_get request_type).

(** [emitted_for opened filed segment opened']: the segment is the filed
    requests in their order, each preceded by a close of its buffer
    exactly when that buffer is open at its turn; a request leaves its
    buffer open or closed as its [leave_open] says, and [opened'] are
    the open states after the last one. *)
Inductive emitted_for
  : gmap Z bool → list Request → list Request → gmap Z bool → Prop :=
| emitted_nil opened : emitted_for opened [] [] opened
| emitted_plain opened buffer_id r filed segment opened' :
    Session.request_buffer_id r = Ok buffer_id →
    opened !! buffer_id = Some false →
    emitted_for (<[buffer_id := Session.request_leave_open r]> opened)
      filed segment opened' →
    emitted_for opened (r :: filed) (r :: segment) opened'
| emitted_closed opened buffer_id r filed segment opened' :
    Session.request_buffer_id r = Ok buffer_id →
    opened !! buffer_id = Some true →
    emitted_for (<[buffer_id := Session.request_leave_open r]> opened)
      filed segment opened' →
    emitted_for opened (r :: filed) (BufferCloseRequest buffer_id :: r :: segment)
      opened'.

(** What one request type contributes to a buffer category, from the
    open states [opened] on. *)
Definition segment_of (buffer_settings : BufferSettings) (offset : Offset)
    (opened : gmap Z bool) (request_type : BufferRequestType)
    (segment : list Request) (opened' : gmap Z bool) : Prop :=
  if Session.opens_or_closes request_type
  then emitted_for opened (filed buffer_settings offset request_type) segment opened'
  else segment = filed buffer_settings offset request_type ∧ opened' = opened.

(** A buffer category: the segments of its types, in the order given,
    the open states being handed from each type to the next. *)
Inductive in_type_order (buffer_settings : BufferSettings) (offset : Offset)
  : gmap Z bool → list BufferRequestType → list Request → gmap Z bool → Prop :=
| no_type_left opened : in_type_order buffer_settings offset opened [] [] opened
| next_type opened request_type request_types segment rest opened1 opened' :
    segment_of buffer_settings offset opened request_type segment opened1 →
    in_type_order buffer_settings offset opened1 request_types rest opened' →
    in_type_order buffer_settings offset opened (request_type :: request_types)
      (segment ++ rest) opened'.

(** The ids of the buffers allocated by the requests. *)
Definition allocated_ids (requests : list Request) : list Z :=
  omap (fun r => match r with
                 | BufferAllocation _ arguments => Some (arg_buffer_id arguments)
                 | _ => None
                 end) requests.

(** The buffers of the session with their events, each under its id,
    in the order of the ids: the sequence the outer loop of
    [_collect_buffer_settings] runs over. *)
Definition buffers_by_id (self : Session.t) (id_mapping : IdMapping)
  : result (list (Z * (Buffer * BufferEvents))) :=
  keyed ← mapM (fun entry : Buffer * BufferEvents =>
                  (fun i => (i, entry)) <$> dict_item (OBuffer entry.1) id_mapping)
               (Session._buffers self);
  Ok (sorted_by fst keyed).

(** The requests built for the events that the buffers hold under
    [request_type] at [offset], buffer by buffer and event by event. *)
Definition recorded_under (id_mapping : IdMapping) (offset : Offset)
    (request_type : BufferRequestType) (buffers : list (Z * (Buffer * BufferEvents)))
  : list Request :=
  entry ← buffers;
  typed ← entry.2.2;
  ev ← typed.2;
  if decide (ev.1 = offset ∧ typed.1 = request_type)
  then [Session.to_buffer_event typed.1 (Session.resolve_payload id_mapping ev.2)]
  else [].

(** The class of a request filed under [request_type]: that type, but
    for a read the read-channels class when the event carries a channel
    subset; a request of the read class carries none. *)
Definition filed_as (request_type : BufferRequestType) (r : Request) : Prop :=
  ∃ payload,
    (r = BufferOperation request_type payload
     ∧ (request_type = BufferReadRequest →
        dict_get "channel_indices"%string payload = None))
    ∨ (request_type = BufferReadRequest
       ∧ r = BufferOperation BufferReadChannelRequest payload
       ∧ ∃ indices, dict_get "channel_indices"%string payload = Some indices
                    ∧ indices ≠ VNone).

(** The node-free category: one batched free, then the gate-offs. *)
Definition free_then_gate_off (requests : list Request) : Prop :=
  ∃ free_ids gate_ids,
    requests = match free_ids with
               | [] => []
               | _ => [NodeFreeRequest free_ids]
               end ++ (Session.gate_off <$> gate_ids)
    ∧ Sorted Z.le free_ids ∧ Sorted Z.le gate_ids.

(** The place of a buffer operation in the order read, read-channels,
    zero, fill, generate, set, set-contiguous, normalize, copy, and
    then write. *)
Definition operation_rank (cls : BufferRequestType) : nat :=
  match cls with
  | BufferReadRequest => 0
  | BufferReadChannelRequest => 1
  | BufferZeroRequest => 2
  | BufferFillRequest => 3
  | BufferGenerateRequest => 4
  | BufferSetRequest => 5
  | BufferSetContiguousRequest => 6
  | BufferNormalizeRequest => 7
  | BufferCopyRequest => 8
  | BufferWriteRequest => 9
  end.

(** The buffer operations among [requests] come in the order of their
    own classes. *)
Definition operations_in_class_order (requests : list Request) : Prop :=
  ∀ i j ci cj pi pj,
    (i < j)%nat →
    requests !! i = Some (BufferOperation ci pi) →
    requests !! j = Some (BufferOperation cj pj) →
    (operation_rank ci ≤ operation_rank cj)%nat.

(** A list in which no element is below an earlier one. *)
Definition ascending {A} (ltb : A → A → bool) (a : list A) : Prop :=
  ∀ i j u v, (i ≤ j)%nat → a !! i = Some u → a !! j = Some v → ltb v u = false.

(** Breakpoints in strictly increasing time order. *)
Definition by_time (p q : Z * Z) : Prop := p.1 < q.1.
Definition time_sorted (events : list (Z * Z)) : Prop := StronglySorted by_time events.

(** Python's order on pairs as a relation, and the tracks that are
    strictly ascending in it. *)
Definition tuple_lt (p q : Z * Z) : Prop := tuple_ltb p q = true.
Definition tuple_sorted (events : list (Z * Z)) : Prop := StronglySorted tuple_lt events.

(** A synth over [0, 10] whose parameter has two breakpoints. *)
Definition sine_with_track : Synth.t :=
  Synth.with_events Samples.sine {[ "frequency"%string := [(2, 3); (5, 1)] ]}.

(** The states registered under the offsets of [l] that carry a node
    tree, in the order of [l]. *)
Definition states_with_tree (self : Session.t) (l : list Offset) : list State.t :=
  filter (fun state => is_Some (State.nodes_to_children state))
    (omap (fun o => Session.states self !! o) l).

(** [State._clone] hands back a state at the offset it was given. *)
Definition clone_takes_offset `{Collaborators} : Prop :=
  ∀ state offset, State.offset (State_clone state offset) = offset.

(** A session object before [_setup_initial_states]: no offsets, no
    states. *)
Definition blank (root : Node) : Session.t :=
  {| Session.offsets := [];
     Session.states := ∅;
     Session._buffers := [];
     Session._buses := [];
     Session.root_node := root;
     Session._input_bus_channel_count := 0;
     Session._output_bus_channel_count := 0;
     Session.audio_input_bus_group := None;
     Session.audio_output_bus_group := None;
     Session.padding := None |}.

(** The sessions left by a series of [at] calls, whatever each call
    returns. *)
Definition at_each `{Collaborators} (offsets : list Offset) (self : Session.t)
  : Session.t :=
  foldl (fun self offset => (Session.at_ offset true self).2) self offsets.

(** The dictionary [_session_ids] after a series of calls of
    [_get_next_session_id], one per kind listed. *)
Definition issue_ids (kinds : list string) (_session_ids : gmap string Z)
  : gmap string Z :=
  foldl (fun ids kind => (Session._get_next_session_id kind ids).2) _session_ids kinds.

(** The first id of a kind: 1000 for nodes, 0 for everything else. *)
Definition first_id (kind : string) : Z :=
  if decide (kind = "node"%string) then 1000 else 0.

(** How many of the calls were for [kind]. *)
Definition calls_for (kind : string) (kinds : list string) : nat :=
  length (filter (fun k => k = kind) kinds).

(** A buffer of a group is one of the buffers the group iterates. *)
Definition grouped_ok (b : Buffer) : Prop :=
  ∀ g, buffer_group b = Some g → b ∈ buffer_group_buffers g.

(** What the private loop keeps true of the buses outside groups: their
    ids lie in the range handed out so far, and no two of one rate
    share an id. *)
Record lone_ids_ok (first_private : Z) (acc : IdMapping * (Session.BlockAllocator * Session.BlockAllocator))
  : Prop := {
  lone_audio_range : ∀ sid id,
    dict_get (OBus (LoneBus sid AUDIO)) acc.1 = Some id →
    first_private ≤ id < Session.next_free acc.2.1;
  lone_control_range : ∀ sid id,
    dict_get (OBus (LoneBus sid CONTROL)) acc.1 = Some id →
    0 ≤ id < Session.next_free acc.2.2;
  lone_distinct : ∀ sid sid' rate id,
    dict_get (OBus (LoneBus sid rate)) acc.1 = Some id →
    dict_get (OBus (LoneBus sid' rate)) acc.1 = Some id → sid = sid';
  lone_audio_floor : first_private ≤ Session.next_free acc.2.1;
  lone_control_floor : 0 ≤ Session.next_free acc.2.2;
}.

(** Two output channels, one input channel and three buses outside
    groups: control, audio, control. *)
Definition with_lone_buses : Session.t :=
  {| Session.offsets := [NegInf; Finite 0];
     Session.states :=
       {[ NegInf := Samples.empty_state NegInf;
          Finite 0 := Samples.empty_state (Finite 0) ]};
     Session._buffers := [];
     Session._buses :=
       [(LoneBus 0 CONTROL, []); (LoneBus 1 AUDIO, []); (LoneBus 2 CONTROL, [])];
     Session.root_node := Samples.root;
     Session._input_bus_channel_count := 1;
     Session._output_bus_channel_count := 2;
     Session.audio_input_bus_group := Some Samples.inputs;
     Session.audio_output_bus_group := Some Samples.outputs;
     Session.padding := None |}.

(** A member of a mapped group points at the group's entry: the group
    is mapped to the id of its first buffer. *)
Definition groups_mapped (mapping : IdMapping) : Prop :=
  ∀ b g i,
    buffer_group b = Some g →
    dict_get (OBuffer b) mapping = Some i →
    ∃ first, buffer_group_buffers g !! 0%nat = Some first
             ∧ dict_get (OBufferGroup g) mapping = Some (Session.buffer_key first).

(** A dictionary built by assignments: no key twice, and every key of
    the kind [P]. *)
Definition dict_wf {V} (P : SessionObject → Prop) (d : list (SessionObject * V)) : Prop :=
  NoDup d.*1 ∧ ∀ k, is_Some (dict_get k d) → P k.

Definition is_buffer_key (k : SessionObject) : Prop :=
  match k with OBuffer _ | OBufferGroup _ => True | _ => False end.
Definition is_bus_key (k : SessionObject) : Prop :=
  match k with OBus _ | OBusGroup _ => True | _ => False end.
Definition is_node_key (k : SessionObject) : Prop :=
  match k with ONode _ => True | _ => False end.

(** A group of two buffers with the logical ids 3 and 4, and a session
    that holds the second member, a buffer on its own and the first
    member, in this order. *)
Definition buffer_data_of (session_id : Z) : BufferData :=
  {| buffer_session_id := session_id; frame_count := Some 1024;
     channel_count := IntChannelCount 1; file_path := None;
     starting_frame := None |}.

Definition pair_of_buffers : BufferGroup :=
  {| buffer_group_members := [buffer_data_of 3; buffer_data_of 4] |}.

Definition grouped_buffer (session_id : Z) : Buffer :=
  {| buffer_data := buffer_data_of session_id; buffer_group := Some pair_of_buffers |}.

Definition with_buffer_group : Session.t :=
  Samples.session [NegInf; Finite 0]
    {[ NegInf := Samples.empty_state NegInf;
       Finite 0 := Samples.empty_state (Finite 0) ]}
    [(grouped_buffer 4, []); (Samples.buffer0, []); (grouped_buffer 3, [])] [].

(** The synthdefs of the synths among [nodes]. *)
Definition synthdefs_of (nodes : list Node) : list SynthDef :=
  omap (fun n => match node_kind n with
                 | SynthKind synthdef _ => Some synthdef
                 | _ => None
                 end) nodes.

(** What freeing the buffer with the id [i] contributes: a close when
    the buffer is open, then the free. *)
Definition close_and_free (buffer_open_states : gmap Z bool) (i : Z) : list Request :=
  match buffer_open_states !! i with
  | Some true => [BufferCloseRequest i; BufferFreeRequest i]
  | _ => [BufferFreeRequest i]
  end.

(** The ids of the two file buffers of the samples. *)
Definition file_buffer_ids : IdMapping :=
  [(OBuffer (Samples.file_buffer 0), 0); (OBuffer (Samples.file_buffer 1), 1)].

(** A key is set in one of the three dictionaries of a split. *)
Definition in_split (key : string)
    (split : list (string * Value) * list (string * Z) * list (string * Z)) : Prop :=
  is_Some (dict_get key split.1.1)
  ∨ is_Some (dict_get key split.1.2)
  ∨ is_Some (dict_get key split.2).

(** A value that is no session object and not [None]. *)
Definition plain_value (v : Value) : Prop :=
  match v with
  | VNum _ | VStr _ | VTuple _ => True
  | _ => False
  end.


(** Settings of a synth of the default synthdef: a scalar-rate
    parameter, a number, a control bus and an unmapping. *)
Definition mixed_settings : list (string * Value) :=
  [("out", VNum (Finite 0)); ("frequency", VNum (Finite 443));
   ("amplitude", VBus (LoneBus 0 CONTROL)); ("pan", VNone)]%string.

(** Scenario A with a padding of plus infinity. *)
Definition padded_forever : Session.t :=
  {| Session.offsets := Session.offsets Samples.scenario_a;
     Session.states := Session.states Samples.scenario_a;
     Session._buffers := [];
     Session._buses := [];
     Session.root_node := Samples.root;
     Session._input_bus_channel_count := 0;
     Session._output_bus_channel_count := 0;
     Session.audio_input_bus_group := None;
     Session.audio_output_bus_group := None;
     Session.padding := Some PosInf |}.

(** Scenario A in a session that also holds the buffers of the sample
    group and a buffer on its own. *)
Definition scenario_a_with_buffers : Session.t :=
  Samples.session (Session.offsets Samples.scenario_a)
    (Session.states Samples.scenario_a)
    [(grouped_buffer 4, []); (Samples.buffer0, []); (grouped_buffer 3, [])] [].



(** One buffer over [0, 10], read twice at offset 0: first with a
    channel subset and left open, then whole. *)
Definition read_twice : Session.t :=
  Samples.session [NegInf; Finite 0; Finite 10]
    {[ NegInf := Samples.empty_state NegInf;
       Finite 0 :=
         {| State.offset := Finite 0;
            State.nodes_to_children := Some Samples.root_shape;
            State.nodes_to_parents := Some [(Samples.root, None)];
            State.start_nodes := [];
            State.stop_nodes := [];
            State.overlap_nodes := [];
            State.start_buffers := [Samples.file_buffer 0];
            State.stop_buffers := [];
            State.overlap_buffers := [];
            State.transitions := [] |};
       Finite 10 :=
         {| State.offset := Finite 10;
            State.nodes_to_children := Some Samples.root_shape;
            State.nodes_to_parents := Some [(Samples.root, None)];
            State.start_nodes := [];
            State.stop_nodes := [];
            State.overlap_nodes := [];
            State.start_buffers := [];
            State.stop_buffers := [Samples.file_buffer 0];
            State.overlap_buffers := [];
            State.transitions := [] |} ]}
    [ (Samples.file_buffer 0,
       [(BufferReadRequest,
         [ (Finite 0,
            [("buffer_id", VBuffer (Samples.file_buffer 0));
             ("channel_indices", VTuple [0]); ("file_path", VStr "a.aiff");
             ("leave_open", VNum (Finite 1))]%string);
           Samples.read_event (Samples.file_buffer 0) VNone "b.aiff" ])]) ]
    [].

Definition read_twice_ids : IdMapping :=
  [(OBuffer (Samples.file_buffer 0), 0); (ONode Samples.root, 0)].

Definition read_channels_left_open : Request :=
  BufferOperation BufferReadChannelRequest
    [("buffer_id", VNum (Finite 0)); ("channel_indices", VTuple [0]);
     ("file_path", VStr "a.aiff"); ("leave_open", VNum (Finite 1))]%string.

Definition read_whole : Request :=
  BufferOperation BufferReadRequest
    [("buffer_id", VNum (Finite 0)); ("file_path", VStr "b.aiff");
     ("leave_open", VNone)]%string.

Definition read_twice_settings : BufferSettings :=
  {[ Finite 0 := [(BufferReadRequest, [read_channels_left_open; read_whole])] ]}.

Definition read_twice_first : list Request :=
  [Samples.allocate 0; read_channels_left_open; BufferCloseRequest 0; read_whole].

(** * Properties *)

(** ** Binary search on an ascending list *)

Section BisectSpec.
Context {A : Type} (ltb : A → A → bool).
Hypothesis ltb_neg_trans :
  ∀ a b c, ltb a c = true → ltb a b = true ∨ ltb b c = true.

Lemma midpoint_bounds lo hi :
  (lo < hi)%nat → (lo ≤ (lo + hi) / 2 < hi)%nat.
Proof.
  intros Hlt.
  pose proof (Nat.div_mod_eq (lo + hi) 2) as Hdiv.
  pose proof (Nat.mod_upper_bound (lo + hi) 2 ltac:(lia)) as Hmod.
  lia.
Qed.

Lemma bisect_left_loop_spec fuel a x : ∀ lo hi,
  ascending ltb a →
  (lo ≤ hi ≤ length a)%nat →
  (hi - lo ≤ fuel)%nat →
  (∀ i u, (i < lo)%nat → a !! i = Some u → ltb u x = true) →
  (∀ i u, (hi ≤ i)%nat → a !! i = Some u → ltb u x = false) →
  let r := bisect_left_loop ltb fuel a x lo hi in
  (lo ≤ r ≤ hi)%nat
  ∧ (∀ i u, (i < r)%nat → a !! i = Some u → ltb u x = true)
  ∧ (∀ i u, (r ≤ i)%nat → a !! i = Some u → ltb u x = false).
Proof.
  induction fuel as [|fuel IH]; intros lo hi Hasc Hrange Hfuel Hbelow Habove;
    cbn [bisect_left_loop].
  - assert (hi = lo) as -> by lia. repeat split; auto; lia.
  - destruct (Nat.ltb_spec lo hi) as [Hlt|Hge].
    + pose proof (midpoint_bounds lo hi Hlt) as Hmid.
      set (mid := ((lo + hi) / 2)%nat) in *.
      destruct (lookup_lt_is_Some_2 a mid ltac:(lia)) as [y Hy].
      rewrite Hy. destruct (ltb y x) eqn:Hyx.
      * destruct (IH (mid + 1)%nat hi) as (Hr & Hlo & Hhi); auto; try lia.
        { intros i u Hi Hu.
          assert (ltb y u = false) as Hyu by (apply (Hasc i mid u y); [lia|done..]).
          destruct (ltb_neg_trans y u x Hyx) as [Hc|Hc]; congruence. }
        repeat split; auto; lia.
      * destruct (IH lo mid) as (Hr & Hlo & Hhi); auto; try lia.
        { intros i u Hi Hu.
          assert (ltb u y = false) as Huy by (apply (Hasc mid i y u); [lia|done..]).
          destruct (ltb u x) eqn:Hux; [|done].
          destruct (ltb_neg_trans u y x Hux) as [Hc|Hc]; congruence. }
        repeat split; auto; lia.
    + assert (hi = lo) as -> by lia. repeat split; auto; lia.
Qed.

(** On an ascending list [bisect_left] splits it into the elements
    below [x] and the others. *)
Lemma bisect_left_split a x :
  ascending ltb a →
  let r := bisect_left ltb a x in
  (r ≤ length a)%nat
  ∧ Forall (fun u => ltb u x = true) (take r a)
  ∧ Forall (fun u => ltb u x = false) (drop r a).
Proof.
  intros Hasc r.
  destruct (bisect_left_loop_spec (length a) a x 0%nat (length a))
    as (Hr & Hlo & Hhi); auto; try lia.
  { intros i u Hi Hu. apply lookup_lt_Some in Hu. lia. }
  fold (bisect_left ltb a x) in Hr, Hlo, Hhi. fold r in Hr, Hlo, Hhi.
  split; [lia|]. split.
  - apply Forall_lookup_2. intros i u Hu.
    pose proof (lookup_lt_Some _ _ _ Hu) as Hlen. rewrite length_take in Hlen.
    rewrite lookup_take_lt in Hu by lia. apply (Hlo i); [lia|done].
  - apply Forall_lookup_2. intros i u Hu.
    rewrite lookup_drop in Hu. apply (Hhi (r + i)%nat); [lia|done].
Qed.

(** The result never exceeds the length, whatever the list. *)
Lemma bisect_left_loop_bounds fuel a x : ∀ lo hi,
  (lo ≤ hi)%nat → (lo ≤ bisect_left_loop ltb fuel a x lo hi ≤ hi)%nat.
Proof.
  induction fuel as [|fuel IH]; intros lo hi Hle; cbn [bisect_left_loop]; [lia|].
  destruct (Nat.ltb_spec lo hi) as [Hlt|Hge]; [|lia].
  pose proof (midpoint_bounds lo hi Hlt) as Hmid.
  destruct (a !! _) as [y|]; [|lia].
  destruct (ltb y x).
  - specialize (IH ((lo + hi) / 2 + 1)%nat hi). lia.
  - specialize (IH lo ((lo + hi) / 2)%nat). lia.
Qed.

Lemma bisect_left_le_length a x : (bisect_left ltb a x ≤ length a)%nat.
Proof. unfold bisect_left. pose proof (bisect_left_loop_bounds (length a) a x 0%nat (length a)). lia. Qed.
End BisectSpec.

(** ** The order on offsets *)

Lemma Offset_ltb_irrefl a : Offset_ltb a a = false.
Proof. destruct a; simpl; auto. apply Z.ltb_irrefl. Qed.

Lemma Offset_ltb_trans a b c :
  Offset_ltb a b = true → Offset_ltb b c = true → Offset_ltb a c = true.
Proof. destruct a, b, c; simpl; try done. rewrite !Z.ltb_lt. lia. Qed.

Lemma Offset_ltb_neg_trans a b c :
  Offset_ltb a c = true → Offset_ltb a b = true ∨ Offset_ltb b c = true.
Proof.
  destruct a, b, c; simpl; auto. rewrite !Z.ltb_lt. lia.
Qed.

Lemma Offset_trichotomy a b :
  Offset_ltb a b = true ∨ a = b ∨ Offset_ltb b a = true.
Proof.
  destruct a as [|x|], b as [|y|]; simpl; auto.
  rewrite !Z.ltb_lt. destruct (Z.lt_trichotomy x y) as [?|[->|?]]; auto.
Qed.

Lemma Offset_ltb_asym a b : Offset_ltb a b = true → Offset_ltb b a = false.
Proof.
  intros Hab. destruct (Offset_ltb b a) eqn:Hba; [|done].
  pose proof (Offset_ltb_trans _ _ _ Hab Hba) as Haa.
  by rewrite Offset_ltb_irrefl in Haa.
Qed.

Global Instance Offset_lt_trans : Transitive Offset_lt.
Proof. intros a b c. apply Offset_ltb_trans. Qed.

Lemma StronglySorted_lookup_lt {A} (R : relation A) (l : list A) :
  StronglySorted R l →
  ∀ i j u v, (i < j)%nat → l !! i = Some u → l !! j = Some v → R u v.
Proof.
  induction 1 as [|x l Hs IH Hall]; intros i j u v Hij Hu Hv; [done|].
  destruct j as [|j]; [lia|]. simpl in Hv.
  destruct i as [|i]; simpl in Hu.
  - injection Hu as ->. rewrite Forall_forall in Hall.
    apply Hall. by eapply list_elem_of_lookup_2.
  - apply (IH i j); auto. lia.
Qed.

Lemma StronglySorted_lt_ascending (l : list Offset) :
  StronglySorted Offset_lt l → ascending Offset_ltb l.
Proof.
  intros Hs i j u v Hij Hu Hv.
  destruct (decide (i = j)) as [->|Hne].
  - rewrite Hu in Hv. injection Hv as ->. apply Offset_ltb_irrefl.
  - apply Offset_ltb_asym.
    apply (StronglySorted_lookup_lt Offset_lt l Hs i j); auto. lia.
Qed.

Lemma StronglySorted_lt_NoDup (l : list Offset) :
  StronglySorted Offset_lt l → NoDup l.
Proof.
  induction 1 as [|x l Hs IH Hall]; constructor; auto.
  intros Hin. rewrite Forall_forall in Hall. specialize (Hall x Hin).
  unfold Offset_lt in Hall. by rewrite Offset_ltb_irrefl in Hall.
Qed.

(** ** The automation track *)

Section Breakpoints.
Import Synth.

Lemma tuple_ltb_spec p q :
  tuple_ltb p q = true ↔ p.1 < q.1 ∨ (p.1 = q.1 ∧ p.2 < q.2).
Proof.
  unfold tuple_ltb. rewrite orb_true_iff, andb_true_iff, !Z.ltb_lt, Z.eqb_eq. tauto.
Qed.

Lemma tuple_ltb_false p q :
  tuple_ltb p q = false ↔ q.1 < p.1 ∨ (p.1 = q.1 ∧ q.2 ≤ p.2).
Proof.
  rewrite <- not_true_iff_false, tuple_ltb_spec. lia.
Qed.

Lemma tuple_ltb_neg_trans a b c :
  tuple_ltb a c = true → tuple_ltb a b = true ∨ tuple_ltb b c = true.
Proof. rewrite !tuple_ltb_spec. lia. Qed.

Lemma time_sorted_ascending events :
  time_sorted events → ascending tuple_ltb events.
Proof.
  intros Hs i j u v Hij Hu Hv. apply tuple_ltb_false.
  destruct (decide (i = j)) as [->|Hne].
  - rewrite Hu in Hv. injection Hv as ->. lia.
  - left. apply (StronglySorted_lookup_lt by_time events Hs i j); auto. lia.
Qed.

(** Reading a list in which the breakpoint [(T, v)] stands between the
    earlier ones and those after [T']. *)
Lemma lookup_events_held before after T v T' dflt :
  time_sorted (before ++ (T, v) :: after) →
  Forall (fun p => T' < p.1) after →
  T ≤ T' →
  lookup_events (before ++ (T, v) :: after) T' dflt = Ok v.
Proof.
  intros Hsorted Hafter HT.
  set (L := before ++ (T, v) :: after) in *.
  pose proof (bisect_left_split tuple_ltb tuple_ltb_neg_trans L (T', 0)
                (time_sorted_ascending _ Hsorted)) as (Hlen & Hbelow & Habove).
  unfold lookup_events. set (r := bisect_left tuple_ltb L (T', 0)) in *.
  assert (Forall (fun p => p.1 < T) before) as Hbefore.
  { apply StronglySorted_app in Hsorted as (Hcross & _ & _).
    apply Forall_forall. intros p Hp. apply (Hcross p (T, v)); [done|by left]. }
  assert (length L = S (length before + length after)) as HlenL.
  { unfold L. rewrite length_app. simpl. lia. }
  assert (L !! length before = Some (T, v)) as Hmid.
  { unfold L. by rewrite list_lookup_middle. }
  assert (length before ≤ r)%nat as Hr1.
  { destruct (decide (length before ≤ r)%nat) as [|Hlt]; [done|]. exfalso.
    rewrite Forall_forall in Habove, Hbefore.
    destruct (lookup_lt_is_Some_2 before r ltac:(lia)) as [p Hp].
    assert (p ∈ drop r L) as Hin.
    { apply list_elem_of_lookup. exists 0%nat. rewrite lookup_drop, Nat.add_0_r.
      unfold L. by rewrite lookup_app_l by lia. }
    apply Habove in Hin. apply tuple_ltb_false in Hin. simpl in Hin.
    pose proof (Hbefore p ltac:(by eapply list_elem_of_lookup_2)). lia. }
  assert (r ≤ S (length before))%nat as Hr2.
  { destruct (decide (r ≤ S (length before))%nat) as [|Hgt]; [done|]. exfalso.
    rewrite Forall_forall in Hbelow, Hafter.
    destruct (lookup_lt_is_Some_2 L (S (length before)) ltac:(lia)) as [p Hp].
    assert (p ∈ take r L) as Hin.
    { apply elem_of_take. exists (S (length before)). split; [done|lia]. }
    apply Hbelow in Hin. apply tuple_ltb_spec in Hin. simpl in Hin.
    assert (p ∈ after) as Hp'.
    { unfold L in Hp. rewrite lookup_app_r in Hp by lia.
      replace (S (length before) - length before)%nat with 1%nat in Hp by lia.
      simpl in Hp. by eapply list_elem_of_lookup_2. }
    pose proof (Hafter p Hp'). lia. }
  assert (last L = Some (T, v) ∨ after ≠ []) as Hlast.
  { destruct after as [|a after']; [left|by right].
    unfold L. by rewrite last_snoc. }
  destruct (decide (r = length before)) as [Hr|Hr].
  - (* the search stops on the breakpoint itself *)
    rewrite Hr. destruct (Nat.leb_spec (length L) (length before)) as [|_]; [lia|].
    rewrite Hmid. cbn [of_option mbind result_bind].
    assert (T = T') as <-.
    { rewrite Forall_forall in Habove.
      assert ((T, v) ∈ drop r L) as Hin.
      { apply list_elem_of_lookup. exists 0%nat. by rewrite lookup_drop, Nat.add_0_r, Hr. }
      apply Habove in Hin. apply tuple_ltb_false in Hin. simpl in Hin. lia. }
    by rewrite Z.eqb_refl.
  - (* the search stops right after it *)
    assert (r = S (length before)) as -> by lia.
    destruct (Nat.leb_spec (length L) (S (length before))) as [Hend|Hmore].
    + destruct Hlast as [Hlast|Hne].
      2:{ destruct after; [done|]. simpl in HlenL. lia. }
      unfold list_last. rewrite Hlast. cbn [of_option mbind result_bind].
      destruct (T =? T'); [done|]. rewrite Hmid. done.
    + destruct (lookup_lt_is_Some_2 L (S (length before)) ltac:(lia)) as [[t1 x1] Hp].
      rewrite Hp. cbn [of_option mbind result_bind].
      assert ((t1, x1) ∈ after) as Hp'.
      { unfold L in Hp. rewrite lookup_app_r in Hp by lia.
        replace (S (length before) - length before)%nat with 1%nat in Hp by lia.
        simpl in Hp. by eapply list_elem_of_lookup_2. }
      rewrite Forall_forall in Hafter. pose proof (Hafter _ Hp') as Ht1. simpl in Ht1.
      destruct (Z.eqb_spec t1 T'); [lia|]. rewrite Hmid. done.
Qed.

Lemma by_time_retime (T v x : Z) (l : list (Z * Z)) :
  Forall (by_time (T, x)) l → Forall (by_time (T, v)) l.
Proof. intros Hall. eapply Forall_impl; [exact Hall|]. intros p. unfold by_time. done. Qed.

(** A write into a time-sorted list that holds no smaller value at the
    same time puts the new breakpoint between the earlier and the later
    ones. *)
Lemma write_events_spec events T v :
  time_sorted events →
  (∀ x, (T, x) ∈ events → v ≤ x) →
  ∃ before after,
    write_events events T v = Ok (before ++ (T, v) :: after)
    ∧ time_sorted (before ++ (T, v) :: after)
    ∧ (∀ p, p ∈ after → p ∈ events).
Proof.
  intros Hsorted Hsame.
  destruct events as [|e es] eqn:Hevents.
  { exists [], []. repeat split; [repeat constructor|done]. }
  assert (write_events events T v = insert_or_overwrite events T v) as Hwrite
    by (by rewrite Hevents).
  rewrite <- Hevents in *. rewrite Hwrite. unfold insert_or_overwrite.
  clear e es Hevents Hwrite.
  pose proof (bisect_left_split tuple_ltb tuple_ltb_neg_trans events (T, v)
                (time_sorted_ascending _ Hsorted)) as (Hlen & Hbelow & Habove).
  set (r := bisect_left tuple_ltb events (T, v)) in *.
  assert (Forall (fun p => p.1 < T) (take r events)) as Hbefore.
  { rewrite Forall_forall in Hbelow |- *. intros [t x] Hp.
    pose proof (Hbelow _ Hp) as Hlt. apply tuple_ltb_spec in Hlt. simpl in *.
    destruct Hlt as [?|[-> Hx]]; [done|].
    pose proof (Hsame x ltac:(by eapply subseteq_take)). lia. }
  destruct (Nat.leb_spec (length events) r) as [Hend|Hin].
  - assert (r = length events) as Hr by lia.
    rewrite Hr, list_lookup_middle by done. cbn [of_option mbind result_bind].
    rewrite Z.eqb_refl. exists events, [].
    rewrite Hr, firstn_all in Hbefore.
    repeat split.
    + f_equal. apply list_insert_id. by rewrite list_lookup_middle.
    + apply StronglySorted_app. split; [|split; [done|repeat constructor]].
      intros p q Hp [->|[]%elem_of_nil]%elem_of_cons.
      rewrite Forall_forall in Hbefore. by apply Hbefore.
    + intros p []%elem_of_nil.
  - destruct (lookup_lt_is_Some_2 events r Hin) as [[t0 x0] Hr].
    rewrite Hr. cbn [of_option mbind result_bind].
    pose proof Hsorted as Hsplit. rewrite <- (take_drop_middle _ _ _ Hr) in Hsplit.
    apply StronglySorted_app in Hsplit as (Hcross & Hs1 & Hs2).
    apply StronglySorted_cons in Hs2 as [Hlater Hs2].
    destruct (Z.eqb_spec t0 T) as [->|Hne].
    + exists (take r events), (drop (S r) events). repeat split.
      * f_equal. by apply insert_take_drop.
      * apply StronglySorted_app. split; [|split; [done|]].
        -- intros p q Hp [->|Hq]%elem_of_cons.
           ++ rewrite Forall_forall in Hbefore. by apply Hbefore.
           ++ apply Hcross; [done|by right].
        -- apply StronglySorted_cons. split; [|done]. by eapply by_time_retime.
      * intros p Hp. by eapply subseteq_drop.
    + assert (T < t0) as Ht0.
      { rewrite Forall_forall in Habove.
        assert ((t0, x0) ∈ drop r events) as Hmem.
        { apply list_elem_of_lookup. exists 0%nat. by rewrite lookup_drop, Nat.add_0_r. }
        apply Habove in Hmem. apply tuple_ltb_false in Hmem. simpl in Hmem. lia. }
      exists (take r events), (drop r events). unfold list_insert_at. repeat split.
      * rewrite <- (take_drop_middle _ _ _ Hr) at 2.
        rewrite drop_app_length'; [|by rewrite length_take; lia].
        apply StronglySorted_app. split; [|split; [done|]].
        -- intros p q Hp [->|Hq]%elem_of_cons.
           ++ rewrite Forall_forall in Hbefore. by apply Hbefore.
           ++ by apply Hcross.
        -- apply StronglySorted_cons. split; [|by apply StronglySorted_cons].
           constructor; [done|].
           eapply Forall_impl; [exact Hlater|]. intros p. unfold by_time. simpl. lia.
      * intros p Hp. by eapply subseteq_drop.
Qed.

(** X1.  Where the round trip holds: on a time-sorted track that has, at
    the time of the write, no breakpoint with a smaller value, the value
    written at [T] is read back at [T] and at every later [T'] before
    the next breakpoint. *)
Theorem written_value_is_held (self : Synth.t) (T T' : Z) (item : string) (v : Z) :
  let events := default [] (_events self !! item) in
  let time := T - start_offset self in
  is_Some (synthdef_parameters self !! item) →
  time_sorted events →
  (∀ x, (time, x) ∈ events → v ≤ x) →
  0 ≤ time →
  Offset_ltb (duration self) (Finite time) = false →
  T ≤ T' →
  (∀ p, p ∈ events → time < p.1 → T' - start_offset self < p.1) →
  ∃ self',
    _set_at_timestep self T item v = Ok self'
    ∧ _get_at_timestep self' T' item = Ok v.
Proof.
  intros events time [declared Hdeclared] Hsorted Hsame Hpos Hinside HT Hnext.
  destruct (write_events_spec events time v Hsorted Hsame)
    as (before & after & Hwrite & Hsorted' & Hafter).
  unfold _set_at_timestep. fold time. fold events.
  destruct (Z.ltb_spec time 0) as [|_]; [lia|]. rewrite Hinside. cbn [orb].
  rewrite Hwrite. cbn [mbind result_bind].
  eexists. split; [reflexivity|].
  unfold _get_at_timestep, default_of. cbn [with_events synthdef_parameters
    _synth_kwargs _events start_offset].
  rewrite Hdeclared. cbn [of_option mbind result_bind].
  rewrite lookup_insert_eq.
  assert (Forall (fun p => T' - start_offset self < p.1) after) as Hlater'; [|
    destruct before as [|b bs]; cbn [app];
      [apply (lookup_events_held [] after)|apply (lookup_events_held (b :: bs) after)];
      (done || lia)].
  apply Forall_forall. intros p Hp. apply Hnext; [by apply Hafter|].
  apply StronglySorted_app in Hsorted' as (_ & _ & Hs).
  apply StronglySorted_cons in Hs as [Hlater _].
  rewrite Forall_forall in Hlater. by apply (Hlater p Hp).
Qed.

(** Before every breakpoint the read returns the creation-time default. *)
Theorem read_before_every_breakpoint (self : Synth.t) (T' : Z) (item : string) (dflt : Z) :
  default_of self item = Ok dflt →
  time_sorted (default [] (_events self !! item)) →
  Forall (fun p => T' - start_offset self < p.1) (default [] (_events self !! item)) →
  _get_at_timestep self T' item = Ok dflt.
Proof.
  intros Hdefault Hsorted Hlater. unfold _get_at_timestep. rewrite Hdefault.
  cbn [mbind result_bind].
  destruct (_events self !! item) as [[|[t0 x0] events]|]; [done| |done].
  cbn [default] in *. set (L := (t0, x0) :: events) in *.
  pose proof (bisect_left_split tuple_ltb tuple_ltb_neg_trans L
                (T' - start_offset self, 0)
                (time_sorted_ascending _ Hsorted)) as (_ & Hbelow & _).
  unfold lookup_events. destruct (bisect_left tuple_ltb L _) as [|r].
  - cbn. apply Forall_cons in Hlater as [Ht0 _]. simpl in Ht0.
    destruct (Z.eqb_spec t0 (T' - start_offset self)); [lia|done].
  - exfalso. apply Forall_cons in Hbelow as [Hlt _].
    apply tuple_ltb_spec in Hlt. simpl in Hlt.
    apply Forall_cons in Hlater as [Ht0 _]. simpl in Ht0. lia.
Qed.
End Breakpoints.

(** A write at 2 on the empty track of the sample synth, read at 5. *)
Example write_at_two_read_at_five :
  (Synth._set_at_timestep Samples.sine 2 "frequency" 3
     ≫= fun self => Synth._get_at_timestep self 5 "frequency") = Ok 3
  ∧ Synth._get_at_timestep Samples.sine 5 "frequency" = Ok 440.
Proof. split; vm_compute; reflexivity. Qed.

Section SynthProperties.
Import Synth.

(** C9.  A write at a time outside the interval of the synth (relative
    time below zero or above the duration) returns normally and leaves
    the synth as it was: the breakpoint list of the parameter and all
    the other breakpoint lists are untouched. *)
Theorem set_outside_interval_is_ignored
    (self : Synth.t) (timestep : Z) (item : string) (value : Z) :
  timestep - start_offset self < 0
  ∨ Offset_lt (duration self) (Finite (timestep - start_offset self)) →
  _set_at_timestep self timestep item value = Ok self.
Proof.
  intros Hout. unfold _set_at_timestep.
  destruct Hout as [Hneg|Hbeyond].
  - apply Z.ltb_lt in Hneg. by rewrite Hneg.
  - unfold Offset_lt in Hbeyond. rewrite Hbeyond. by rewrite orb_true_r.
Qed.

Lemma set_outside_interval_is_ignored_witness :
  _set_at_timestep Samples.sine 11 "frequency" 3 = Ok Samples.sine
  ∧ _set_at_timestep Samples.sine (-1) "frequency" 3 = Ok Samples.sine.
Proof.
  split; apply set_outside_interval_is_ignored.
  - right. reflexivity.
  - left. reflexivity.
Defined.

(** C4.  Two writes at the same time with increasing values leave both
    breakpoints in the list, and the read at that time returns the
    first value, not the one written last. *)
Theorem second_write_at_same_time_is_not_read_back :
  ∃ s1 s2,
    _set_at_timestep Samples.sine 0 "frequency" 1 = Ok s1
    ∧ _set_at_timestep s1 0 "frequency" 2 = Ok s2
    ∧ _events s2 !! "frequency"%string = Some [(0, 1); (0, 2)]
    ∧ _get_at_timestep s2 0 "frequency" = Ok 1.
Proof.
  eexists _, _. split; [reflexivity|]. split; [reflexivity|].
  split; vm_compute; reflexivity.
Qed.
End SynthProperties.

(** ** Moments and the offset index *)

Section OffsetIndex.
Context `{Collaborators}.
Import Session.

(** C8.  Asking for a moment at a negative offset fails (the source
    signals an invalid offset through its assertion [0 <= offset]) and
    the session is left exactly as it was: same offset list, same
    states. *)
Theorem at_negative_offset_fails_without_mutation
    (self : Session.t) (x : Offset) (propagate : bool) :
  Offset_lt x (Finite 0) →
  at_ x propagate self = (Raise AssertionError, self).
Proof.
  intros Hneg. unfold at_, Offset_leb. unfold Offset_lt in Hneg.
  by rewrite Hneg.
Qed.

End OffsetIndex.

Lemma at_negative_offset_fails_without_mutation_witness :
  Offset_lt (Finite (-1)) (Finite 0)
  ∧ Session.at_ (H := plain_collaborators) (Finite (-1)) true Samples.fresh
    = (Raise AssertionError, Samples.fresh).
Proof.
  split; [reflexivity|].
  apply at_negative_offset_fails_without_mutation. reflexivity.
Defined.

Section FreshOffsets.
Context `{Collaborators}.
Import Session.

Lemma list_index_lookup {A} `{EqDecision A} (l : list A) (i : nat) (x : A) :
  NoDup l → l !! i = Some x → list_index x l = Some i.
Proof.
  intros Hnd. revert i. induction Hnd as [|y l Hnotin Hnd IH]; intros i Hi; [done|].
  destruct i as [|i]; simpl in *.
  - injection Hi as ->. by rewrite decide_True.
  - rewrite decide_False.
    + by rewrite (IH i Hi).
    + intros ->. apply Hnotin. by eapply list_elem_of_lookup_2.
Qed.

(** Where a fresh non-negative offset falls in a well-formed index. *)
Lemma fresh_offset_position (self : Session.t) (offset : Offset) :
  timeline_ok self →
  Offset_leb (Finite 0) offset = true →
  offset ∉ offsets self →
  ∃ k p state,
    bisect_left Offset_ltb (offsets self) offset = S k
    ∧ offsets self !! k = Some p
    ∧ states self !! p = Some state
    ∧ _find_state_before self offset false = Ok (Some state)
    ∧ Forall (fun o => Offset_lt o offset) (take (S k) (offsets self))
    ∧ Forall (fun o => Offset_lt offset o) (drop (S k) (offsets self)).
Proof.
  intros [Hsorted Hhead Hreg Hoff] Hpos Hfresh.
  pose proof (bisect_left_split Offset_ltb Offset_ltb_neg_trans (offsets self) offset
                (StronglySorted_lt_ascending _ Hsorted)) as (Hlen & Hbelow & Habove).
  set (r := bisect_left Offset_ltb (offsets self) offset) in *.
  assert (Forall (fun o => Offset_lt offset o) (drop r (offsets self))) as Habove'.
  { rewrite Forall_forall in Habove |- *. intros o Ho.
    destruct (Offset_trichotomy o offset) as [Hlt|[->|Hgt]]; auto.
    - rewrite (Habove o Ho) in Hlt. done.
    - exfalso. apply Hfresh. by eapply subseteq_drop. }
  destruct r as [|k] eqn:Hr.
  { exfalso. rewrite drop_0 in Habove.
    destruct (offsets self) as [|o l]; [done|]. simpl in Hhead. injection Hhead as ->.
    apply Forall_cons in Habove as [Hc _].
    destruct offset; simpl in *; done. }
  destruct (lookup_lt_is_Some_2 (offsets self) k ltac:(lia)) as [p Hp].
  assert (Offset_ltb p offset = true) as Hplt.
  { rewrite Forall_forall in Hbelow. apply Hbelow.
    apply list_elem_of_lookup. exists k. rewrite lookup_take_lt by lia. done. }
  destruct (proj1 (Hreg p)) as [state Hstate].
  { by eapply list_elem_of_lookup_2. }
  exists k, p, state. repeat split; auto.
  unfold _find_state_before. fold r. rewrite Hr.
  destruct (decide (S k = length (offsets self))) as [Heq|Hne]; simpl.
  - rewrite Hp. simpl. unfold Offset_leb. rewrite Hplt. simpl.
    rewrite Hp. simpl. rewrite Hstate. done.
  - destruct (lookup_lt_is_Some_2 (offsets self) (S k) ltac:(lia)) as [q Hq].
    rewrite Hq. simpl.
    assert (Offset_ltb q offset = false) as Hqlt.
    { rewrite Forall_forall in Habove. apply Habove.
      apply list_elem_of_lookup. exists 0%nat. rewrite lookup_drop. by rewrite Nat.add_0_r. }
    unfold Offset_leb. rewrite Hqlt. simpl.
    rewrite Hp. simpl. rewrite Hstate. done.
Qed.

(** C10.  On a well-formed index, [at] at an offset already listed
    builds no state and leaves the offset list and the states as they
    were; at a fresh non-negative offset it adds exactly that offset,
    right after the greatest offset below it, registers one new state
    under it, and the list stays strictly ascending (sorted, without
    duplicates). *)
Theorem at_existing_or_fresh
    (self : Session.t) (offset : Offset) (propagate : bool) :
  timeline_ok self →
  Offset_leb (Finite 0) offset = true →
  (offset ∈ offsets self →
     ∃ moment, at_ offset propagate self = (Ok moment, self)
               ∧ states self !! offset = Some (moment_state moment))
  ∧ (offset ∉ offsets self →
     ∃ before predecessor after moment self',
       offsets self = before ++ predecessor :: after
       ∧ Offset_lt predecessor offset
       ∧ Forall (fun o => Offset_lt offset o) after
       ∧ at_ offset propagate self = (Ok moment, self')
       ∧ offsets self' = before ++ predecessor :: offset :: after
       ∧ states self' = <[offset := moment_state moment]> (states self)
       ∧ StronglySorted Offset_lt (offsets self')).
Proof.
  intros Hok Hpos. split.
  - intros Hin. destruct (proj1 (states_registered _ Hok offset) Hin) as [state Hstate].
    eexists. unfold at_, _find_state_at. rewrite Hpos, Hstate. simpl.
    rewrite (states_offset _ Hok _ _ Hstate).
    rewrite decide_True by eauto. split; [reflexivity|done].
  - intros Hfresh.
    destruct (fresh_offset_position self offset Hok Hpos Hfresh)
      as (k & p & state & Hr & Hp & Hstate & Hfind & Hbelow & Habove).
    assert (states self !! offset = None) as Hnone.
    { apply eq_None_not_Some. intros Hsome.
      apply Hfresh. by apply (states_registered _ Hok). }
    pose proof (StronglySorted_lt_NoDup _ (offsets_sorted _ Hok)) as Hnodup.
    exists (take k (offsets self)), p, (drop (S k) (offsets self)).
    eexists _, _.
    split; [by rewrite take_drop_middle|].
    split.
    { rewrite Forall_forall in Hbelow. apply Hbelow.
      apply elem_of_take. exists k. split; [done|lia]. }
    split; [done|].
    unfold at_, _find_state_at, _add_state_at, clone_and_insert.
    rewrite Hpos, Hnone, Hfind. simpl.
    rewrite (states_offset _ Hok _ _ Hstate).
    rewrite (list_index_lookup _ _ _ Hnodup Hp).
    split; [reflexivity|]. simpl.
    assert (list_insert_at (S k) offset (offsets self)
            = take k (offsets self) ++ p :: offset :: drop (S k) (offsets self)) as Hins.
    { unfold list_insert_at. rewrite (take_S_r _ _ _ Hp). by rewrite <- app_assoc. }
    rewrite Hins.
    split; [done|]. split; [done|].
    pose proof (offsets_sorted _ Hok) as Hsorted.
    rewrite <- (take_drop_middle _ _ _ Hp) in Hsorted.
    apply StronglySorted_app in Hsorted as (Hcross & Hs1 & Hs2).
    apply StronglySorted_app. split; [|split; [done|]].
    2:{ apply StronglySorted_cons in Hs2 as [Hpafter Hs2].
      apply StronglySorted_cons. split; [|apply StronglySorted_cons; split; done].
      constructor; [|done].
      rewrite Forall_forall in Hbelow. apply Hbelow.
      apply elem_of_take. exists k. split; [done|lia]. }
    { intros x1 x2 Hx1 Hx2.
      apply elem_of_cons in Hx2 as [->|Hx2]; [apply Hcross; [done|left]|].
      apply elem_of_cons in Hx2 as [->|Hx2].
      * rewrite Forall_forall in Hbelow. apply Hbelow.
        apply elem_of_take in Hx1 as (i & Hi & Hlt).
        apply elem_of_take. exists i. split; [done|lia].
      * apply Hcross; [done|by right]. }
Qed.
End FreshOffsets.

Lemma fresh_session_ok : timeline_ok Samples.fresh.
Proof.
  split.
  - repeat constructor.
  - reflexivity.
  - intros o. simpl. rewrite !elem_of_cons, elem_of_nil.
    rewrite lookup_insert_is_Some, lookup_singleton_is_Some.
    split.
    + intros [->|[->|[]]]; [by left|]. right. split; [done|reflexivity].
    + intros [<-|[_ <-]]; [by left|by right; left].
  - intros o state. simpl. intros Hlook.
    apply lookup_insert_Some in Hlook as [[<- <-]|[_ Hlook]]; [done|].
    apply lookup_singleton_Some in Hlook as [<- <-]. done.
Qed.

Lemma at_existing_or_fresh_witness :
  timeline_ok Samples.fresh
  ∧ Offset_leb (Finite 0) (Finite 5) = true
  ∧ (Finite 5 ∈ Session.offsets Samples.fresh →
     ∃ moment,
       Session.at_ (H := plain_collaborators) (Finite 5) true Samples.fresh
       = (Ok moment, Samples.fresh)
       ∧ Session.states Samples.fresh !! Finite 5 = Some (Session.moment_state moment))
  ∧ (Finite 5 ∉ Session.offsets Samples.fresh →
     ∃ before predecessor after moment self',
       Session.offsets Samples.fresh = before ++ predecessor :: after
       ∧ Offset_lt predecessor (Finite 5)
       ∧ Forall (fun o => Offset_lt (Finite 5) o) after
       ∧ Session.at_ (H := plain_collaborators) (Finite 5) true Samples.fresh
         = (Ok moment, self')
       ∧ Session.offsets self' = before ++ predecessor :: Finite 5 :: after
       ∧ Session.states self'
         = <[Finite 5 := Session.moment_state moment]> (Session.states Samples.fresh)
       ∧ StronglySorted Offset_lt (Session.offsets self')).
Proof.
  split; [apply fresh_session_ok|]. split; [reflexivity|].
  apply (at_existing_or_fresh (H := plain_collaborators) Samples.fresh (Finite 5) true).
  - apply fresh_session_ok.
  - reflexivity.
Defined.

(** The first moment after a new session, at offset 5. *)
Example at_five_on_a_fresh_session :
  (Session.at_ (H := plain_collaborators) (Finite 5) true Samples.fresh).2.(Session.offsets)
  = [NegInf; Finite 0; Finite 5].
Proof. vm_compute. reflexivity. Qed.

(** ** Freeing nodes *)

Section NodeFree.
Import Session.

Lemma partition_stop_nodes_spec id_mapping nodes : ∀ free_ids gate_ids,
  Forall (fun n => is_Some (dict_get (ONode n) id_mapping)) nodes →
  foldl
    (fun acc node =>
       '(free_ids, gate_ids) ← acc;
       node_id ← dict_item (ONode node) id_mapping;
       if has_gate node then Ok (free_ids, gate_ids ++ [node_id])
       else if has_duration node then Ok (free_ids ++ [node_id], gate_ids)
       else Ok (free_ids, gate_ids))
    (Ok (free_ids, gate_ids)) nodes
  = Ok (free_ids ++ ids_where hard_freed id_mapping nodes,
        gate_ids ++ ids_where has_gate id_mapping nodes).
Proof.
  induction nodes as [|n nodes IH]; intros free_ids gate_ids Hall; simpl.
  - by rewrite !app_nil_r.
  - apply Forall_cons in Hall as [[i Hi] Hall].
    unfold dict_item in *. rewrite Hi. simpl. unfold hard_freed.
    destruct (has_gate n); simpl.
    + rewrite IH by done. by rewrite <- app_assoc.
    + destruct (has_duration n); simpl.
      * rewrite IH by done. by rewrite <- app_assoc.
      * by rewrite IH.
Qed.

(** C3, as amended.  When every stopping node has an id, the collector
    returns one free request holding, in ascending order, the ids of
    the stopping nodes without a gate parameter and with a duration
    other than zero (no free request when there is none), followed by
    one gate-to-zero set request per stopping node whose synthdef
    declares a gate, in ascending id order.  A stopping node without a
    gate and with duration zero gets no request. *)
Theorem node_free_requests_spec (id_mapping : IdMapping) (stop_nodes : list Node) :
  Forall (fun n => is_Some (dict_get (ONode n) id_mapping)) stop_nodes →
  ∃ free_ids gate_ids,
    _collect_node_free_requests id_mapping stop_nodes
    = Ok (match free_ids with
          | [] => []
          | _ => [NodeFreeRequest free_ids]
          end ++ (gate_off <$> gate_ids))
    ∧ Sorted Z.le free_ids
    ∧ free_ids ≡ₚ ids_where hard_freed id_mapping stop_nodes
    ∧ Sorted Z.le gate_ids
    ∧ gate_ids ≡ₚ ids_where has_gate id_mapping stop_nodes.
Proof.
  intros Hall.
  exists (merge_sort Z.le (ids_where hard_freed id_mapping stop_nodes)),
         (merge_sort Z.le (ids_where has_gate id_mapping stop_nodes)).
  split.
  - unfold _collect_node_free_requests, partition_stop_nodes.
    destruct stop_nodes as [|n nodes]; [done|].
    rewrite (partition_stop_nodes_spec id_mapping (n :: nodes) [] [] Hall). done.
  - repeat split; try apply Sorted_merge_sort; try apply merge_sort_Permutation; apply _.
Qed.
End NodeFree.

Lemma node_free_requests_spec_witness :
  Forall (fun n => is_Some (dict_get (ONode n) (Samples.node_ids Samples.scenario_nodes)))
    Samples.scenario_nodes
  ∧ ∃ free_ids gate_ids,
      Session._collect_node_free_requests
        (Samples.node_ids Samples.scenario_nodes) Samples.scenario_nodes
      = Ok (match free_ids with
            | [] => []
            | _ => [NodeFreeRequest free_ids]
            end ++ (Session.gate_off <$> gate_ids))
      ∧ Sorted Z.le free_ids
      ∧ free_ids ≡ₚ ids_where hard_freed
                      (Samples.node_ids Samples.scenario_nodes) Samples.scenario_nodes
      ∧ Sorted Z.le gate_ids
      ∧ gate_ids ≡ₚ ids_where Session.has_gate
                      (Samples.node_ids Samples.scenario_nodes) Samples.scenario_nodes.
Proof.
  assert (Forall (fun n => is_Some (dict_get (ONode n)
                                      (Samples.node_ids Samples.scenario_nodes)))
            Samples.scenario_nodes) as Hall.
  { repeat constructor; vm_compute; eauto. }
  split; [exact Hall|].
  apply (node_free_requests_spec _ _ Hall).
Defined.

(** Scenario A: the three groups are freed in one request, the synth
    with a gate is released. *)
Example scenario_a_free_requests :
  Session._collect_node_free_requests
    (Samples.node_ids Samples.scenario_nodes) Samples.scenario_nodes
  = Ok [NodeFreeRequest [1000; 1001; 1003]; Session.gate_off 1002].
Proof. vm_compute. reflexivity. Qed.

(** C3, as stated, fails: the synth added by [set_rand_seed] stops,
    declares no gate, and is not freed. *)
Lemma zero_duration_node_is_not_freed :
  Session.has_gate Samples.rand_seed_synth = false
  ∧ Session._collect_node_free_requests
      [(ONode Samples.rand_seed_synth, 1000)] [Samples.rand_seed_synth] = Ok []
  ∧ ¬ (∀ requests,
         Session._collect_node_free_requests
           [(ONode Samples.rand_seed_synth, 1000)] [Samples.rand_seed_synth]
         = Ok requests →
         ∃ node_ids, NodeFreeRequest node_ids ∈ requests ∧ 1000 ∈ node_ids).
Proof.
  split; [reflexivity|]. split; [vm_compute; reflexivity|].
  intros Hclaim. destruct (Hclaim [] ltac:(vm_compute; reflexivity)) as (ids & Hin & _).
  by apply elem_of_nil in Hin.
Qed.

(** ** The id mapping of buses *)

(** C6.  A group of two control buses is given the block [0, 2), but only
    the member met first is entered in the mapping, under the last id of
    the block; the other member gets no id. *)
Theorem bus_group_members_are_not_all_mapped :
  ∃ mapping,
    Session._build_id_mapping_for_buses Samples.with_control_pair = Ok mapping
    ∧ dict_get (OBusGroup Samples.control_pair) mapping = Some 0
    ∧ dict_get (OBus (MemberBus Samples.control_pair 0)) mapping = Some 1
    ∧ dict_get (OBus (MemberBus Samples.control_pair 1)) mapping = None.
Proof. eexists. split; [vm_compute; reflexivity|]. repeat split. Qed.

(** The hardware groups are enumerated member by member, and the audio
    allocator starts after them. *)
Example hardware_buses_are_enumerated :
  Session._build_id_mapping_for_buses Samples.with_hardware
  = Ok [ (OBusGroup Samples.outputs, 0);
         (OBus (MemberBus Samples.outputs 0), 0);
         (OBus (MemberBus Samples.outputs 1), 1);
         (OBusGroup Samples.inputs, 2);
         (OBus (MemberBus Samples.inputs 0), 2);
         (OBusGroup Samples.audio_pair, 3);
         (OBus (MemberBus Samples.audio_pair 0), 4) ].
Proof. vm_compute. reflexivity. Qed.

(** ** What a render does to the session *)

Section Effects.
Context `{Collaborators}.
Import Session.

Lemma extends_refl self : extends self self.
Proof. split; auto. by destruct self. Qed.

Lemma extends_trans s1 s2 s3 : extends s1 s2 → extends s2 s3 → extends s1 s3.
Proof.
  intros [Hs1 Ho1 Hr1 Hobj1] [Hs2 Ho2 Hr2 Hobj2]. split; auto.
  rewrite Hobj2. rewrite Hobj1 at 1. reflexivity.
Qed.

Lemma monotone_ret {A} (a : A) : monotone (ret a).
Proof. intros self r self' [= <- <-]. apply extends_refl. Qed.

Lemma monotone_raise {A} e : monotone (@raise A e).
Proof. intros self r self' [= <- <-]. apply extends_refl. Qed.

Lemma monotone_lift {A} (x : result A) : monotone (lift x).
Proof. intros self r self' [= <- <-]. apply extends_refl. Qed.

Lemma monotone_get : monotone get.
Proof. intros self r self' [= <- <-]. apply extends_refl. Qed.

Lemma monotone_bind {A B} (m : M A) (k : A → M B) :
  monotone m → (∀ a, monotone (k a)) → monotone (bind m k).
Proof.
  intros Hm Hk self r self' Hrun. unfold bind in Hrun.
  destruct (m self) as [[a|e] self1] eqn:Hm1.
  - eapply extends_trans; [by eapply Hm|by eapply Hk].
  - injection Hrun as <- <-. by eapply Hm.
Qed.

Lemma drop_1_insert_at {A} (i : nat) (x : A) (l : list A) :
  l ≠ [] → drop 1 (list_insert_at (S i) x l) = list_insert_at i x (drop 1 l).
Proof. destruct l as [|a l]; [done|]. intros _. reflexivity. Qed.

Lemma elem_of_insert_at {A} (i : nat) (x y : A) (l : list A) :
  y ∈ list_insert_at i x l ↔ y = x ∨ y ∈ l.
Proof.
  unfold list_insert_at. rewrite elem_of_app, elem_of_cons.
  assert (y ∈ l ↔ y ∈ take i l ∨ y ∈ drop i l) as ->
    by (by rewrite <- elem_of_app, take_drop).
  tauto.
Qed.

Lemma clone_and_insert_extends old_state offset self r self' :
  states self !! offset = None →
  clone_and_insert old_state offset self = (r, self') →
  extends self self'
  ∧ ∀ state, r = Ok state → states self' !! offset = Some state.
Proof.
  intros Hnone Hrun. unfold clone_and_insert in Hrun.
  destruct old_state as [old_state|].
  2:{ injection Hrun as <- <-. split; [apply extends_refl|done]. }
  simpl in Hrun.
  destruct (list_index (State.offset old_state) (offsets self)) as [i|] eqn:Hindex;
    injection Hrun as <- <-.
  - split.
    + split; simpl.
      * intros o state Hlook. rewrite lookup_insert_ne; [done|]. congruence.
      * intros o Ho. destruct (offsets self) as [|a l] eqn:Hl; [done|].
        rewrite drop_1_insert_at by done. apply elem_of_insert_at. by right.
      * intros Hreg o Ho. destruct (offsets self) as [|a l] eqn:Hl; [done|].
        rewrite drop_1_insert_at in Ho by done.
        apply elem_of_insert_at in Ho as [->|Ho].
        -- rewrite lookup_insert_eq. eauto.
        -- destruct (decide (offset = o)) as [->|Hne].
           ++ rewrite lookup_insert_eq. eauto.
           ++ rewrite lookup_insert_ne by done. by apply Hreg.
      * by destruct self.
    + intros state [= <-]. simpl. by rewrite lookup_insert_eq.
  - split; [|done]. split; simpl.
    + intros o state Hlook. rewrite lookup_insert_ne; [done|]. congruence.
    + done.
    + intros Hreg o Ho. destruct (decide (offset = o)) as [->|Hne].
      * rewrite lookup_insert_eq. eauto.
      * rewrite lookup_insert_ne by done. by apply Hreg.
    + by destruct self.
Qed.

Lemma find_state_at_extends offset clone_if_missing self r self' :
  _find_state_at offset clone_if_missing self = (r, self') →
  extends self self'
  ∧ ∀ state, r = Ok (Some state) → states self' !! offset = Some state.
Proof.
  unfold _find_state_at. intros Hrun.
  destruct (states self !! offset) as [state|] eqn:Hstate.
  { injection Hrun as <- <-. split; [apply extends_refl|]. by intros ? [= <-]. }
  destruct clone_if_missing.
  2:{ injection Hrun as <- <-. split; [apply extends_refl|done]. }
  destruct (_find_state_before self offset true) as [old_state|e].
  2:{ injection Hrun as <- <-. split; [apply extends_refl|done]. }
  unfold bind in Hrun.
  destruct (clone_and_insert old_state offset self) as [[st|e] self1] eqn:Hclone;
    injection Hrun as <- <-;
    destruct (clone_and_insert_extends _ _ _ _ _ Hstate Hclone) as [Hext Hreg].
  - split; [done|]. intros state [= <-]. by apply Hreg.
  - split; [done|]. done.
Qed.

Lemma monotone_find_state_at offset clone_if_missing :
  monotone (_find_state_at offset clone_if_missing).
Proof. intros self r self' Hrun. by apply find_state_at_extends in Hrun as [? _]. Qed.

Lemma monotone_collect_durated_objects offset is_last_offset :
  monotone (_collect_durated_objects offset is_last_offset).
Proof.
  apply monotone_bind; [apply monotone_find_state_at|].
  intros [state|]; [apply monotone_ret|apply monotone_raise].
Qed.

Lemma collect_requests_at_offset_extends
    bos buffer_settings bus_settings d id_mapping is_last_offset offset visited
    self r self' :
  _collect_requests_at_offset bos buffer_settings bus_settings d id_mapping
    is_last_offset offset visited self = (r, self') →
  extends self self'
  ∧ ∀ x, r = Ok x → is_Some (states self' !! offset).
Proof.
  unfold _collect_requests_at_offset. intros Hrun. unfold bind at 1 in Hrun.
  destruct (_collect_durated_objects offset is_last_offset self)
    as [[objects|e] s1] eqn:Hobjects.
  2:{ injection Hrun as <- <-.
      split; [by eapply monotone_collect_durated_objects|done]. }
  pose proof (monotone_collect_durated_objects _ _ _ _ _ Hobjects) as Hext1.
  unfold bind at 1 in Hrun.
  destruct (_find_state_at offset true s1) as [[state|e] s2] eqn:Hfind.
  2:{ injection Hrun as <- <-. split; [|done].
      eapply extends_trans; [done|]. by eapply monotone_find_state_at. }
  destruct (find_state_at_extends _ _ _ _ _ Hfind) as [Hext2 Hreg].
  destruct state as [state|].
  2:{ injection Hrun as <- <-. split; [|done]. by eapply extends_trans. }
  unfold bind, get, lift in Hrun. injection Hrun as <- <-.
  split; [by eapply extends_trans|]. intros _ _. rewrite (Hreg state); eauto.
Qed.

Lemma compile_offsets_extends buffer_settings bus_settings d id_mapping :
  ∀ offs acc bos visited, monotone
    (compile_offsets buffer_settings bus_settings d id_mapping offs acc bos visited).
Proof.
  intros offs. induction offs as [|offset offs IH]; intros acc bos visited.
  { apply monotone_ret. }
  cbn [compile_offsets]. apply monotone_bind.
  - intros self r self' Hrun. by apply collect_requests_at_offset_extends in Hrun as [? _].
  - intros [[requests bos1] visited1].
    destruct (bool_decide (offset = d)); [apply monotone_ret|apply IH].
Qed.

Lemma monotone_to_non_xrefd_request_bundles duration_ :
  monotone (_to_non_xrefd_request_bundles duration_).
Proof.
  intros self r self' Hrun. unfold _to_non_xrefd_request_bundles in Hrun.
  destruct (_build_id_mapping self); [|injection Hrun as <- <-; apply extends_refl].
  destruct (_ && _); [injection Hrun as <- <-; apply extends_refl|].
  destruct (_collect_buffer_settings self _);
    [|injection Hrun as <- <-; apply extends_refl].
  destruct (_collect_bus_settings self _);
    [|injection Hrun as <- <-; apply extends_refl].
  by eapply compile_offsets_extends.
Qed.
End Effects.

Section Linearizer.
Context `{Collaborators}.
Import Session.


Global Instance Offset_le_total : Total Offset_le.
Proof.
  intros a b. unfold Offset_le, Offset_leb.
  destruct (Offset_trichotomy a b) as [Hlt|[->|Hgt]].
  - left. by rewrite (Offset_ltb_asym _ _ Hlt).
  - left. by rewrite Offset_ltb_irrefl.
  - right. by rewrite (Offset_ltb_asym _ _ Hgt).
Qed.

Global Instance Offset_le_trans : Transitive Offset_le.
Proof.
  intros a b c. unfold Offset_le, Offset_leb. rewrite !negb_true_iff.
  intros Hba Hcb. destruct (Offset_ltb c a) eqn:Hca; [|done].
  destruct (Offset_ltb_neg_trans c b a Hca); congruence.
Qed.

Lemma Offset_le_neq_lt a b : Offset_le a b → a ≠ b → Offset_lt a b.
Proof.
  unfold Offset_le, Offset_leb, Offset_lt. rewrite negb_true_iff. intros Hba Hne.
  destruct (Offset_trichotomy a b) as [Hlt|[->|Hgt]]; [done|done|congruence].
Qed.






End Linearizer.

(** Scenario A renders to the two bundles of the specification. *)
Example scenario_a_renders :
  Samples.scenario_a_render.1 = Ok Samples.scenario_a_bundles.
Proof. vm_compute. reflexivity. Qed.



(** ** Rendering twice *)

Section Repeatable.
Context `{Collaborators}.
Import Session.

Lemma find_state_at_registered offset clone_if_missing self state :
  states self !! offset = Some state →
  _find_state_at offset clone_if_missing self = (Ok (Some state), self).
Proof. intros Hstate. unfold _find_state_at. by rewrite Hstate. Qed.

Lemma collect_requests_at_offset_registered
    bos buffer_settings bus_settings d id_mapping is_last_offset offset visited self :
  is_Some (states self !! offset) →
  (_collect_requests_at_offset bos buffer_settings bus_settings d id_mapping
     is_last_offset offset visited self).2 = self.
Proof.
  intros [state Hstate].
  unfold _collect_requests_at_offset, _collect_durated_objects, bind.
  rewrite (find_state_at_registered _ _ _ _ Hstate). cbn [ret].
  rewrite (find_state_at_registered _ _ _ _ Hstate). cbn [get lift].
  done.
Qed.

Lemma compile_offsets_registered buffer_settings bus_settings d id_mapping self :
  ∀ offs acc bos visited,
    (∀ o, o ∈ offs → is_Some (states self !! o)) →
    (compile_offsets buffer_settings bus_settings d id_mapping offs acc bos visited
       self).2 = self.
Proof.
  intros offs. induction offs as [|offset offs IH]; intros acc bos visited Hreg;
    cbn [compile_offsets]; [done|].
  unfold bind at 1.
  pose proof (collect_requests_at_offset_registered bos buffer_settings bus_settings d
                id_mapping (bool_decide (offset = d)) offset visited self
                (Hreg offset ltac:(left))) as Hsame.
  destruct (_collect_requests_at_offset _ _ _ _ _ _ _ _ self)
    as [[[[requests bos1] visited1]|e] self1]; cbn [snd] in Hsame; subst self1;
    [|done].
  destruct (bool_decide (offset = d)); [done|].
  apply IH. intros o Ho. apply Hreg. by right.
Qed.

(** X23.  Where the first render leaves the session alone, the second
    one repeats it: that is the case when the duration is already
    listed and every listed offset has its state. *)
Theorem render_at_breakpoint_is_repeatable
    (self : Session.t) (duration_ : option Offset)
    (r : result (list RequestBundle)) (self' : Session.t) :
  (∀ o, o ∈ drop 1 (offsets self) → is_Some (states self !! o)) →
  duration_or duration_ self ∈ drop 1 (offsets self) →
  _to_non_xrefd_request_bundles duration_ self = (r, self') →
  self' = self ∧ _to_non_xrefd_request_bundles duration_ self' = (r, self').
Proof.
  intros Hreg Hin Hrun.
  assert (self' = self) as ->; [|done].
  unfold _to_non_xrefd_request_bundles in Hrun.
  destruct (_build_id_mapping self); [|by injection Hrun].
  destruct (_ && _); [by injection Hrun|].
  destruct (_collect_buffer_settings self _); [|by injection Hrun].
  destruct (_collect_bus_settings self _); [|by injection Hrun].
  rewrite decide_True in Hrun by done.
  apply (f_equal snd) in Hrun. cbn [snd] in Hrun.
  by rewrite compile_offsets_registered in Hrun.
Qed.
End Repeatable.

(** C1.  A session with a sparse state at offset 5 is rendered up to
    duration 10, which is not a breakpoint.  The first render emits the
    bundles at 0, 5 and 10 and splices the new offset 10 after the last
    state with a tree, that is, before 5.  The second render of the same
    session with the same duration then stops at 10 before reaching 5:
    the bundle at 5 is missing. *)
Theorem second_render_drops_a_bundle :
  ∃ self1 self2,
    Session._to_non_xrefd_request_bundles (H := plain_collaborators)
      (Some (Finite 10)) Samples.one_buffer
    = (Ok [ {| contents := [Samples.allocate_buffer0]; timestamp := Finite 0 |};
            {| contents := [BufferFreeRequest 0]; timestamp := Finite 5 |};
            {| contents := [NothingRequest]; timestamp := Finite 10 |} ], self1)
    ∧ Session.offsets self1 = [NegInf; Finite 0; Finite 10; Finite 5]
    ∧ Session._to_non_xrefd_request_bundles (H := plain_collaborators)
        (Some (Finite 10)) self1
      = (Ok [ {| contents := [Samples.allocate_buffer0]; timestamp := Finite 0 |};
              {| contents := [NothingRequest]; timestamp := Finite 10 |} ], self2).
Proof.
  eexists _, _. split; [vm_compute; reflexivity|].
  split; vm_compute; reflexivity.
Qed.

(** ** The id mapping of nodes and buffers *)

Section DictFacts.
Context {K V : Type} `{EqDecision K}.

Lemma dict_get_set_eq (k : K) (v : V) d : dict_get k (dict_set k v d) = Some v.
Proof.
  induction d as [|[k' v'] d IH]; simpl.
  - by rewrite decide_True.
  - destruct (decide (k' = k)) as [->|Hne]; simpl.
    + by rewrite decide_True.
    + by rewrite decide_False.
Qed.

Lemma dict_get_set_ne (k k' : K) (v : V) d :
  k ≠ k' → dict_get k' (dict_set k v d) = dict_get k' d.
Proof.
  intros Hne. induction d as [|[k0 v0] d IH]; simpl.
  - by rewrite decide_False.
  - destruct (decide (k0 = k)) as [->|Hne0]; simpl.
    + by rewrite !decide_False.
    + destruct (decide (k0 = k')); [done|apply IH].
Qed.
End DictFacts.

Lemma foldl_Raise {A B} (f : result A → B → result A) (e : exn) (l : list B) :
  (∀ b, f (Raise e) b = Raise e) → foldl f (Raise e) l = Raise e.
Proof. intros Hf. induction l as [|b l IH]; simpl; [done|]. by rewrite Hf. Qed.

Section NodeIds.
Context `{Collaborators}.
Import Session.

Lemma elem_of_started self offs n :
  n ∈ started self offs ↔
  ∃ o state, o ∈ offs ∧ states self !! o = Some state ∧ n ∈ State.start_nodes state.
Proof.
  unfold started. rewrite list_elem_of_bind. split.
  - intros (o & Hn & Ho). destruct (states self !! o) as [state|] eqn:Hstate.
    + eauto.
    + by apply elem_of_nil in Hn.
  - intros (o & state & Ho & Hstate & Hn). exists o. by rewrite Hstate.
Qed.

Lemma map_start_nodes_lookup nodes : ∀ mapping next n,
  dict_get (ONode n) (map_start_nodes (mapping, next) nodes).1
  = if decide (n ∈ nodes) then Some (node_session_id n)
    else dict_get (ONode n) mapping.
Proof.
  unfold map_start_nodes.
  induction nodes as [|x nodes IH]; intros mapping next n; cbn [foldl fst].
  - rewrite decide_False; [done|apply not_elem_of_nil].
  - rewrite IH. destruct (decide (n ∈ nodes)) as [Hin|Hout].
    + rewrite decide_True; [done|by right].
    + destruct (decide (x = n)) as [->|Hne].
      * rewrite decide_True by left. by rewrite dict_get_set_eq.
      * rewrite decide_False.
        -- rewrite !dict_get_set_ne; [done|congruence..].
        -- rewrite not_elem_of_cons. split; [congruence|done].
Qed.

Lemma elem_of_sorted_by {A} (key : A → Z) (l : list A) (x : A) :
  x ∈ sorted_by key l ↔ x ∈ l.
Proof. unfold sorted_by. by rewrite merge_sort_Permutation. Qed.

(** The loop of [_build_id_mapping_for_nodes], from any mapping. *)
Lemma map_offsets_lookup self : ∀ offs mapping next mapping' next',
  foldl (map_offset self) (Ok (mapping, next)) offs = Ok (mapping', next') →
  (∀ o, o ∈ offs → is_Some (states self !! o))
  ∧ ∀ n, dict_get (ONode n) mapping'
         = if decide (n ∈ started self offs) then Some (node_session_id n)
           else dict_get (ONode n) mapping.
Proof.
  intros offs. induction offs as [|o offs IH]; intros mapping next mapping' next' Hrun.
  - simpl in Hrun. injection Hrun as <- <-. split.
    + intros o Ho. by apply elem_of_nil in Ho.
    + intros n. rewrite decide_False; [done|apply not_elem_of_nil].
  - cbn [foldl] in Hrun. unfold map_offset at 2 in Hrun.
    destruct (states self !! o) as [state|] eqn:Hstate;
      cbn [mbind result_bind of_option] in Hrun.
    2:{ rewrite foldl_Raise in Hrun; done. }
    rewrite (surjective_pairing (map_start_nodes _ _)) in Hrun.
    apply IH in Hrun as [Hreg Hlook]. split.
    + intros o' [->|Ho']%elem_of_cons; eauto.
    + intros n. rewrite Hlook, map_start_nodes_lookup.
      assert (n ∈ started self (o :: offs)
              ↔ n ∈ State.start_nodes state ∨ n ∈ started self offs) as Hcons.
      { unfold started. cbn [mbind list_bind]. rewrite Hstate. apply elem_of_app. }
      destruct (decide (n ∈ started self offs)) as [Hin|Hout].
      * rewrite decide_True; [done|]. apply Hcons. by right.
      * destruct (decide (n ∈ sorted_by _ _)) as [Hs|Hs];
          rewrite elem_of_sorted_by in Hs.
        -- rewrite decide_True; [done|]. apply Hcons. by left.
        -- rewrite decide_False; [done|]. rewrite Hcons. tauto.
Qed.

Lemma map_offsets_succeeds self : ∀ offs acc,
  (∀ o, o ∈ offs → is_Some (states self !! o)) →
  ∃ acc',
    foldl (map_offset self) (Ok acc) offs = Ok acc'.
Proof.
  intros offs. induction offs as [|o offs IH]; intros acc Hreg; cbn [foldl]; [eauto|].
  unfold map_offset at 2.
  destruct (Hreg o ltac:(left)) as [state ->]. cbn [mbind result_bind of_option].
  apply IH. intros o' Ho'. apply Hreg. by right.
Qed.

Lemma build_id_mapping_for_nodes_succeeds self :
  (∀ o, o ∈ drop 1 (offsets self) → is_Some (states self !! o)) →
  ∃ mapping, _build_id_mapping_for_nodes self = Ok mapping.
Proof.
  intros Hreg. unfold _build_id_mapping_for_nodes.
  match goal with
  | |- context [foldl _ (Ok ?acc) ?offs] =>
    destruct (map_offsets_succeeds self offs acc Hreg) as [[mapping next] Hfold]
  end.
  exists mapping. by rewrite Hfold.
Qed.

Lemma build_id_mapping_for_nodes_lookup self mapping :
  _build_id_mapping_for_nodes self = Ok mapping →
  (∀ o, o ∈ drop 1 (offsets self) → is_Some (states self !! o))
  ∧ ∀ n, dict_get (ONode n) mapping
         = if decide (n ∈ started self (drop 1 (offsets self)))
           then Some (node_session_id n)
           else if decide (n = root_node self) then Some 0 else None.
Proof.
  unfold _build_id_mapping_for_nodes. intros Hrun.
  destruct (foldl _ _ _) as [[mapping' next']|] eqn:Hfold; [|done].
  simpl in Hrun. injection Hrun as ->.
  apply map_offsets_lookup in Hfold as [Hreg Hlook]. split; [done|].
  intros n. rewrite Hlook. destruct (decide (n ∈ _)); [done|]. simpl.
  destruct (decide (ONode (root_node self) = ONode n)) as [[= ->]|Hne].
  - by rewrite decide_True.
  - rewrite decide_False; [done|congruence].
Qed.

Lemma buffer_ids_ok_set_buffer b mapping :
  buffer_ids_ok mapping → buffer_ids_ok (dict_set (OBuffer b) (buffer_key b) mapping).
Proof.
  intros Hok b' i. destruct (decide (b = b')) as [->|Hne].
  - rewrite dict_get_set_eq. by intros [= <-].
  - rewrite dict_get_set_ne by congruence. apply Hok.
Qed.

Lemma buffer_ids_ok_set_group g i mapping :
  buffer_ids_ok mapping → buffer_ids_ok (dict_set (OBufferGroup g) i mapping).
Proof. intros Hok b' j. rewrite dict_get_set_ne by done. apply Hok. Qed.

Lemma buffer_ids_ok_children children : ∀ mapping,
  buffer_ids_ok mapping →
  buffer_ids_ok
    (foldl (fun m child => dict_set (OBuffer child)
                             (buffer_session_id (buffer_data child)) m)
       mapping children).
Proof.
  induction children as [|c children IH]; intros mapping Hok; cbn [foldl]; [done|].
  apply IH. by apply buffer_ids_ok_set_buffer.
Qed.

Lemma build_id_mapping_for_buffers_ids self mapping :
  _build_id_mapping_for_buffers self = Ok mapping → buffer_ids_ok mapping.
Proof.
  unfold _build_id_mapping_for_buffers.
  assert (buffer_ids_ok []) as Hnil by (intros b i; done).
  revert Hnil. generalize ([] : IdMapping) as m0.
  induction (_buffers self) as [|[b events] entries IH]; intros m0 Hok Hrun;
    cbn [foldl] in Hrun.
  { by injection Hrun as <-. }
  cbn [mbind result_bind fst] in Hrun.
  destruct (dict_mem (OBuffer b) m0); [by eapply IH|].
  destruct (buffer_group b) as [group|].
  - destruct (buffer_group_buffers group !! 0%nat) as [first|];
      cbn [mbind result_bind of_option] in Hrun.
    + eapply IH; [|exact Hrun].
      apply buffer_ids_ok_children. by apply buffer_ids_ok_set_group.
    + rewrite foldl_Raise in Hrun; done.
  - eapply IH; [|exact Hrun]. by apply buffer_ids_ok_set_buffer.
Qed.

End NodeIds.

(** The ids survive the truncated render of scenario A unchanged. *)
Example scenario_a_ids_after_truncation :
  Session._build_id_mapping_for_nodes Samples.scenario_a_truncated.2
  = Ok Samples.scenario_a_node_ids.
Proof. vm_compute. reflexivity. Qed.

(** ** The order of the requests of one offset *)

Section Categories.
Context `{Collaborators}.
Import Session.

Lemma foldl_result_invariant {S B} (f : result S → B → result S) (P : S → Prop)
    (l : list B) :
  (∀ e b, f (Raise e) b = Raise e) →
  (∀ s b s', f (Ok s) b = Ok s' → P s → P s') →
  ∀ s s', foldl f (Ok s) l = Ok s' → P s → P s'.
Proof.
  intros Hraise Hstep. induction l as [|b l IH]; intros s s' Hrun Hs; cbn [foldl] in Hrun.
  - by injection Hrun as <-.
  - destruct (f (Ok s) b) as [s1|e] eqn:Hf.
    + eapply IH; [exact Hrun|]. by eapply Hstep.
    + rewrite foldl_Raise in Hrun by auto. done.
Qed.

Lemma synthdef_requests_category start_nodes visited :
  Forall is_synthdef_receive (_collect_synthdef_requests start_nodes visited).1.
Proof.
  unfold _collect_synthdef_requests. destruct (foldl _ _ _) as [synthdefs visited'].
  cbn [fst]. apply Forall_fmap. by apply Forall_true.
Qed.

Lemma allocate_requests_category bos id_mapping start_buffers requests bos' :
  _collect_buffer_allocate_requests bos id_mapping start_buffers = Ok (requests, bos') →
  Forall is_allocation requests.
Proof.
  unfold _collect_buffer_allocate_requests. intros Hrun.
  eapply (foldl_result_invariant _ (fun s => Forall is_allocation s.1)) in Hrun;
    [exact Hrun|done| |constructor].
  intros [reqs b0] buffer_ [reqs' b1] Hstep Hall. cbn [mbind result_bind] in Hstep.
  destruct (dict_item _ _); cbn [mbind result_bind] in Hstep; [|done].
  injection Hstep as <- <-. cbn [fst] in *. apply Forall_app. split; [done|].
  repeat constructor. unfold allocate_request.
  destruct (file_path _); [destruct (channel_count _)|]; done.
Qed.

Lemma free_requests_category bos id_mapping stop_buffers requests bos' :
  _collect_buffer_free_requests bos id_mapping stop_buffers = Ok (requests, bos') →
  Forall is_close_or_free requests.
Proof.
  unfold _collect_buffer_free_requests. intros Hrun.
  eapply (foldl_result_invariant _ (fun s => Forall is_close_or_free s.1)) in Hrun;
    [exact Hrun|done| |constructor].
  intros [reqs b0] buffer_ [reqs' b1] Hstep Hall. cbn [mbind result_bind] in Hstep.
  destruct (dict_item _ _); cbn [mbind result_bind] in Hstep; [|done].
  destruct (b0 !! _) as [open_state|]; cbn [mbind result_bind of_option] in Hstep; [|done].
  injection Hstep as <- <-. cbn [fst] in *.
  destruct open_state; repeat (apply Forall_app; split); auto; by repeat constructor.
Qed.

Lemma node_action_requests_category
    d id_mapping node_actions node_settings start_nodes requests node_settings' :
  _collect_node_action_requests d id_mapping node_actions node_settings start_nodes
  = Ok (requests, node_settings') →
  Forall is_node_tree requests.
Proof.
  unfold _collect_node_action_requests. intros Hrun.
  eapply (foldl_result_invariant _ (fun s => Forall is_node_tree s.1)) in Hrun;
    [exact Hrun|done| |constructor].
  intros [reqs s0] [source action] [reqs' s1] Hstep Hall.
  cbn [mbind result_bind] in Hstep.
  assert (∀ (x : result NodeTreeRequest) s,
            (request ← x; Ok (reqs ++ [NodeTree request], s)) = Ok (reqs', s1) →
            Forall is_node_tree reqs') as Hone.
  { intros [request|e] s Hx; cbn [mbind result_bind] in Hx; [|done].
    injection Hx as <- <-. apply Forall_app. split; [done|]. by repeat constructor. }
  cbn [fst] in *.
  destruct (decide (source ∈ start_nodes)); [|by eapply Hone].
  destruct (node_kind source); try by eapply Hone.
  destruct (dict_get source s0); by eapply Hone.
Qed.

Lemma bus_set_requests_category bus_settings offset :
  Forall is_control_bus_set (_collect_bus_set_requests bus_settings offset)
  ∧ (length (_collect_bus_set_requests bus_settings offset) ≤ 1)%nat.
Proof.
  unfold _collect_bus_set_requests. destruct (bus_settings !! offset); simpl.
  - split; [by repeat constructor|lia].
  - split; [constructor|lia].
Qed.

Lemma node_set_requests_category id_mapping node_settings requests :
  _collect_node_set_requests id_mapping node_settings = Ok requests →
  Forall is_node_setting requests.
Proof.
  unfold _collect_node_set_requests. intros Hrun.
  eapply (foldl_result_invariant _ (fun s => Forall is_node_setting s)) in Hrun;
    [exact Hrun|done| |constructor].
  intros reqs [node settings] reqs' Hstep Hall. cbn [mbind result_bind] in Hstep.
  destruct (dict_item _ _); cbn [mbind result_bind] in Hstep; [|done].
  destruct (split_settings _ _ _) as [[[n_settings a_settings] c_settings]|];
    cbn [mbind result_bind] in Hstep; [|done].
  injection Hstep as <-.
  destruct n_settings, a_settings, c_settings;
    repeat (apply Forall_app; split); auto; by repeat constructor.
Qed.

Lemma node_free_requests_category id_mapping stop_nodes requests :
  _collect_node_free_requests id_mapping stop_nodes = Ok requests →
  free_then_gate_off requests.
Proof.
  unfold _collect_node_free_requests. destruct stop_nodes as [|n stop_nodes].
  { intros [= <-]. exists [], []. repeat split; constructor. }
  destruct (partition_stop_nodes _ _) as [[free_ids gate_ids]|];
    cbn [mbind result_bind]; [|done].
  intros [= <-]. exists (merge_sort Z.le free_ids), (merge_sort Z.le gate_ids).
  split; [done|]. split; apply Sorted_merge_sort; apply _.
Qed.

Lemma emit_with_close_Raise e request : emit_with_close (Raise e) request = Raise e.
Proof. done. Qed.

Lemma emit_with_close_spec filed_requests : ∀ acc bos requests bos',
  foldl emit_with_close (Ok (acc, bos)) filed_requests = Ok (requests, bos') →
  ∃ segment, requests = acc ++ segment ∧ emitted_for bos filed_requests segment bos'.
Proof.
  induction filed_requests as [|r rs IH]; intros acc bos requests bos' Hrun;
    cbn [foldl] in Hrun.
  - injection Hrun as <- <-. exists []. split; [by rewrite app_nil_r|constructor].
  - destruct (emit_with_close (Ok (acc, bos)) r) as [[acc1 bos1]|e] eqn:Hstep.
    2:{ rewrite foldl_Raise in Hrun; done. }
    apply IH in Hrun as (segment & -> & Hsegment).
    unfold emit_with_close in Hstep. cbn [mbind result_bind] in Hstep.
    destruct (request_buffer_id r) as [buffer_id|] eqn:Hid;
      cbn [mbind result_bind] in Hstep; [|done].
    destruct (bos !! buffer_id) as [[|]|] eqn:Hopen;
      cbn [mbind result_bind of_option] in Hstep; [| |done]; injection Hstep as <- <-.
    + exists (BufferCloseRequest buffer_id :: r :: segment).
      split; [by rewrite <- !app_assoc|by eapply emitted_closed].
    + exists (r :: segment).
      split; [by rewrite <- !app_assoc|by eapply emitted_plain].
Qed.

(** The relation leaves no choice: the open states and the filed
    requests determine the segment. *)
Lemma emitted_for_functional opened filed_requests segment1 opened1 segment2 opened2 :
  emitted_for opened filed_requests segment1 opened1 →
  emitted_for opened filed_requests segment2 opened2 →
  segment1 = segment2 ∧ opened1 = opened2.
Proof.
  intros Hone. revert segment2 opened2.
  induction Hone as [opened
                    |opened buffer_id r rs segment opened' Hid Hopen Hrest IH
                    |opened buffer_id r rs segment opened' Hid Hopen Hrest IH];
    intros segment2 opened2 Htwo; inversion Htwo; subst; try done;
    match goal with
    | Hid' : request_buffer_id r = Ok ?i |- _ =>
      assert (i = buffer_id) as -> by congruence
    end; try congruence;
    match goal with
    | Hrest' : emitted_for _ rs _ _ |- _ =>
      by destruct (IH _ _ Hrest') as [-> ->]
    end.
Qed.

Lemma in_type_order_functional
    buffer_settings offset opened request_types requests1 opened1 requests2 opened2 :
  in_type_order buffer_settings offset opened request_types requests1 opened1 →
  in_type_order buffer_settings offset opened request_types requests2 opened2 →
  requests1 = requests2 ∧ opened1 = opened2.
Proof.
  intros Hone. revert requests2 opened2.
  induction Hone as [opened|opened ty tys segment rest mid opened' Hsegment Hrest IH];
    intros requests2 opened2 Htwo; inversion Htwo; subst; [done|].
  match goal with
  | Hs : segment_of _ _ _ _ ?s ?m, Hr : in_type_order _ _ ?m _ ?r _ |- _ =>
    assert (s = segment ∧ m = mid) as [-> ->] by
      (revert Hsegment Hs; unfold segment_of; destruct (opens_or_closes ty);
       [intros Hsegment Hs; by eapply emitted_for_functional
       |by intros [-> ->] [-> ->]]);
    destruct (IH _ _ Hr) as [-> ->]; done
  end.
Qed.

Lemma emit_type_Raise settings e request_type :
  emit_type settings (Raise e) request_type = Raise e.
Proof.
  unfold emit_type. destruct (dict_get _ _) as [[|r rs]|]; try done.
  destruct (opens_or_closes _); [|done]. by apply foldl_Raise.
Qed.

Lemma in_type_order_nothing_filed buffer_settings offset opened request_types :
  (∀ request_type, filed buffer_settings offset request_type = []) →
  in_type_order buffer_settings offset opened request_types [] opened.
Proof.
  intros Hnone. induction request_types as [|ty tys IH]; [constructor|].
  change (@nil Request) with (@nil Request ++ []).
  eapply next_type; [|exact IH].
  unfold segment_of. rewrite Hnone. destruct (opens_or_closes ty); [constructor|done].
Qed.

Lemma emit_types_spec buffer_settings offset settings :
  buffer_settings !! offset = Some settings →
  ∀ request_types acc bos requests bos',
    foldl (emit_type settings) (Ok (acc, bos)) request_types = Ok (requests, bos') →
    ∃ rest,
      requests = acc ++ rest
      ∧ in_type_order buffer_settings offset bos request_types rest bos'.
Proof.
  intros Hsettings request_types.
  induction request_types as [|ty tys IH]; intros acc bos requests bos' Hrun;
    cbn [foldl] in Hrun.
  { injection Hrun as <- <-. exists []. split; [by rewrite app_nil_r|constructor]. }
  destruct (emit_type settings (Ok (acc, bos)) ty) as [[acc1 bos1]|e] eqn:Hstep.
  2:{ rewrite foldl_Raise in Hrun; [done|]. intros b. apply emit_type_Raise. }
  apply IH in Hrun as (rest & -> & Hrest).
  assert (∃ segment, acc1 = acc ++ segment
                     ∧ segment_of buffer_settings offset bos ty segment bos1)
    as (segment & -> & Hsegment).
  { unfold segment_of, filed. rewrite Hsettings. cbn [mbind option_bind].
    unfold emit_type in Hstep.
    destruct (dict_get ty settings) as [[|r rs]|]; cbn [default].
    - injection Hstep as <- <-. exists []. split; [by rewrite app_nil_r|].
      destruct (opens_or_closes ty); [constructor|done].
    - destruct (opens_or_closes ty).
      + by apply emit_with_close_spec in Hstep.
      + cbn [mbind result_bind] in Hstep. injection Hstep as <- <-. eauto.
    - injection Hstep as <- <-. exists []. split; [by rewrite app_nil_r|].
      destruct (opens_or_closes ty); [constructor|done]. }
  exists (segment ++ rest). split; [by rewrite <- app_assoc|by econstructor].
Qed.

Lemma nonlifecycle_requests_in_type_order
    bos buffer_settings id_mapping offset request_types requests bos' :
  _collect_buffer_nonlifecycle_requests bos buffer_settings id_mapping offset
    request_types = Ok (requests, bos') →
  in_type_order buffer_settings offset bos request_types requests bos'.
Proof.
  unfold _collect_buffer_nonlifecycle_requests. intros Hrun.
  destruct (buffer_settings !! offset) as [settings|] eqn:Hsettings.
  - destruct settings as [|entry settings].
    + injection Hrun as <- <-. apply in_type_order_nothing_filed.
      intros ty. unfold filed. by rewrite Hsettings.
    + apply (emit_types_spec _ _ _ Hsettings) in Hrun as (rest & -> & Hrest).
      exact Hrest.
  - injection Hrun as <- <-. apply in_type_order_nothing_filed.
    intros ty. unfold filed. by rewrite Hsettings.
Qed.

Lemma allocated_id_of_request buffer_id buffer_ :
  allocated_ids [allocate_request buffer_id buffer_] = [buffer_id].
Proof.
  unfold allocate_request.
  destruct (file_path _); [destruct (channel_count _)|]; done.
Qed.

(** After the allocations, the buffers just allocated are closed and
    the others are as before. *)
Lemma allocate_requests_close bos id_mapping start_buffers requests bos' :
  _collect_buffer_allocate_requests bos id_mapping start_buffers = Ok (requests, bos') →
  ∀ i, bos' !! i = if decide (i ∈ allocated_ids requests) then Some false else bos !! i.
Proof.
  unfold _collect_buffer_allocate_requests. intros Hrun.
  refine (foldl_result_invariant _
            (fun s => ∀ i, s.2 !! i = if decide (i ∈ allocated_ids s.1)
                                      then Some false else bos !! i) _ _ _ _ _ Hrun _);
    [done| |].
  - intros [reqs b0] buffer_ [reqs' b1] Hstep Hinv. cbn [mbind result_bind] in Hstep.
    destruct (dict_item _ _) as [buffer_id|]; cbn [mbind result_bind] in Hstep; [|done].
    injection Hstep as <- <-. cbn [fst snd] in *. intros i.
    unfold allocated_ids in *. rewrite omap_app.
    fold (allocated_ids [allocate_request buffer_id buffer_]).
    rewrite allocated_id_of_request.
    destruct (decide (i = buffer_id)) as [->|Hne].
    + rewrite lookup_insert_eq. rewrite decide_True; [done|].
      apply elem_of_app. right. by left.
    + rewrite lookup_insert_ne by done. rewrite Hinv.
      destruct (decide (i ∈ omap _ reqs)) as [Hin|Hout].
      * rewrite decide_True; [done|]. apply elem_of_app. by left.
      * rewrite decide_False; [done|]. intros [Hin|Hin%list_elem_of_singleton]%elem_of_app;
          done.
  - intros i. cbn [fst snd]. rewrite decide_False; [done|]. by intros ?%elem_of_nil.
Qed.

(** A close among the frees is the close of a buffer that is open. *)
Lemma free_requests_close_open bos id_mapping stop_buffers requests bos' :
  _collect_buffer_free_requests bos id_mapping stop_buffers = Ok (requests, bos') →
  ∀ i, BufferCloseRequest i ∈ requests → bos !! i = Some true.
Proof.
  unfold _collect_buffer_free_requests. intros Hrun.
  refine (proj1 (foldl_result_invariant _
            (fun s => (∀ i, BufferCloseRequest i ∈ s.1 → bos !! i = Some true)
                      ∧ ∀ i b, s.2 !! i = Some b → bos !! i = Some b) _ _ _ _ _ Hrun _));
    [done| |].
  - intros [reqs b0] buffer_ [reqs' b1] Hstep [Hclose Hsub].
    cbn [mbind result_bind] in Hstep.
    destruct (dict_item _ _) as [buffer_id|]; cbn [mbind result_bind] in Hstep; [|done].
    destruct (b0 !! buffer_id) as [open_state|] eqn:Hopen;
      cbn [mbind result_bind of_option] in Hstep; [|done].
    injection Hstep as <- <-. cbn [fst snd] in *. split.
    + intros i [Hin|Hin%list_elem_of_singleton]%elem_of_app; [|done].
      destruct open_state; [|by apply Hclose].
      apply elem_of_app in Hin as [Hin|Hin%list_elem_of_singleton]; [by apply Hclose|].
      injection Hin as ->. by apply Hsub.
    + intros i b [_ Hi]%lookup_delete_Some. by apply Hsub.
  - cbn [fst snd]. split; [by intros i ?%elem_of_nil|done].
Qed.

(** *** What is filed under a type *)

Lemma filed_add_buffer_event event_type o event buffer_settings offset request_type :
  filed (add_buffer_event event_type o event buffer_settings) offset request_type
  = filed buffer_settings offset request_type
    ++ (if decide (o = offset ∧ event_type = request_type) then [event] else []).
Proof.
  unfold filed, add_buffer_event.
  destruct (decide (o = offset)) as [->|Hne].
  - rewrite lookup_insert_eq. cbn [mbind option_bind].
    destruct (decide (event_type = request_type)) as [->|Hty].
    + rewrite dict_get_set_eq. rewrite decide_True by done. cbn [default].
      by destruct (buffer_settings !! offset).
    + rewrite dict_get_set_ne by done. rewrite decide_False by (by intros [_ ?]).
      rewrite app_nil_r. by destruct (buffer_settings !! offset).
  - rewrite lookup_insert_ne by done. rewrite decide_False by (by intros [? _]).
    by rewrite app_nil_r.
Qed.

Lemma filed_foldl {A} (f : BufferSettings → A → BufferSettings) (g : A → list Request)
    offset request_type :
  (∀ buffer_settings a,
     filed (f buffer_settings a) offset request_type
     = filed buffer_settings offset request_type ++ g a) →
  ∀ l buffer_settings,
    filed (foldl f buffer_settings l) offset request_type
    = filed buffer_settings offset request_type ++ (l ≫= g).
Proof.
  intros Hstep l. induction l as [|a l IH]; intros buffer_settings; cbn [foldl].
  - by rewrite app_nil_r.
  - rewrite IH, Hstep. by rewrite <- app_assoc.
Qed.

Lemma collect_buffer_settings_filed self id_mapping buffer_settings :
  _collect_buffer_settings self id_mapping = Ok buffer_settings →
  ∃ buffers,
    buffers_by_id self id_mapping = Ok buffers
    ∧ ∀ offset request_type,
        filed buffer_settings offset request_type
        = recorded_under id_mapping offset request_type buffers.
Proof.
  unfold _collect_buffer_settings, buffers_by_id. intros Hrun.
  destruct (mapM _ _) as [keyed|]; cbn [mbind result_bind] in *; [|done].
  injection Hrun as <-. eexists. split; [done|]. intros offset request_type.
  unfold recorded_under.
  rewrite (filed_foldl _
             (fun entry : Z * (Buffer * BufferEvents) =>
                typed ← entry.2.2; ev ← typed.2;
                if decide (ev.1 = offset ∧ typed.1 = request_type)
                then [to_buffer_event typed.1 (resolve_payload id_mapping ev.2)]
                else [])).
  { unfold filed at 1. by rewrite lookup_empty. }
  intros bs1 entry.
  apply (filed_foldl _
           (fun typed : BufferRequestType * list (Offset * list (string * Value)) =>
              ev ← typed.2;
              if decide (ev.1 = offset ∧ typed.1 = request_type)
              then [to_buffer_event typed.1 (resolve_payload id_mapping ev.2)]
              else [])).
  intros bs2 typed.
  apply (filed_foldl _
           (fun ev : Offset * list (string * Value) =>
              if decide (ev.1 = offset ∧ typed.1 = request_type)
              then [to_buffer_event typed.1 (resolve_payload id_mapping ev.2)]
              else [])).
  intros bs3 ev. apply filed_add_buffer_event.
Qed.

Lemma dict_get_removed {V} (k : string) (d : list (string * V)) :
  dict_get k (dict_remove k d) = None.
Proof.
  unfold dict_remove. induction d as [|[k' v] d IH]; [done|].
  rewrite filter_cons. cbn [fst]. destruct (decide (k' ≠ k)) as [Hne|Heq]; [|done].
  cbn [dict_get]. by rewrite decide_False.
Qed.

Lemma to_buffer_event_filed_as request_type payload :
  filed_as request_type (to_buffer_event request_type payload).
Proof.
  unfold filed_as, to_buffer_event.
  destruct request_type; try (exists payload; left; split; [reflexivity|done]).
  destruct (dict_get "channel_indices"%string payload) as [v|] eqn:Hget.
  - destruct (decide (v = VNone)) as [->|Hv].
    + eexists. left. split; [reflexivity|]. intros _. apply dict_get_removed.
    + exists payload. right. split; [done|]. split; [by destruct v|]. eauto.
  - exists payload. left. split; [reflexivity|done].
Qed.

Lemma recorded_under_filed_as id_mapping offset request_type buffers :
  Forall (filed_as request_type) (recorded_under id_mapping offset request_type buffers).
Proof.
  apply Forall_forall. intros r Hr. unfold recorded_under in Hr.
  apply list_elem_of_bind in Hr as (entry & Hr & _).
  apply list_elem_of_bind in Hr as (typed & Hr & _).
  apply list_elem_of_bind in Hr as (ev & Hr & _).
  destruct (decide _) as [[_ <-]|]; [|by apply elem_of_nil in Hr].
  apply list_elem_of_singleton in Hr as ->. apply to_buffer_event_filed_as.
Qed.

Lemma collect_buffer_settings_of_buffers self self' id_mapping :
  _buffers self' = _buffers self →
  _collect_buffer_settings self' id_mapping = _collect_buffer_settings self id_mapping.
Proof. unfold _collect_buffer_settings. by intros ->. Qed.

Lemma requests_of_state_categories
    self bos buffer_settings bus_settings d id_mapping offset visited objects state
    requests bos' visited' :
  requests_of_state self bos buffer_settings bus_settings d id_mapping offset visited
    objects state = Ok (requests, bos', visited') →
  ∃ c1 c2 c3 c4 c5 c6 c7 c8 c9 opened2 opened3 opened8,
    requests = c1 ++ c2 ++ c3 ++ c4 ++ c5 ++ c6 ++ c7 ++ c8 ++ c9
    ∧ Forall is_synthdef_receive c1
    ∧ (Forall is_allocation c2
       ∧ ∀ i, opened2 !! i = if decide (i ∈ allocated_ids c2) then Some false
                             else bos !! i)
    ∧ in_type_order buffer_settings offset opened2
        _ordered_buffer_post_alloc_request_types c3 opened3
    ∧ Forall is_node_tree c4
    ∧ (Forall is_control_bus_set c5 ∧ (length c5 ≤ 1)%nat)
    ∧ Forall is_node_setting c6
    ∧ free_then_gate_off c7
    ∧ in_type_order buffer_settings offset opened3
        _ordered_buffer_pre_free_request_types c8 opened8
    ∧ (Forall is_close_or_free c9
       ∧ ∀ i, BufferCloseRequest i ∈ c9 → opened8 !! i = Some true).
Proof.
  unfold requests_of_state. intros Hrun.
  destruct objects as [[[start_buffers start_nodes] stop_buffers] stop_nodes].
  destruct (_collect_node_settings _ _ _ _) as [node_settings|];
    cbn [mbind result_bind] in Hrun; [|done].
  pose proof (synthdef_requests_category start_nodes visited) as H1.
  destruct (_collect_synthdef_requests start_nodes visited) as [c1 visited1].
  destruct (_collect_buffer_allocate_requests _ _ _) as [[c2 bos2]|] eqn:H2;
    cbn [mbind result_bind] in Hrun; [|done].
  destruct (_collect_buffer_nonlifecycle_requests bos2 _ _ _ _) as [[c3 bos3]|] eqn:H3;
    cbn [mbind result_bind] in Hrun; [|done].
  destruct (_collect_node_action_requests _ _ _ _ _) as [[c4 node_settings4]|] eqn:H4;
    cbn [mbind result_bind] in Hrun; [|done].
  destruct (_collect_node_set_requests _ _) as [c6|] eqn:H6;
    cbn [mbind result_bind] in Hrun; [|done].
  destruct (_collect_node_free_requests _ _) as [c7|] eqn:H7;
    cbn [mbind result_bind] in Hrun; [|done].
  destruct (_collect_buffer_nonlifecycle_requests bos3 _ _ _ _) as [[c8 bos8]|] eqn:H8;
    cbn [mbind result_bind] in Hrun; [|done].
  destruct (_collect_buffer_free_requests _ _ _) as [[c9 bos9]|] eqn:H9;
    cbn [mbind result_bind] in Hrun; [|done].
  injection Hrun as <- <- <-.
  exists c1, c2, c3, c4, (_collect_bus_set_requests bus_settings offset), c6, c7, c8, c9,
    bos2, bos3, bos8.
  split; [done|].
  split; [exact H1|].
  split; [split; [by eapply allocate_requests_category
                 |by eapply allocate_requests_close]|].
  split; [by eapply nonlifecycle_requests_in_type_order|].
  split; [by eapply node_action_requests_category|].
  split; [apply bus_set_requests_category|].
  split; [by eapply node_set_requests_category|].
  split; [by eapply node_free_requests_category|].
  split; [by eapply nonlifecycle_requests_in_type_order|].
  split; [by eapply free_requests_category|by eapply free_requests_close_open].
Qed.

(** C2, as amended.  The requests of one offset are nine consecutive
    runs, any of which may be empty: synthdef-receive requests; buffer
    allocations, which leave the allocated buffers closed; the buffer
    operations filed for this offset under the post-allocation types,
    type by type in the order read, read-channels, zero, fill,
    generate, set, set-contiguous, normalize, copy, where an operation
    filed under a reading type is preceded by a close of its buffer
    exactly when that buffer is open at its turn, and leaves it open or
    closed as its [leave_open] says; node-tree requests; at most one
    control-bus set; node set and map requests; the batched node free
    followed by the gate-offs; the operations filed under the pre-free
    type (write), likewise; buffer closes and frees, a close being that
    of an open buffer.  What is filed under a type, when the settings
    are those collected from the session, are the requests built for the
    events recorded under that type at the offset, buffer by buffer in
    the order of the ids: each is of the class of its type, except that
    a read recorded with a channel subset is a read-channels request,
    filed among the reads. *)
Theorem requests_follow_category_order
    bos buffer_settings bus_settings d id_mapping is_last_offset offset visited
    (self : Session.t) requests bos' visited' (self' : Session.t) :
  _collect_requests_at_offset bos buffer_settings bus_settings d id_mapping
    is_last_offset offset visited self = (Ok (requests, bos', visited'), self') →
  ∃ c1 c2 c3 c4 c5 c6 c7 c8 c9 opened2 opened3 opened8,
    requests = c1 ++ c2 ++ c3 ++ c4 ++ c5 ++ c6 ++ c7 ++ c8 ++ c9
    ∧ Forall is_synthdef_receive c1
    ∧ (Forall is_allocation c2
       ∧ ∀ i, opened2 !! i = if decide (i ∈ allocated_ids c2) then Some false
                             else bos !! i)
    ∧ in_type_order buffer_settings offset opened2
        _ordered_buffer_post_alloc_request_types c3 opened3
    ∧ Forall is_node_tree c4
    ∧ (Forall is_control_bus_set c5 ∧ (length c5 ≤ 1)%nat)
    ∧ Forall is_node_setting c6
    ∧ free_then_gate_off c7
    ∧ in_type_order buffer_settings offset opened3
        _ordered_buffer_pre_free_request_types c8 opened8
    ∧ (Forall is_close_or_free c9
       ∧ ∀ i, BufferCloseRequest i ∈ c9 → opened8 !! i = Some true)
    ∧ (_collect_buffer_settings self id_mapping = Ok buffer_settings →
       ∃ buffers,
         buffers_by_id self id_mapping = Ok buffers
         ∧ ∀ request_type,
             filed buffer_settings offset request_type
             = recorded_under id_mapping offset request_type buffers
             ∧ Forall (filed_as request_type)
                 (filed buffer_settings offset request_type)).
Proof.
  unfold _collect_requests_at_offset. intros Hrun. unfold bind at 1 in Hrun.
  destruct (_collect_durated_objects offset is_last_offset self)
    as [[objects|e] s1]; [|done].
  unfold bind at 1 in Hrun.
  destruct (_find_state_at offset true s1) as [[[state|]|e] s2]; [|done..].
  unfold bind, get, lift in Hrun. injection Hrun as Hrun <-.
  apply requests_of_state_categories in Hrun
    as (c1 & c2 & c3 & c4 & c5 & c6 & c7 & c8 & c9 & opened2 & opened3 & opened8
        & Hsplit & H1 & H2 & H3 & H4 & H5 & H6 & H7 & H8 & H9).
  exists c1, c2, c3, c4, c5, c6, c7, c8, c9, opened2, opened3, opened8.
  do 10 (split; [assumption|]).
  intros Hcollected.
  apply collect_buffer_settings_filed in Hcollected as (buffers & Hbuffers & Hfiled).
  exists buffers. split; [done|]. intros request_type.
  split; [apply Hfiled|]. rewrite Hfiled. apply recorded_under_filed_as.
Qed.
End Categories.

Lemma two_reads_settings_collected :
  Session._collect_buffer_settings Samples.two_reads Samples.two_reads_ids
  = Ok Samples.two_reads_settings.
Proof. vm_compute. reflexivity. Qed.

(** The buffer read twice: the second read follows a close. *)
Example read_twice_closes_before_second_read :
  (Session._to_non_xrefd_request_bundles (H := plain_collaborators) None read_twice).1
  = Ok [ {| contents := read_twice_first; timestamp := Finite 0 |};
         {| contents := [BufferFreeRequest 0; NothingRequest];
            timestamp := Finite 10 |} ].
Proof. vm_compute. reflexivity. Qed.

Lemma requests_follow_category_order_witness :
  Session._collect_buffer_settings read_twice read_twice_ids = Ok read_twice_settings
  ∧ Session._collect_requests_at_offset (H := plain_collaborators)
      ∅ read_twice_settings ∅ (Finite 10) read_twice_ids false
      (Finite 0) [] read_twice
    = (Ok (read_twice_first, {[ 0 := false ]}, []), read_twice)
  ∧ ∃ c1 c2 c3 c4 c5 c6 c7 c8 c9 opened2 opened3 opened8,
      read_twice_first = c1 ++ c2 ++ c3 ++ c4 ++ c5 ++ c6 ++ c7 ++ c8 ++ c9
      ∧ Forall is_synthdef_receive c1
      ∧ (Forall is_allocation c2
         ∧ ∀ i, opened2 !! i = if decide (i ∈ allocated_ids c2) then Some false
                               else (∅ : gmap Z bool) !! i)
      ∧ in_type_order read_twice_settings (Finite 0) opened2
          Session._ordered_buffer_post_alloc_request_types c3 opened3
      ∧ Forall is_node_tree c4
      ∧ (Forall is_control_bus_set c5 ∧ (length c5 ≤ 1)%nat)
      ∧ Forall is_node_setting c6
      ∧ free_then_gate_off c7
      ∧ in_type_order read_twice_settings (Finite 0) opened3
          Session._ordered_buffer_pre_free_request_types c8 opened8
      ∧ (Forall is_close_or_free c9
         ∧ ∀ i, BufferCloseRequest i ∈ c9 → opened8 !! i = Some true)
      ∧ ∃ buffers,
          buffers_by_id read_twice read_twice_ids = Ok buffers
          ∧ ∀ request_type,
              filed read_twice_settings (Finite 0) request_type
              = recorded_under read_twice_ids (Finite 0) request_type buffers
              ∧ Forall (filed_as request_type)
                  (filed read_twice_settings (Finite 0) request_type).
Proof.
  assert (Session._collect_buffer_settings read_twice read_twice_ids
          = Ok read_twice_settings) as Hcollected by (vm_compute; reflexivity).
  assert (Session._collect_requests_at_offset (H := plain_collaborators)
            ∅ read_twice_settings ∅ (Finite 10) read_twice_ids false
            (Finite 0) [] read_twice
          = (Ok (read_twice_first, {[ 0 := false ]}, []), read_twice)) as Hrun
    by (vm_compute; reflexivity).
  split; [exact Hcollected|]. split; [exact Hrun|].
  destruct (requests_follow_category_order (H := plain_collaborators)
              _ _ _ _ _ _ _ _ _ _ _ _ _ Hrun)
    as (c1 & c2 & c3 & c4 & c5 & c6 & c7 & c8 & c9 & opened2 & opened3 & opened8
        & Hsplit & H1 & H2 & H3 & H4 & H5 & H6 & H7 & H8 & H9 & Hfiled).
  exists c1, c2, c3, c4, c5, c6, c7, c8, c9, opened2, opened3, opened8.
  do 10 (split; [assumption|]). exact (Hfiled Hcollected).
Defined.

(** C2, as stated, fails: a read with a channel subset is filed under
    the read type and emitted there as a read-channels request, ahead of
    the plain read of the next buffer. *)
Lemma read_channels_request_precedes_read :
  Samples.two_reads_render.1
  = Ok [ {| contents := Samples.two_reads_first; timestamp := Finite 0 |};
         {| contents := [BufferFreeRequest 0; BufferFreeRequest 1; NothingRequest];
            timestamp := Finite 10 |} ]
  ∧ ¬ operations_in_class_order Samples.two_reads_first.
Proof.
  split; [vm_compute; reflexivity|].
  intros Horder.
  specialize (Horder 2%nat 3%nat BufferReadChannelRequest BufferReadRequest _ _
                ltac:(lia) eq_refl eq_refl).
  simpl in Horder. lia.
Qed.

(** * Further properties of the session and of the automation track *)

(** ** The automation track under Python's tuple order *)

Section TupleOrder.
Import Synth.

Lemma tuple_lt_spec p q : tuple_lt p q ↔ p.1 < q.1 ∨ (p.1 = q.1 ∧ p.2 < q.2).
Proof. unfold tuple_lt. apply tuple_ltb_spec. Qed.

Lemma tuple_sorted_ascending events :
  tuple_sorted events → ascending tuple_ltb events.
Proof.
  intros Hs i j u w Hij Hu Hw. apply tuple_ltb_false.
  destruct (decide (i = j)) as [->|Hne].
  - rewrite Hu in Hw. injection Hw as ->. lia.
  - assert (tuple_lt u w) as Hlt
      by (apply (StronglySorted_lookup_lt tuple_lt events Hs i j); auto; lia).
    apply tuple_lt_spec in Hlt. lia.
Qed.

(** The search splits a sorted track around the new breakpoint. *)
Lemma tuple_sorted_split events p :
  tuple_sorted events →
  let r := bisect_left tuple_ltb events p in
  (r ≤ length events)%nat
  ∧ Forall (fun u => tuple_lt u p) (take r events)
  ∧ Forall (fun u => tuple_ltb u p = false) (drop r events).
Proof.
  intros Hs. apply (bisect_left_split tuple_ltb tuple_ltb_neg_trans).
  by apply tuple_sorted_ascending.
Qed.

Lemma write_events_tuple_sorted events T v :
  tuple_sorted events →
  ∃ before replaced after,
    events = before ++ replaced ++ after
    ∧ (replaced = [] ∨ ∃ x, replaced = [(T, x)])
    ∧ write_events events T v = Ok (before ++ (T, v) :: after)
    ∧ tuple_sorted (before ++ (T, v) :: after).
Proof.
  intros Hsorted.
  destruct events as [|e es] eqn:Hevents.
  { exists [], [], []. repeat split; [by left|repeat constructor]. }
  assert (write_events events T v = insert_or_overwrite events T v) as Hwrite
    by (by rewrite Hevents).
  rewrite <- Hevents in *. rewrite Hwrite. unfold insert_or_overwrite.
  clear e es Hevents Hwrite.
  pose proof (tuple_sorted_split events (T, v) Hsorted) as (Hlen & Hbelow & Habove).
  set (r := bisect_left tuple_ltb events (T, v)) in *.
  destruct (Nat.leb_spec (length events) r) as [Hend|Hin].
  - assert (r = length events) as Hr by lia.
    rewrite Hr, list_lookup_middle by done. cbn [of_option mbind result_bind].
    rewrite Z.eqb_refl. rewrite Hr, firstn_all in Hbelow.
    exists events, [], []. split; [by rewrite !app_nil_r|]. split; [by left|].
    split.
    + f_equal. apply list_insert_id. by rewrite list_lookup_middle.
    + apply StronglySorted_app. split; [|split; [done|repeat constructor]].
      intros p q Hp [->|[]%elem_of_nil]%elem_of_cons.
      rewrite Forall_forall in Hbelow. by apply Hbelow.
  - destruct (lookup_lt_is_Some_2 events r Hin) as [[t0 x0] Hr].
    rewrite Hr. cbn [of_option mbind result_bind].
    pose proof Hsorted as Hsplit. rewrite <- (take_drop_middle _ _ _ Hr) in Hsplit.
    apply StronglySorted_app in Hsplit as (Hcross & Hs1 & Hs2).
    apply StronglySorted_cons in Hs2 as [Hlater Hs2].
    assert (tuple_ltb (t0, x0) (T, v) = false) as Hge.
    { rewrite Forall_forall in Habove. apply Habove.
      apply list_elem_of_lookup. exists 0%nat. by rewrite lookup_drop, Nat.add_0_r. }
    apply tuple_ltb_false in Hge. simpl in Hge.
    assert (Forall (tuple_lt (T, v)) (drop (S r) events)) as Hlater'.
    { eapply Forall_impl; [exact Hlater|]. intros p Hp.
      apply tuple_lt_spec in Hp. apply tuple_lt_spec. simpl in *. lia. }
    assert (∀ p q, p ∈ take r events → q ∈ (T, v) :: drop (S r) events → tuple_lt p q)
      as Hcross'.
    { intros p q Hp [->|Hq]%elem_of_cons.
      - rewrite Forall_forall in Hbelow. by apply Hbelow.
      - apply Hcross; [done|by right]. }
    destruct (Z.eqb_spec t0 T) as [->|Hne].
    + exists (take r events), [(T, x0)], (drop (S r) events).
      split; [by rewrite <- (take_drop_middle _ _ _ Hr) at 1|].
      split; [right; by eexists|]. split.
      * f_equal. by apply insert_take_drop.
      * apply StronglySorted_app. split; [done|]. split; [done|].
        by apply StronglySorted_cons.
    + exists (take r events), [], (drop r events).
      split; [cbn [app]; by rewrite take_drop|]. split; [by left|]. split; [done|].
      rewrite <- (take_drop_middle _ _ _ Hr) at 2.
      rewrite drop_app_length'; [|by rewrite length_take; lia].
      apply StronglySorted_app. split; [|split; [done|]].
      * intros p q Hp [->|Hq]%elem_of_cons.
        -- rewrite Forall_forall in Hbelow. by apply Hbelow.
        -- by apply Hcross.
      * apply StronglySorted_cons. split; [|by apply StronglySorted_cons].
        constructor.
        -- apply tuple_lt_spec. simpl. lia.
        -- done.
Qed.

(** X2.  Every write inside the interval of the synth keeps the
    breakpoint list of the parameter strictly ascending in Python's
    tuple order.  The list it leaves holds the new breakpoint, every
    earlier breakpoint at another time, and nothing else but earlier
    breakpoints; the lists of the other parameters are untouched. *)
Theorem write_keeps_tuple_order (self : Synth.t) (T : Z) (item : string) (v : Z) :
  let events := default [] (_events self !! item) in
  let time := T - start_offset self in
  tuple_sorted events →
  0 ≤ time →
  Offset_ltb (duration self) (Finite time) = false →
  ∃ self' events',
    _set_at_timestep self T item v = Ok self'
    ∧ _events self' !! item = Some events'
    ∧ tuple_sorted events'
    ∧ (time, v) ∈ events'
    ∧ (∀ p, p ∈ events → p.1 ≠ time → p ∈ events')
    ∧ (∀ p, p ∈ events' → p = (time, v) ∨ p ∈ events)
    ∧ (∀ item', item' ≠ item → _events self' !! item' = _events self !! item').
Proof.
  intros events time Hsorted Hpos Hinside.
  destruct (write_events_tuple_sorted events time v Hsorted)
    as (before & replaced & after & Hsplit & Hreplaced & Hwrite & Hsorted').
  unfold _set_at_timestep. fold time. fold events.
  destruct (Z.ltb_spec time 0) as [|_]; [lia|]. rewrite Hinside. cbn [orb].
  rewrite Hwrite. cbn [mbind result_bind].
  eexists _, _. split; [reflexivity|]. cbn [with_events _events].
  split; [by rewrite lookup_insert_eq|]. split; [done|].
  split; [apply elem_of_app; right; by left|]. split; [|split].
  - intros p Hp Hne. rewrite Hsplit in Hp.
    apply elem_of_app in Hp as [Hp|Hp]; [apply elem_of_app; by left|].
    apply elem_of_app in Hp as [Hp|Hp]; [|apply elem_of_app; right; by right].
    destruct Hreplaced as [->|[x ->]]; [by apply elem_of_nil in Hp|].
    apply list_elem_of_singleton in Hp. subst p. done.
  - intros p Hp. rewrite Hsplit.
    apply elem_of_app in Hp as [Hp|Hp]; [right; apply elem_of_app; by left|].
    apply elem_of_cons in Hp as [->|Hp]; [by left|].
    right. apply elem_of_app. right. apply elem_of_app. by right.
  - intros item' Hne. by rewrite lookup_insert_ne.
Qed.

(** X3.  On a breakpoint list that is ascending in tuple order, a read
    follows the step function of the track: it returns the value of a
    breakpoint at the latest breakpoint time not after the time read,
    and the creation-time default exactly when every breakpoint lies
    later. *)
Theorem read_returns_latest_breakpoint
    (self : Synth.t) (T' : Z) (item : string) (dflt : Z) :
  let events := default [] (_events self !! item) in
  let time := T' - start_offset self in
  default_of self item = Ok dflt →
  tuple_sorted events →
  ∃ v,
    _get_at_timestep self T' item = Ok v
    ∧ ((v = dflt ∧ Forall (fun p => time < p.1) events)
       ∨ ∃ t, (t, v) ∈ events ∧ t ≤ time
              ∧ Forall (fun p => p.1 ≤ time → p.1 ≤ t) events).
Proof.
  intros events time Hdefault Hsorted. unfold _get_at_timestep. rewrite Hdefault.
  cbn [mbind result_bind]. fold time. subst events.
  destruct (_events self !! item) as [[|e0 es]|];
    [exists dflt; split; [done|left; split; [done|constructor]]| |
     exists dflt; split; [done|left; split; [done|constructor]]].
  cbn [default] in *. set (L := e0 :: es) in *.
  assert (L ≠ []) as Hne by done. clearbody L. clear e0 es.
  pose proof (tuple_sorted_split L (time, 0) Hsorted) as (Hlen & Hbelow & Habove).
  unfold lookup_events. set (r := bisect_left tuple_ltb L (time, 0)) in *.
  assert (Forall (fun p => p.1 ≤ time) (take r L)) as Hbelow'.
  { eapply Forall_impl; [exact Hbelow|]. intros p Hp.
    apply tuple_lt_spec in Hp. simpl in Hp. lia. }
  assert (Forall (fun p => time ≤ p.1) (drop r L)) as Habove'.
  { eapply Forall_impl; [exact Habove|]. intros p Hp.
    apply tuple_ltb_false in Hp. simpl in Hp. lia. }
  (* what is found one step back, when the search did not stop at [time] *)
  assert (Forall (fun p => time < p.1) (drop r L) →
          ∃ v, match r with
               | O => Ok dflt
               | S index' => '(_, value) ← of_option IndexError (L !! index'); Ok value
               end = Ok v
               ∧ ((v = dflt ∧ Forall (fun p => time < p.1) L)
                  ∨ ∃ t, (t, v) ∈ L ∧ t ≤ time
                         ∧ Forall (fun p => p.1 ≤ time → p.1 ≤ t) L)) as Hback.
  { intros Hstrict. destruct r as [|k] eqn:Hr.
    - exists dflt. split; [done|]. left. split; [done|]. by rewrite drop_0 in Hstrict.
    - destruct (lookup_lt_is_Some_2 L k ltac:(lia)) as [[t x] Hk].
      rewrite Hk. cbn [of_option mbind result_bind]. exists x. split; [done|].
      right. exists t. split; [by eapply list_elem_of_lookup_2|].
      assert ((t, x) ∈ take (S k) L) as Hin
        by (apply elem_of_take; exists k; split; [done|lia]).
      split.
      { rewrite Forall_forall in Hbelow'. by apply (Hbelow' _ Hin). }
      rewrite <- (take_drop (S k) L). apply Forall_app. split.
      + apply Forall_forall. intros p Hp _.
        apply elem_of_take in Hp as (i & Hi & Hlt).
        destruct (decide (i = k)) as [->|Hik].
        * rewrite Hk in Hi. by injection Hi as <-.
        * assert (tuple_lt p (t, x)) as Hpt
            by (apply (StronglySorted_lookup_lt tuple_lt L Hsorted i k); auto; lia).
          apply tuple_lt_spec in Hpt. simpl in Hpt. lia.
      + eapply Forall_impl; [exact Hstrict|]. intros p Hp Hle. simpl in *. lia. }
  destruct (Nat.leb_spec (length L) r) as [Hend|Hin].
  - assert (r = length L) as Hr by lia.
    destruct (list_last L) as [[t x]|] eqn:Hlast.
    2:{ unfold list_last in Hlast. apply last_None in Hlast. done. }
    cbn [of_option mbind result_bind].
    unfold list_last in Hlast.
    assert ((t, x) ∈ L) as HinL.
    { rewrite last_lookup in Hlast. by eapply list_elem_of_lookup_2. }
    destruct (Z.eqb_spec t time) as [->|Hne'].
    + exists x. split; [done|]. right. exists time. split; [done|]. split; [lia|].
      apply Forall_forall. intros p _ Hp. done.
    + apply Hback. rewrite Hr, drop_all. constructor.
  - destruct (lookup_lt_is_Some_2 L r Hin) as [[t x] Hr].
    rewrite Hr. cbn [of_option mbind result_bind].
    assert ((t, x) ∈ L) as HinL by (by eapply list_elem_of_lookup_2).
    destruct (Z.eqb_spec t time) as [->|Hne'].
    + exists x. split; [done|]. right. exists time. split; [done|]. split; [lia|].
      apply Forall_forall. intros p _ Hp. done.
    + apply Hback.
      rewrite <- (take_drop_middle _ _ _ Hr) in Hsorted.
      apply StronglySorted_app in Hsorted as (_ & _ & Hs2).
      apply StronglySorted_cons in Hs2 as [Hlater _].
      rewrite (drop_S _ _ _ Hr) in Habove' |- *.
      apply Forall_cons in Habove' as [Ht _]. simpl in Ht.
      constructor; [simpl; lia|].
      eapply Forall_impl; [exact Hlater|]. intros p Hp.
      apply tuple_lt_spec in Hp. simpl in Hp. lia.
Qed.
End TupleOrder.

Lemma sine_track_sorted :
  tuple_sorted (default [] (Synth._events sine_with_track !! "frequency"%string)).
Proof.
  vm_compute. repeat first [apply SSorted_nil | apply SSorted_cons | constructor].
Qed.

Lemma write_keeps_tuple_order_witness :
  ∃ self' events',
    Synth._set_at_timestep sine_with_track 5 "frequency" 0 = Ok self'
    ∧ Synth._events self' !! "frequency"%string = Some events'
    ∧ tuple_sorted events'
    ∧ (5, 0) ∈ events'
    ∧ (2, 3) ∈ events'.
Proof.
  destruct (write_keeps_tuple_order sine_with_track 5 "frequency" 0)
    as (self' & events' & Hset & Hev & Hsorted & Hnew & Hkept & _).
  - exact sine_track_sorted.
  - vm_compute. discriminate.
  - reflexivity.
  - exists self', events'. repeat split; try done.
    apply Hkept; [|simpl; lia].
    vm_compute. constructor.
Defined.

Lemma read_returns_latest_breakpoint_witness :
  ∃ v, Synth._get_at_timestep sine_with_track 4 "frequency" = Ok v
       ∧ ((v = 440 ∧ Forall (fun p => 4 < p.1) [(2, 3); (5, 1)])
          ∨ ∃ t, (t, v) ∈ [(2, 3); (5, 1)] ∧ t ≤ 4
                 ∧ Forall (fun p => p.1 ≤ 4 → p.1 ≤ t) [(2, 3); (5, 1)]).
Proof.
  apply (read_returns_latest_breakpoint sine_with_track 4 "frequency" 440).
  - reflexivity.
  - exact sine_track_sorted.
Defined.

(** ** Neighbours in the offset index *)

Section BisectRightSpec.
Context {A : Type} (ltb : A → A → bool).
Hypothesis ltb_neg_trans :
  ∀ a b c, ltb a c = true → ltb a b = true ∨ ltb b c = true.

Lemma bisect_right_loop_spec fuel a x : ∀ lo hi,
  ascending ltb a →
  (lo ≤ hi ≤ length a)%nat →
  (hi - lo ≤ fuel)%nat →
  (∀ i u, (i < lo)%nat → a !! i = Some u → ltb x u = false) →
  (∀ i u, (hi ≤ i)%nat → a !! i = Some u → ltb x u = true) →
  let r := bisect_right_loop ltb fuel a x lo hi in
  (lo ≤ r ≤ hi)%nat
  ∧ (∀ i u, (i < r)%nat → a !! i = Some u → ltb x u = false)
  ∧ (∀ i u, (r ≤ i)%nat → a !! i = Some u → ltb x u = true).
Proof.
  induction fuel as [|fuel IH]; intros lo hi Hasc Hrange Hfuel Hbelow Habove;
    cbn [bisect_right_loop].
  - assert (hi = lo) as -> by lia. repeat split; auto; lia.
  - destruct (Nat.ltb_spec lo hi) as [Hlt|Hge].
    + pose proof (midpoint_bounds lo hi Hlt) as Hmid.
      set (mid := ((lo + hi) / 2)%nat) in *.
      destruct (lookup_lt_is_Some_2 a mid ltac:(lia)) as [y Hy].
      rewrite Hy. destruct (ltb x y) eqn:Hxy.
      * destruct (IH lo mid) as (Hr & Hlo & Hhi); auto; try lia.
        { intros i u Hi Hu.
          assert (ltb u y = false) as Huy by (apply (Hasc mid i y u); [lia|done..]).
          destruct (ltb_neg_trans x u y Hxy) as [Hc|Hc]; congruence. }
        repeat split; auto; lia.
      * destruct (IH (mid + 1)%nat hi) as (Hr & Hlo & Hhi); auto; try lia.
        { intros i u Hi Hu.
          assert (ltb y u = false) as Hyu by (apply (Hasc i mid u y); [lia|done..]).
          destruct (ltb x u) eqn:Hxu; [|done].
          destruct (ltb_neg_trans x y u Hxu) as [Hc|Hc]; congruence. }
        repeat split; auto; lia.
    + assert (hi = lo) as -> by lia. repeat split; auto; lia.
Qed.

(** On an ascending list [bisect_right] splits it into the elements
    not above [x] and those above. *)
Lemma bisect_right_split a x :
  ascending ltb a →
  let r := bisect_right ltb a x in
  (r ≤ length a)%nat
  ∧ Forall (fun u => ltb x u = false) (take r a)
  ∧ Forall (fun u => ltb x u = true) (drop r a).
Proof.
  intros Hasc r.
  destruct (bisect_right_loop_spec (length a) a x 0%nat (length a))
    as (Hr & Hlo & Hhi); auto; try lia.
  { intros i u Hi Hu. apply lookup_lt_Some in Hu. lia. }
  fold (bisect_right ltb a x) in Hr, Hlo, Hhi. fold r in Hr, Hlo, Hhi.
  split; [lia|]. split.
  - apply Forall_lookup_2. intros i u Hu.
    pose proof (lookup_lt_Some _ _ _ Hu) as Hlen. rewrite length_take in Hlen.
    rewrite lookup_take_lt in Hu by lia. apply (Hlo i); [lia|done].
  - apply Forall_lookup_2. intros i u Hu.
    rewrite lookup_drop in Hu. apply (Hhi (r + i)%nat); [lia|done].
Qed.
End BisectRightSpec.

Section Neighbours.
Context `{Collaborators}.
Import Session.

Lemma states_with_tree_snoc (self : Session.t) (l : list Offset) (o : Offset) state :
  states self !! o = Some state →
  states_with_tree self (l ++ [o])
  = states_with_tree self l
      ++ (if decide (is_Some (State.nodes_to_children state)) then [state] else []).
Proof.
  intros Hstate. unfold states_with_tree.
  rewrite omap_app, filter_app. f_equal. cbn. rewrite Hstate. done.
Qed.

(** The downward scan returns the last state with a tree among the
    first [n] offsets. *)
Lemma scan_for_tree_before_spec (self : Session.t) (n : nat) :
  (n ≤ length (offsets self))%nat →
  (∀ o, o ∈ offsets self → is_Some (states self !! o)) →
  scan_for_tree_before self n
  = Ok (last (states_with_tree self (take n (offsets self)))).
Proof.
  intros Hn Hreg. induction n as [|n IH]; [done|].
  cbn [scan_for_tree_before].
  destruct (lookup_lt_is_Some_2 (offsets self) n ltac:(lia)) as [o Ho].
  destruct (Hreg o ltac:(by eapply list_elem_of_lookup_2)) as [state Hstate].
  rewrite Ho. cbn [of_option mbind result_bind]. rewrite Hstate.
  cbn [of_option mbind result_bind].
  rewrite (take_S_r _ _ _ Ho), (states_with_tree_snoc self _ o state Hstate).
  destruct (State.nodes_to_children state) as [tree|] eqn:Htree.
  - rewrite decide_True by eauto. by rewrite last_snoc.
  - rewrite decide_False by (by intros [? ?]). rewrite app_nil_r. apply IH. lia.
Qed.

(** The upward scan returns the first state with a tree. *)
Lemma scan_for_tree_after_spec (self : Session.t) (l : list Offset) :
  (∀ o, o ∈ l → is_Some (states self !! o)) →
  scan_for_tree_after self l = Ok (head (states_with_tree self l)).
Proof.
  induction l as [|o l IH]; intros Hreg; [done|].
  cbn [scan_for_tree_after].
  destruct (Hreg o ltac:(by left)) as [state Hstate].
  rewrite Hstate. cbn [of_option mbind result_bind].
  unfold states_with_tree. cbn [omap list_omap]. rewrite Hstate. rewrite filter_cons.
  destruct (State.nodes_to_children state) as [tree|] eqn:Htree.
  - rewrite decide_True by eauto. done.
  - rewrite decide_False by (by intros [? ?]). apply IH.
    intros o' Ho'. apply Hreg. by right.
Qed.

(** X4.  On a well-formed index [_find_state_before] cuts the offset
    list at the given offset: it returns the state of the last offset
    strictly below it (none when there is no such offset), and with
    [with_node_tree] the last state below it that carries a node tree. *)
Theorem find_state_before_is_predecessor (self : Session.t) (offset : Offset) :
  timeline_ok self →
  ∃ before after,
    offsets self = before ++ after
    ∧ Forall (fun o => Offset_lt o offset) before
    ∧ Forall (fun o => Offset_le offset o) after
    ∧ _find_state_before self offset false
      = Ok (last before ≫= fun o => states self !! o)
    ∧ _find_state_before self offset true
      = Ok (last (states_with_tree self before)).
Proof.
  intros [Hsorted Hhead Hreg Hoff].
  pose proof (bisect_left_split Offset_ltb Offset_ltb_neg_trans (offsets self) offset
                (StronglySorted_lt_ascending _ Hsorted)) as (Hlen & Hbelow & Habove).
  set (r := bisect_left Offset_ltb (offsets self) offset) in *.
  exists (take r (offsets self)), (drop r (offsets self)).
  split; [by rewrite take_drop|]. split; [done|]. split.
  { eapply Forall_impl; [exact Habove|]. intros o Ho.
    unfold Offset_le, Offset_leb. by rewrite Ho. }
  assert (∀ o, o ∈ offsets self → is_Some (states self !! o)) as Hreg'
    by (intros o; apply Hreg).
  assert (∀ k, r = S k →
            ∃ o state, offsets self !! k = Some o ∧ states self !! o = Some state
                       ∧ last (take r (offsets self)) = Some o) as Hlast.
  { intros k Hk.
    destruct (lookup_lt_is_Some_2 (offsets self) k ltac:(lia)) as [o Ho].
    destruct (Hreg' o ltac:(by eapply list_elem_of_lookup_2)) as [state Hstate].
    exists o, state. repeat split; auto.
    rewrite Hk, (take_S_r _ _ _ Ho). by rewrite last_snoc. }
  unfold _find_state_before. fold r.
  destruct (decide (r = length (offsets self))) as [Hend|Hin].
  - destruct r as [|k] eqn:Hr.
    { destruct (offsets self); [done|]. simpl in Hend. lia. }
    destruct (Hlast k eq_refl) as (o & state & Ho & Hstate & Hl).
    cbn [mbind result_bind]. rewrite Ho. cbn [of_option mbind result_bind].
    assert (Offset_ltb o offset = true) as Hlt.
    { rewrite Forall_forall in Hbelow. apply Hbelow.
      apply elem_of_take. exists k. split; [done|lia]. }
    unfold Offset_leb. rewrite Hlt. cbn [negb].
    rewrite Ho. cbn [of_option mbind result_bind]. rewrite Hstate.
    cbn [of_option mbind result_bind]. rewrite Hl. cbn [mbind option_bind]. rewrite Hstate.
    split; [done|]. apply scan_for_tree_before_spec; [lia|done].
  - destruct (lookup_lt_is_Some_2 (offsets self) r ltac:(lia)) as [q Hq].
    cbn [mbind result_bind]. rewrite Hq. cbn [of_option mbind result_bind].
    assert (Offset_ltb q offset = false) as Hqlt.
    { rewrite Forall_forall in Habove. apply Habove.
      apply list_elem_of_lookup. exists 0%nat. by rewrite lookup_drop, Nat.add_0_r. }
    unfold Offset_leb. rewrite Hqlt. cbn [negb].
    destruct r as [|k] eqn:Hr; [done|].
    destruct (Hlast k eq_refl) as (o & state & Ho & Hstate & Hl).
    rewrite Ho. cbn [of_option mbind result_bind]. rewrite Hstate.
    cbn [of_option mbind result_bind]. rewrite Hl. cbn [mbind option_bind]. rewrite Hstate.
    split; [done|]. apply scan_for_tree_before_spec; [lia|done].
Qed.

(** X5.  On a well-formed index [_find_state_after] returns the state
    of the first offset strictly above the given one (none when there
    is no such offset), and with [with_node_tree] the first state above
    it that carries a node tree. *)
Theorem find_state_after_is_successor (self : Session.t) (offset : Offset) :
  timeline_ok self →
  ∃ before after,
    offsets self = before ++ after
    ∧ Forall (fun o => Offset_le o offset) before
    ∧ Forall (fun o => Offset_lt offset o) after
    ∧ _find_state_after self offset false
      = Ok (head after ≫= fun o => states self !! o)
    ∧ _find_state_after self offset true
      = Ok (head (states_with_tree self after)).
Proof.
  intros [Hsorted Hhead Hreg Hoff].
  pose proof (bisect_right_split Offset_ltb Offset_ltb_neg_trans (offsets self) offset
                (StronglySorted_lt_ascending _ Hsorted)) as (Hlen & Hbelow & Habove).
  set (r := bisect_right Offset_ltb (offsets self) offset) in *.
  exists (take r (offsets self)), (drop r (offsets self)).
  split; [by rewrite take_drop|]. split.
  { eapply Forall_impl; [exact Hbelow|]. intros o Ho.
    unfold Offset_le, Offset_leb. by rewrite Ho. }
  split; [done|].
  unfold _find_state_after. fold r. split.
  - rewrite head_lookup, lookup_drop, Nat.add_0_r.
    destruct (offsets self !! r) as [old_offset|] eqn:Hold; [|done].
    assert (Offset_ltb offset old_offset = true) as Hlt.
    { rewrite Forall_forall in Habove. apply Habove.
      apply list_elem_of_lookup. exists 0%nat. by rewrite lookup_drop, Nat.add_0_r. }
    rewrite Hlt.
    destruct (proj1 (Hreg old_offset)) as [state Hstate];
      [by eapply list_elem_of_lookup_2|].
    cbn. rewrite Hstate. done.
  - apply scan_for_tree_after_spec. intros o Ho. apply Hreg.
    by eapply subseteq_drop.
Qed.
End Neighbours.

Lemma scenario_a_ok : timeline_ok Samples.scenario_a.
Proof.
  split.
  - repeat constructor.
  - reflexivity.
  - intros o. cbn [Samples.scenario_a Samples.session Session.offsets Session.states].
    rewrite !elem_of_cons, elem_of_nil.
    rewrite !lookup_insert_is_Some, lookup_singleton_is_Some.
    split.
    + intros [->|[->|[->|[]]]]; [by left| |].
      * right. split; [done|]. by left.
      * right. split; [done|]. right. split; [done|reflexivity].
    + intros [<-|[_ [<-|[_ <-]]]]; [by left|by right; left|by right; right; left].
  - intros o state.
    cbn [Samples.scenario_a Samples.session Session.offsets Session.states].
    intros Hlook.
    apply lookup_insert_Some in Hlook as [[<- <-]|[_ Hlook]]; [done|].
    apply lookup_insert_Some in Hlook as [[<- <-]|[_ Hlook]]; [done|].
    apply lookup_singleton_Some in Hlook as [<- <-]. done.
Qed.

Lemma find_state_before_is_predecessor_witness :
  ∃ before after,
    Session.offsets Samples.scenario_a = before ++ after
    ∧ Forall (fun o => Offset_lt o (Finite 10)) before
    ∧ Forall (fun o => Session.Offset_le (Finite 10) o) after
    ∧ Session._find_state_before Samples.scenario_a (Finite 10) false
      = Ok (last before ≫= fun o => Session.states Samples.scenario_a !! o)
    ∧ Session._find_state_before Samples.scenario_a (Finite 10) true
      = Ok (last (states_with_tree Samples.scenario_a before)).
Proof.
  apply (find_state_before_is_predecessor Samples.scenario_a (Finite 10)).
  exact scenario_a_ok.
Defined.

Lemma find_state_after_is_successor_witness :
  ∃ before after,
    Session.offsets Samples.scenario_a = before ++ after
    ∧ Forall (fun o => Session.Offset_le o (Finite 0)) before
    ∧ Forall (fun o => Offset_lt (Finite 0) o) after
    ∧ Session._find_state_after Samples.scenario_a (Finite 0) false
      = Ok (head after ≫= fun o => Session.states Samples.scenario_a !! o)
    ∧ Session._find_state_after Samples.scenario_a (Finite 0) true
      = Ok (head (states_with_tree Samples.scenario_a after)).
Proof.
  apply (find_state_after_is_successor Samples.scenario_a (Finite 0)).
  exact scenario_a_ok.
Defined.

(** In scenario A the state after offset 0 is the one at 20, and the
    state before 20 the one at 0. *)
Example scenario_a_neighbours :
  Session._find_state_after Samples.scenario_a (Finite 0) false
  = Ok (Some Samples.scenario_a_stop)
  ∧ Session._find_state_before Samples.scenario_a (Finite 20) false
    = Ok (Some Samples.scenario_a_start).
Proof. split; vm_compute; reflexivity. Qed.

(** ** Adding and removing states *)

Section AddRemove.
Context `{Collaborators}.
Import Session.

Lemma with_timeline_id (self : Session.t) :
  with_timeline self (offsets self) (states self) = self.
Proof. by destruct self. Qed.

Lemma list_remove_first_middle {A} `{EqDecision A} (x : A) (l1 l2 : list A) :
  x ∉ l1 → list_remove_first x (l1 ++ x :: l2) = Some (l1 ++ l2).
Proof.
  induction l1 as [|y l1 IH]; intros Hnotin; cbn [app list_remove_first].
  - by rewrite decide_True.
  - apply not_elem_of_cons in Hnotin as [Hne Hnotin].
    rewrite decide_False by done. by rewrite IH.
Qed.

(** What [_add_state_at] does at a fresh offset of a well-formed index. *)
Lemma add_state_at_fresh (self : Session.t) (offset : Offset) :
  timeline_ok self →
  Offset_leb (Finite 0) offset = true →
  offset ∉ offsets self →
  ∃ k p state,
    offsets self !! k = Some p
    ∧ states self !! p = Some state
    ∧ states self !! offset = None
    ∧ Forall (fun o => Offset_lt o offset) (take (S k) (offsets self))
    ∧ Forall (fun o => Offset_lt offset o) (drop (S k) (offsets self))
    ∧ _add_state_at offset self
      = (Ok (State_clone state offset),
         with_timeline self
           (take (S k) (offsets self) ++ offset :: drop (S k) (offsets self))
           (<[offset := State_clone state offset]> (states self))).
Proof.
  intros Hok Hpos Hfresh.
  destruct (fresh_offset_position self offset Hok Hpos Hfresh)
    as (k & p & state & Hr & Hp & Hstate & Hfind & Hbelow & Habove).
  assert (states self !! offset = None) as Hnone.
  { apply eq_None_not_Some. intros Hsome.
    apply Hfresh. by apply (states_registered _ Hok). }
  pose proof (StronglySorted_lt_NoDup _ (offsets_sorted _ Hok)) as Hnodup.
  exists k, p, state. repeat split; auto.
  unfold _add_state_at, clone_and_insert. rewrite Hfind.
  cbn [with_timeline offsets states].
  rewrite (states_offset _ Hok _ _ Hstate).
  rewrite (list_index_lookup _ _ _ Hnodup Hp). done.
Qed.

Lemma insert_fresh_offset_ok (self : Session.t) (offset : Offset) (k : nat) state :
  timeline_ok self →
  (k < length (offsets self))%nat →
  State.offset state = offset →
  Forall (fun o => Offset_lt o offset) (take (S k) (offsets self)) →
  Forall (fun o => Offset_lt offset o) (drop (S k) (offsets self)) →
  timeline_ok
    (with_timeline self
       (take (S k) (offsets self) ++ offset :: drop (S k) (offsets self))
       (<[offset := state]> (states self))).
Proof.
  intros [Hsorted Hhead Hreg Hoff] Hk Hstate Hbelow Habove.
  split; cbn [with_timeline offsets states].
  - pose proof Hsorted as Hsplit. rewrite <- (take_drop (S k) (offsets self)) in Hsplit.
    apply StronglySorted_app in Hsplit as (Hcross & Hs1 & Hs2).
    apply StronglySorted_app. split; [|split; [done|by apply StronglySorted_cons]].
    intros x1 x2 Hx1 [->|Hx2]%elem_of_cons.
    + rewrite Forall_forall in Hbelow. by apply Hbelow.
    + by apply Hcross.
  - destruct (offsets self) as [|o l]; [simpl in Hk; lia|]. done.
  - intros o. rewrite lookup_insert_is_Some, <- Hreg.
    rewrite elem_of_app, elem_of_cons.
    assert (o ∈ offsets self ↔ o ∈ take (S k) (offsets self) ∨ o ∈ drop (S k) (offsets self))
      as -> by (by rewrite <- elem_of_app, take_drop).
    destruct (decide (offset = o)) as [->|Hne]; [tauto|].
    split; [intros [?|[?|?]]; [right|congruence|right]; tauto|].
    intros [?|[_ [?|?]]]; [congruence|tauto..].
  - intros o st Hlook.
    apply lookup_insert_Some in Hlook as [[<- <-]|[_ Hlook]]; [done|].
    by apply Hoff.
Qed.

(** One call of [at] on a well-formed index. *)
Lemma at_step_well_formed (self : Session.t) (offset : Offset) (propagate : bool) :
  clone_takes_offset →
  timeline_ok self →
  timeline_ok (at_ offset propagate self).2.
Proof.
  intros Hclone Hok. unfold at_.
  destruct (Offset_leb (Finite 0) offset) eqn:Hpos; cbn [negb]; [|done].
  unfold _find_state_at.
  destruct (states self !! offset) as [state|] eqn:Hstate.
  - destruct (decide _); done.
  - assert (offset ∉ offsets self) as Hfresh.
    { intros Hin. apply (states_registered _ Hok) in Hin as [? Hin]. congruence. }
    destruct (add_state_at_fresh self offset Hok Hpos Hfresh)
      as (k & p & state & Hp & _ & _ & Hbelow & Habove & ->).
    cbn [snd]. apply insert_fresh_offset_ok; auto.
    by eapply lookup_lt_Some.
Qed.

(** X6.  When clones carry the offset they are made for, a call of
    [at] leaves a well-formed index well-formed, whatever the offset
    and whether the call succeeds or fails: the offset list stays
    strictly ascending from minus infinity and the states stay
    registered under exactly the listed offsets.  No listed offset is
    lost, and the moment of a successful call is at the offset asked
    for and carries the state registered there. *)
Theorem at_keeps_the_index_well_formed
    (self : Session.t) (offset : Offset) (propagate : bool) :
  clone_takes_offset →
  timeline_ok self →
  timeline_ok (at_ offset propagate self).2
  ∧ (∀ o, o ∈ offsets self → o ∈ offsets (at_ offset propagate self).2)
  ∧ (∀ moment,
       (at_ offset propagate self).1 = Ok moment →
       moment_offset moment = offset
       ∧ states (at_ offset propagate self).2 !! offset = Some (moment_state moment)).
Proof.
  intros Hclone Hok. split; [by apply at_step_well_formed|].
  unfold at_.
  destruct (Offset_leb (Finite 0) offset) eqn:Hpos; cbn [negb]; [|by split].
  unfold _find_state_at.
  destruct (states self !! offset) as [state|] eqn:Hstate.
  - destruct (decide _); cbn [fst snd]; (split; [done|]); [|done].
    intros moment [= <-]. done.
  - assert (offset ∉ offsets self) as Hfresh.
    { intros Hin. apply (states_registered _ Hok) in Hin as [? Hin]. congruence. }
    destruct (add_state_at_fresh self offset Hok Hpos Hfresh)
      as (k & p & state & Hp & _ & _ & Hbelow & Habove & ->).
    cbn [fst snd with_timeline offsets states]. split.
    + intros o Ho. rewrite <- (take_drop (S k) (offsets self)) in Ho.
      apply elem_of_app in Ho as [Ho|Ho]; apply elem_of_app; [by left|].
      right. by right.
    + intros moment [= <-]. cbn [moment_offset moment_state].
      split; [done|]. by rewrite lookup_insert_eq.
Qed.

(** X7.  [_setup_initial_states] makes the index of a new session
    well-formed, and every series of [at] calls after it keeps it so. *)
Theorem sessions_built_by_at_are_well_formed (root : Node) (os : list Offset) :
  clone_takes_offset →
  timeline_ok (at_each os (_setup_initial_states (blank root)).2).
Proof.
  intros Hclone.
  assert (timeline_ok (_setup_initial_states (blank root)).2) as Hinit.
  { cbn [_setup_initial_states snd blank with_timeline offsets states app root_node].
    split; cbn [with_timeline offsets states].
    - repeat constructor.
    - reflexivity.
    - intros o. rewrite !elem_of_cons, elem_of_nil.
      rewrite !lookup_insert_is_Some, lookup_empty. split.
      + intros [->|[->|[]]]; [right; split; [done|by left]|by left].
      + intros [<-|[_ [<-|[_ []%is_Some_None]]]]; [by right; left|by left].
    - intros o state Hlook.
      apply lookup_insert_Some in Hlook as [[<- <-]|[_ Hlook]]; [apply Hclone|].
      apply lookup_insert_Some in Hlook as [[<- <-]|[_ Hlook]]; [done|].
      by rewrite lookup_empty in Hlook. }
  revert Hinit. generalize (_setup_initial_states (blank root)).2 as self.
  induction os as [|o os IH]; intros self Hok; [done|].
  cbn [at_each foldl]. apply IH. by apply at_step_well_formed.
Qed.

(** X8.  Adding a state at a fresh offset of a well-formed index and
    removing it again restores the session: the offset list and the
    states are those before the addition.  The removal of a state that
    is not sparse fails on its assertion and changes nothing, and the
    removal at an offset without a state returns nothing and changes
    nothing. *)
Theorem add_then_remove_restores_session
    (is_sparse : State.t → bool) (self : Session.t) (offset : Offset) :
  timeline_ok self →
  Offset_leb (Finite 0) offset = true →
  offset ∉ offsets self →
  ∃ state self1,
    _add_state_at offset self = (Ok state, self1)
    ∧ _remove_state_at is_sparse offset self1
      = (if is_sparse state then (Ok (Some state), self)
         else (Raise AssertionError, self1))
    ∧ _remove_state_at is_sparse offset self = (Ok None, self).
Proof.
  intros Hok Hpos Hfresh.
  destruct (add_state_at_fresh self offset Hok Hpos Hfresh)
    as (k & p & state & Hp & _ & Hnone & Hbelow & Habove & Hadd).
  eexists _, _. split; [exact Hadd|]. split.
  - unfold _remove_state_at, _find_state_at. cbn [with_timeline offsets states].
    rewrite lookup_insert_eq. destruct (is_sparse _); [|done].
    unfold with_timeline at 1. cbn [offsets].
    rewrite list_remove_first_middle.
    + unfold with_timeline. simpl.
      rewrite take_drop, delete_insert_id by done.
      by destruct self.
    + intros Hin. apply Hfresh. by eapply subseteq_take.
  - unfold _remove_state_at, _find_state_at. by rewrite Hnone.
Qed.
End AddRemove.

Lemma plain_clone_takes_offset : clone_takes_offset (H := plain_collaborators).
Proof. intros state offset. reflexivity. Qed.

Lemma at_keeps_the_index_well_formed_witness :
  timeline_ok
    (Session.at_ (H := plain_collaborators) (Finite 10) true Samples.scenario_a).2
  ∧ (∀ o, o ∈ Session.offsets Samples.scenario_a →
          o ∈ Session.offsets
                (Session.at_ (H := plain_collaborators) (Finite 10) true
                   Samples.scenario_a).2)
  ∧ (∀ moment,
       (Session.at_ (H := plain_collaborators) (Finite 10) true Samples.scenario_a).1
       = Ok moment →
       Session.moment_offset moment = Finite 10
       ∧ Session.states
           (Session.at_ (H := plain_collaborators) (Finite 10) true
              Samples.scenario_a).2 !! Finite 10
         = Some (Session.moment_state moment)).
Proof.
  apply (at_keeps_the_index_well_formed (H := plain_collaborators)).
  - exact plain_clone_takes_offset.
  - exact scenario_a_ok.
Defined.

Lemma sessions_built_by_at_are_well_formed_witness :
  timeline_ok
    (at_each (H := plain_collaborators) [Finite 5; Finite 2; Finite 5; Finite (-1)]
       (Session._setup_initial_states (H := plain_collaborators) (blank Samples.root)).2).
Proof.
  apply (sessions_built_by_at_are_well_formed (H := plain_collaborators)).
  exact plain_clone_takes_offset.
Defined.

(** The index after [at] at 5, 2, 5 and -1 on a new session. *)
Example offsets_after_four_moments :
  Session.offsets
    (at_each (H := plain_collaborators) [Finite 5; Finite 2; Finite 5; Finite (-1)]
       (Session._setup_initial_states (H := plain_collaborators) (blank Samples.root)).2)
  = [NegInf; Finite 0; Finite 2; Finite 5].
Proof. vm_compute. reflexivity. Qed.

Lemma add_then_remove_restores_session_witness :
  ∃ state self1,
    Session._add_state_at (H := plain_collaborators) (Finite 10) Samples.scenario_a
    = (Ok state, self1)
    ∧ Session._remove_state_at (H := plain_collaborators) (fun _ => true) (Finite 10) self1
      = (Ok (Some state), Samples.scenario_a)
    ∧ Session._remove_state_at (H := plain_collaborators) (fun _ => true) (Finite 10)
        Samples.scenario_a
      = (Ok None, Samples.scenario_a).
Proof.
  apply (add_then_remove_restores_session (H := plain_collaborators) (fun _ => true)
           Samples.scenario_a (Finite 10)).
  - exact scenario_a_ok.
  - reflexivity.
  - vm_compute. intros Hin.
    repeat (inversion Hin as [|? ? ? Hin']; subst; clear Hin; rename Hin' into Hin).
Defined.

(** ** Logical ids and the session duration *)

Section SessionIds.
Import Session.

Lemma issue_ids_counts (kinds : list string) :
  ∀ (ids : gmap string Z) (count : string → nat),
    (∀ k, default (first_id k) (ids !! k) = first_id k + Z.of_nat (count k)) →
    ∀ k, default (first_id k) (issue_ids kinds ids !! k)
         = first_id k + Z.of_nat (count k + calls_for k kinds).
Proof.
  induction kinds as [|kind kinds IH]; intros ids count Hcount k.
  { unfold calls_for. cbn. rewrite Nat.add_0_r. apply Hcount. }
  change (issue_ids (kind :: kinds) ids)
    with (issue_ids kinds (_get_next_session_id kind ids).2).
  rewrite (IH _ (fun k' => if decide (k' = kind) then S (count k') else count k')).
  - unfold calls_for. rewrite filter_cons.
    destruct (decide (kind = k)) as [->|Hne].
    + rewrite decide_True by done. cbn [length]. lia.
    + rewrite decide_False by done. lia.
  - intros k'. unfold _get_next_session_id. cbn [snd]. fold (first_id kind).
    destruct (decide (k' = kind)) as [->|Hne].
    + rewrite lookup_insert_eq. cbn [default]. rewrite Hcount. unfold id. lia.
    + rewrite lookup_insert_ne by done. apply Hcount.
Qed.

(** X9.  The logical ids of a kind count up one by one from the first
    id of the kind, 1000 for nodes and 0 for every other kind: after any
    series of calls on a new session, the next call for a kind returns
    the first id plus the number of earlier calls for that kind.  Calls
    for one kind leave the ids of the others alone. *)
Theorem session_ids_count_up (kinds : list string) (kind : string) :
  (_get_next_session_id kind (issue_ids kinds ∅)).1
  = first_id kind + Z.of_nat (calls_for kind kinds).
Proof.
  unfold _get_next_session_id. cbn [fst]. fold (first_id kind).
  rewrite (issue_ids_counts kinds ∅ (fun _ => 0%nat)).
  - done.
  - intros k. rewrite lookup_empty. cbn [default]. lia.
Qed.
End SessionIds.

(** The ids of three groups, a bus and a fourth node on a new session. *)
Example ids_of_a_new_session :
  (Session._get_next_session_id "node"
     (issue_ids ["node"; "node"; "bus"; "node"]%string ∅)).1 = 1003
  ∧ (Session._get_next_session_id "bus"
       (issue_ids ["node"; "node"; "bus"; "node"]%string ∅)).1 = 1.
Proof. split; vm_compute; reflexivity. Qed.


Section Duration.
Import Session.


End Duration.


(** With an infinite padding the session duration is infinite, and a
    render that is given no duration fails on the assertion. *)
Example infinite_padding_needs_a_duration :
  Session.duration padded_forever = PosInf
  ∧ Session._to_non_xrefd_request_bundles (H := plain_collaborators) None padded_forever
    = (Raise AssertionError, padded_forever).
Proof. split; vm_compute; reflexivity. Qed.

(** Scenario A lasts 20. *)
Example scenario_a_duration : Session.duration Samples.scenario_a = Finite 20.
Proof. vm_compute. reflexivity. Qed.

(** ** The ids of buses and buffers *)

Section BusIds.
Import Session.

Lemma dict_set_is_Some {K V} `{EqDecision K} (k k' : K) (v : V) d :
  is_Some (dict_get k d) → is_Some (dict_get k (dict_set k' v d)).
Proof.
  intros Hsome. destruct (decide (k' = k)) as [->|Hne].
  - rewrite dict_get_set_eq. eauto.
  - by rewrite dict_get_set_ne.
Qed.

Lemma dict_mem_false {K V} `{EqDecision K} (k : K) (d : list (K * V)) :
  dict_mem k d = false ↔ dict_get k d = None.
Proof. unfold dict_mem. destruct (dict_get k d); split; congruence. Qed.

Lemma dict_mem_true {K V} `{EqDecision K} (k : K) (d : list (K * V)) :
  dict_mem k d = true ↔ is_Some (dict_get k d).
Proof.
  unfold dict_mem. destruct (dict_get k d); split; try done; eauto.
Qed.

(** Enumerating a duplicate-free list of buses from [start]. *)
Lemma enumerate_buses_lookup (start : Z) (l : list Bus) : ∀ (m : IdMapping),
  NoDup l →
  let m' := foldl (fun m (ib : nat * Bus) => dict_set (OBus ib.2) (start + Z.of_nat ib.1) m)
              m (imap pair l) in
  (∀ i b, l !! i = Some b → dict_get (OBus b) m' = Some (start + Z.of_nat i))
  ∧ (∀ k, (∀ b, b ∈ l → k ≠ OBus b) → dict_get k m' = dict_get k m).
Proof.
  induction l as [|b l IH] using rev_ind; intros m Hnd; cbn zeta.
  { split; [done|]. intros k _. done. }
  apply NoDup_app in Hnd as (Hnd & Hdisj & _).
  rewrite imap_app, foldl_app. cbn [imap foldl fst snd]. rewrite Nat.add_0_r.
  destruct (IH m Hnd) as [IHin IHout]. split.
  - intros i b' Hi.
    destruct (decide (i = length l)) as [->|Hne].
    + rewrite list_lookup_middle in Hi by done. injection Hi as <-.
      by rewrite dict_get_set_eq.
    + assert (i < length l)%nat as Hlt.
      { apply lookup_lt_Some in Hi. rewrite length_app in Hi. simpl in Hi. lia. }
      rewrite lookup_app_l in Hi by done.
      rewrite dict_get_set_ne; [by apply IHin|].
      intros [= ->]. apply (Hdisj b'); [by eapply list_elem_of_lookup_2|by left].
  - intros k Hk. rewrite dict_get_set_ne.
    + apply IHout. intros b' Hb'. apply Hk. apply elem_of_app. by left.
    + intros <-. apply (Hk b); [|done]. apply elem_of_app. right. by left.
Qed.

Lemma bus_group_members_lookup g i :
  (i < bus_count g)%nat → bus_group_members g !! i = Some (MemberBus g i).
Proof.
  intros Hi. unfold bus_group_members. rewrite list_lookup_fmap.
  by rewrite lookup_seq_lt.
Qed.

Lemma bus_group_members_NoDup g : NoDup (bus_group_members g).
Proof.
  unfold bus_group_members. apply NoDup_fmap_2; [by intros i j [=]|apply NoDup_seq].
Qed.

Lemma elem_of_bus_group_members g b :
  b ∈ bus_group_members g → ∃ i, b = MemberBus g i.
Proof.
  unfold bus_group_members. intros (i & -> & _)%list_elem_of_fmap. by exists i.
Qed.

Lemma map_enumerated_member g start m i :
  (i < bus_count g)%nat →
  dict_get (OBus (MemberBus g i)) (map_enumerated g start m)
  = Some (start + Z.of_nat i).
Proof.
  intros Hi.
  destruct (enumerate_buses_lookup start (bus_group_members g) m
              (bus_group_members_NoDup g)) as [Hin _].
  apply Hin. by apply bus_group_members_lookup.
Qed.

Lemma map_enumerated_other g start m k :
  (∀ i, k ≠ OBus (MemberBus g i)) →
  dict_get k (map_enumerated g start m) = dict_get k m.
Proof.
  intros Hk.
  destruct (enumerate_buses_lookup start (bus_group_members g) m
              (bus_group_members_NoDup g)) as [_ Hout].
  apply Hout. intros b [i ->]%elem_of_bus_group_members. apply Hk.
Qed.

(** The hardware part only adds members of groups and groups. *)
Lemma map_hardware_group_lone count group first m m' sid rate :
  map_hardware_group count group first m = Ok m' →
  dict_get (OBus (LoneBus sid rate)) m' = dict_get (OBus (LoneBus sid rate)) m.
Proof.
  unfold map_hardware_group. destruct count; [by intros [= <-]|].
  destruct group as [g|]; [|done]. intros [= <-].
  rewrite map_enumerated_other by done. by rewrite dict_get_set_ne.
Qed.

Lemma repeat_set_preserves (bus : Bus) (block_id : Z) (l : list nat) : ∀ (m : IdMapping) k v,
  k ≠ OBus bus →
  dict_get k m = Some v →
  dict_get k (foldl (fun m i => dict_set (OBus bus) (block_id + Z.of_nat i) m) m l)
  = Some v.
Proof.
  induction l as [|i l IH]; intros m k v Hne Hk; cbn [foldl]; [done|].
  apply IH; [done|]. by rewrite dict_get_set_ne.
Qed.

Lemma repeat_set_other (bus : Bus) (block_id : Z) (l : list nat) : ∀ (m : IdMapping) k,
  k ≠ OBus bus →
  dict_get k (foldl (fun m i => dict_set (OBus bus) (block_id + Z.of_nat i) m) m l)
  = dict_get k m.
Proof.
  induction l as [|i l IH]; intros m k Hne; cbn [foldl]; [done|].
  rewrite IH by done. by rewrite dict_get_set_ne.
Qed.

(** The loop over the private buses never changes an id already
    given. *)
Lemma map_private_bus_preserves acc bus k v :
  dict_get k acc.1 = Some v →
  dict_get k (map_private_bus acc bus).1 = Some v.
Proof.
  destruct acc as [m [audio control]]. cbn [fst]. intros Hk.
  unfold map_private_bus.
  destruct (dict_mem (OBus bus) m) eqn:Hbus; cbn [orb]; [done|].
  apply dict_mem_false in Hbus.
  destruct (bus_group bus) as [g|] eqn:Hgroup.
  - destruct (dict_mem (OBusGroup g) m) eqn:Hg; [done|].
    apply dict_mem_false in Hg.
    cbn [allocate fst]. apply repeat_set_preserves; [congruence|].
    rewrite dict_get_set_ne; [done|congruence].
  - cbn [allocate fst]. rewrite dict_get_set_ne; [done|congruence].
Qed.

Lemma map_private_buses_preserve buses : ∀ acc k v,
  dict_get k acc.1 = Some v →
  dict_get k (foldl map_private_bus acc buses).1 = Some v.
Proof.
  induction buses as [|bus buses IH]; intros acc k v Hk; cbn [foldl]; [done|].
  apply IH. by apply map_private_bus_preserves.
Qed.

(** X11.  The hardware buses get the first ids: the audio outputs are
    numbered from zero and the audio inputs follow them, member by
    member, and each of the two groups is mapped to the id of its first
    member.  The loop over the private buses leaves these ids alone. *)
Theorem hardware_buses_are_numbered_first (self : Session.t) (mapping : IdMapping) :
  _build_id_mapping_for_buses self = Ok mapping →
  (∀ g i,
     _input_bus_channel_count self ≠ 0%nat →
     audio_input_bus_group self = Some g →
     (i < bus_count g)%nat →
     dict_get (OBusGroup g) mapping = Some (Z.of_nat (_output_bus_channel_count self))
     ∧ dict_get (OBus (MemberBus g i)) mapping
       = Some (Z.of_nat (_output_bus_channel_count self) + Z.of_nat i))
  ∧ (∀ g i,
     _output_bus_channel_count self ≠ 0%nat →
     audio_output_bus_group self = Some g →
     _input_bus_channel_count self = 0%nat ∨ audio_input_bus_group self ≠ Some g →
     (i < bus_count g)%nat →
     dict_get (OBusGroup g) mapping = Some 0
     ∧ dict_get (OBus (MemberBus g i)) mapping = Some (Z.of_nat i)).
Proof.
  unfold _build_id_mapping_for_buses. intros Hrun.
  destruct (map_hardware_group (_output_bus_channel_count self) _ 0 [])
    as [m1|] eqn:Hout; [|done].
  cbn [mbind result_bind] in Hrun.
  destruct (map_hardware_group (_input_bus_channel_count self) _ _ m1)
    as [m2|] eqn:Hin; [|done].
  cbn [mbind result_bind] in Hrun. injection Hrun as <-.
  split.
  - intros g i Hcount Hg Hi. unfold map_hardware_group in Hin.
    destruct (_input_bus_channel_count self) as [|n]; [done|].
    rewrite Hg in Hin. injection Hin as <-.
    split; apply map_private_buses_preserve; cbn [fst].
    + rewrite map_enumerated_other by done. by rewrite dict_get_set_eq.
    + by apply map_enumerated_member.
  - intros g i Hcount Hg Hdistinct Hi. unfold map_hardware_group in Hout.
    destruct (_output_bus_channel_count self) as [|n]; [done|].
    rewrite Hg in Hout. injection Hout as <-.
    assert (dict_get (OBusGroup g) (map_enumerated g 0 (dict_set (OBusGroup g) 0 []))
            = Some 0) as Hgroup.
    { rewrite map_enumerated_other by done. by rewrite dict_get_set_eq. }
    assert (dict_get (OBus (MemberBus g i))
              (map_enumerated g 0 (dict_set (OBusGroup g) 0 []))
            = Some (Z.of_nat i)) as Hmember.
    { by rewrite map_enumerated_member. }
    unfold map_hardware_group in Hin.
    split; apply map_private_buses_preserve; cbn [fst].
    + destruct (_input_bus_channel_count self) as [|n']; [by injection Hin as <-|].
      destruct (audio_input_bus_group self) as [g'|]; [|done]. injection Hin as <-.
      destruct Hdistinct as [?|Hne]; [done|].
      rewrite map_enumerated_other by done.
      rewrite dict_get_set_ne; [done|congruence].
    + destruct (_input_bus_channel_count self) as [|n']; [by injection Hin as <-|].
      destruct (audio_input_bus_group self) as [g'|]; [|done]. injection Hin as <-.
      destruct Hdistinct as [?|Hne]; [done|].
      rewrite map_enumerated_other by congruence.
      rewrite dict_get_set_ne; [done|congruence].
Qed.

Lemma map_private_bus_lone_ids first_private acc bus :
  lone_ids_ok first_private acc →
  lone_ids_ok first_private (map_private_bus acc bus)
  ∧ (bus_group bus = None → is_Some (dict_get (OBus bus) (map_private_bus acc bus).1)).
Proof.
  destruct acc as [m [audio control]]. intros [Ha Hc Hd Hfa Hfc]. cbn [fst snd] in *.
  unfold map_private_bus.
  destruct (dict_mem (OBus bus) m) eqn:Hbus; cbn [orb].
  { split; [by split|]. intros _. by apply dict_mem_true. }
  apply dict_mem_false in Hbus.
  destruct bus as [sid0 rate0|g i]; cbn [bus_group calculation_rate] in *.
  - (* a bus on its own: one id from the allocator of its rate *)
    destruct rate0; cbn [allocate fst snd next_free];
      (split; [|intros _; rewrite dict_get_set_eq; eauto]);
      split; cbn [fst snd next_free].
    + intros sid id. destruct (decide (sid = sid0)) as [->|Hne].
      * rewrite dict_get_set_eq. intros [= <-]. lia.
      * rewrite dict_get_set_ne by congruence. intros Hk. specialize (Ha _ _ Hk). lia.
    + intros sid id. rewrite dict_get_set_ne by congruence. apply Hc.
    + intros sid sid' rate id.
      destruct (decide (rate = AUDIO)) as [->|Hrate];
        [|rewrite !dict_get_set_ne by congruence; apply Hd].
      destruct (decide (sid = sid0)) as [->|Hne];
        destruct (decide (sid' = sid0)) as [->|Hne']; [done| | |].
      * rewrite dict_get_set_eq, dict_get_set_ne by congruence.
        intros [= <-] Hk. specialize (Ha _ _ Hk). lia.
      * rewrite dict_get_set_ne, dict_get_set_eq by congruence.
        intros Hk [= <-]. specialize (Ha _ _ Hk). lia.
      * rewrite !dict_get_set_ne by congruence. apply Hd.
    + lia.
    + done.
    + intros sid id. rewrite dict_get_set_ne by congruence. apply Ha.
    + intros sid id. destruct (decide (sid = sid0)) as [->|Hne].
      * rewrite dict_get_set_eq. intros [= <-]. lia.
      * rewrite dict_get_set_ne by congruence. intros Hk. specialize (Hc _ _ Hk). lia.
    + intros sid sid' rate id.
      destruct (decide (rate = CONTROL)) as [->|Hrate];
        [|rewrite !dict_get_set_ne by congruence; apply Hd].
      destruct (decide (sid = sid0)) as [->|Hne];
        destruct (decide (sid' = sid0)) as [->|Hne']; [done| | |].
      * rewrite dict_get_set_eq, dict_get_set_ne by congruence.
        intros [= <-] Hk. specialize (Hc _ _ Hk). lia.
      * rewrite dict_get_set_ne, dict_get_set_eq by congruence.
        intros Hk [= <-]. specialize (Hc _ _ Hk). lia.
      * rewrite !dict_get_set_ne by congruence. apply Hd.
    + done.
    + lia.
  - (* a member of a group: a block for the group *)
    split; [|done].
    destruct (dict_mem (OBusGroup g) m) eqn:Hg; [by split|].
    cbn [allocate].
    assert (∀ sid rate,
              dict_get (OBus (LoneBus sid rate))
                (foldl (fun m j => dict_set (OBus (MemberBus g i))
                                     (match bus_group_calculation_rate g with
                                      | AUDIO => next_free audio
                                      | CONTROL => next_free control
                                      end + Z.of_nat j) m)
                   (dict_set (OBusGroup g)
                      (match bus_group_calculation_rate g with
                       | AUDIO => next_free audio
                       | CONTROL => next_free control
                       end) m)
                   (seq 0 (bus_count g)))
              = dict_get (OBus (LoneBus sid rate)) m) as Hsame.
    { intros sid rate. rewrite repeat_set_other by done. by rewrite dict_get_set_ne. }
    destruct (bus_group_calculation_rate g); split; cbn [fst snd next_free].
    + intros sid id. rewrite Hsame. intros Hk. specialize (Ha _ _ Hk). lia.
    + intros sid id. rewrite Hsame. apply Hc.
    + intros sid sid' rate id. rewrite !Hsame. apply Hd.
    + lia.
    + done.
    + intros sid id. rewrite Hsame. apply Ha.
    + intros sid id. rewrite Hsame. intros Hk. specialize (Hc _ _ Hk). lia.
    + intros sid sid' rate id. rewrite !Hsame. apply Hd.
    + done.
    + lia.
Qed.

Lemma map_private_buses_lone_ids first_private buses : ∀ acc,
  lone_ids_ok first_private acc →
  lone_ids_ok first_private (foldl map_private_bus acc buses)
  ∧ ∀ bus, bus ∈ buses → bus_group bus = None →
           is_Some (dict_get (OBus bus) (foldl map_private_bus acc buses).1).
Proof.
  induction buses as [|bus buses IH]; intros acc Hok; cbn [foldl].
  { split; [done|]. intros bus []%elem_of_nil. }
  destruct (map_private_bus_lone_ids first_private acc bus Hok) as [Hok1 Hbus].
  destruct (IH _ Hok1) as [Hok2 Hrest]. split; [done|].
  intros b [->|Hb]%elem_of_cons Hlone; [|by apply Hrest].
  destruct (Hbus Hlone) as [id Hid]. exists id.
  by apply map_private_buses_preserve.
Qed.

(** X12.  Every bus outside a group that the session holds gets an id
    of its own: an audio bus at or above the first private id (the
    number of hardware channels), a control bus at or above zero, and
    no two such buses of one rate share an id. *)
Theorem lone_buses_get_private_ids (self : Session.t) (mapping : IdMapping) :
  _build_id_mapping_for_buses self = Ok mapping →
  (∀ sid rate,
     LoneBus sid rate ∈ (_buses self).*1 →
     ∃ id, dict_get (OBus (LoneBus sid rate)) mapping = Some id
           ∧ match rate with
             | AUDIO =>
               Z.of_nat (_input_bus_channel_count self + _output_bus_channel_count self)
               ≤ id
             | CONTROL => 0 ≤ id
             end)
  ∧ (∀ sid sid' rate id,
       dict_get (OBus (LoneBus sid rate)) mapping = Some id →
       dict_get (OBus (LoneBus sid' rate)) mapping = Some id →
       sid = sid').
Proof.
  unfold _build_id_mapping_for_buses. intros Hrun.
  destruct (map_hardware_group (_output_bus_channel_count self) _ 0 [])
    as [m1|] eqn:Hout; [|done].
  cbn [mbind result_bind] in Hrun.
  destruct (map_hardware_group (_input_bus_channel_count self) _ _ m1)
    as [m2|] eqn:Hin; [|done].
  cbn [mbind result_bind] in Hrun. injection Hrun as <-.
  set (first_private :=
         Z.of_nat (_input_bus_channel_count self + _output_bus_channel_count self)).
  assert (∀ sid rate, dict_get (OBus (LoneBus sid rate)) m2 = None) as Hnone.
  { intros sid rate.
    rewrite (map_hardware_group_lone _ _ _ _ _ sid rate Hin).
    by rewrite (map_hardware_group_lone _ _ _ _ _ sid rate Hout). }
  destruct (map_private_buses_lone_ids first_private (_buses self).*1
              (m2, ({| next_free := first_private |}, {| next_free := 0 |})))
    as [[Ha Hc Hd _ _] Hcover].
  { split; cbn [fst snd next_free]; try lia.
    - intros sid id. by rewrite Hnone.
    - intros sid id. by rewrite Hnone.
    - intros sid sid' rate id. by rewrite Hnone. }
  split; [|exact Hd].
  intros sid rate Hbus. destruct (Hcover _ Hbus eq_refl) as [id Hid].
  exists id. split; [done|]. destruct rate.
  - apply (Ha _ _ Hid).
  - apply (Hc _ _ Hid).
Qed.
End BusIds.

Lemma hardware_buses_are_numbered_first_witness :
  ∃ mapping,
    Session._build_id_mapping_for_buses Samples.with_hardware = Ok mapping
    ∧ dict_get (OBus (MemberBus Samples.inputs 0)) mapping = Some 2
    ∧ dict_get (OBus (MemberBus Samples.outputs 1)) mapping = Some 1.
Proof.
  eexists. split; [vm_compute; reflexivity|].
  match goal with
  | |- dict_get _ ?m = _ ∧ _ =>
    destruct (hardware_buses_are_numbered_first Samples.with_hardware m) as [Hin Hout];
      [vm_compute; reflexivity|]
  end.
  split.
  - apply (Hin Samples.inputs 0%nat); [done|reflexivity|cbn; lia].
  - apply (Hout Samples.outputs 1%nat); [done|reflexivity|by right|cbn; lia].
Defined.

Lemma lone_buses_get_private_ids_witness :
  ∃ mapping,
    Session._build_id_mapping_for_buses with_lone_buses = Ok mapping
    ∧ ∃ id, dict_get (OBus (LoneBus 1 AUDIO)) mapping = Some id ∧ 3 ≤ id.
Proof.
  eexists. split; [vm_compute; reflexivity|].
  match goal with
  | |- ∃ id, dict_get _ ?m = _ ∧ _ =>
    destruct (lone_buses_get_private_ids with_lone_buses m) as [Hcover _];
      [vm_compute; reflexivity|]
  end.
  apply (Hcover 1 AUDIO). vm_compute. do 1 constructor. constructor.
Defined.

(** The three buses outside groups: control 0 and 1, audio 3. *)
Example lone_buses_are_numbered_by_rate :
  Session._build_id_mapping_for_buses with_lone_buses
  = Ok [ (OBusGroup Samples.outputs, 0);
         (OBus (MemberBus Samples.outputs 0), 0);
         (OBus (MemberBus Samples.outputs 1), 1);
         (OBusGroup Samples.inputs, 2);
         (OBus (MemberBus Samples.inputs 0), 2);
         (OBus (LoneBus 0 CONTROL), 0);
         (OBus (LoneBus 1 AUDIO), 3);
         (OBus (LoneBus 2 CONTROL), 1) ].
Proof. vm_compute. reflexivity. Qed.

Section BufferIds.
Import Session.

Lemma set_children_spec (children : list Buffer) : ∀ (m : IdMapping),
  let m' := foldl (fun m child => dict_set (OBuffer child)
                                    (buffer_session_id (buffer_data child)) m)
              m children in
  (∀ k, is_Some (dict_get k m) → is_Some (dict_get k m'))
  ∧ (∀ c, c ∈ children → is_Some (dict_get (OBuffer c) m'))
  ∧ (∀ k, (∀ c, c ∈ children → k ≠ OBuffer c) → dict_get k m' = dict_get k m).
Proof.
  induction children as [|c children IH]; intros m; cbn [foldl]; cbn zeta.
  { split; [done|]. split; [by intros c []%elem_of_nil|done]. }
  destruct (IH (dict_set (OBuffer c) (buffer_session_id (buffer_data c)) m))
    as (Hmono & Hin & Hout).
  split; [|split].
  - intros k Hk. apply Hmono. by apply dict_set_is_Some.
  - intros c' [->|Hc']%elem_of_cons; [|by apply Hin].
    apply Hmono. rewrite dict_get_set_eq. eauto.
  - intros k Hk. rewrite Hout.
    + rewrite dict_get_set_ne; [done|]. intros <-. apply (Hk c); [by left|done].
    + intros c' Hc'. apply Hk. by right.
Qed.

Lemma elem_of_buffer_group_buffers g b :
  b ∈ buffer_group_buffers g → buffer_group b = Some g.
Proof.
  unfold buffer_group_buffers. by intros (d & -> & _)%list_elem_of_fmap.
Qed.

Lemma groups_mapped_set_lone b i mapping :
  buffer_group b = None →
  groups_mapped mapping → groups_mapped (dict_set (OBuffer b) i mapping).
Proof.
  intros Hlone Hok b' g j Hg. destruct (decide (b = b')) as [->|Hne]; [congruence|].
  rewrite dict_get_set_ne by congruence. intros Hb'.
  destruct (Hok b' g j Hg Hb') as (first & Hfirst & Hgroup).
  exists first. split; [done|]. by rewrite dict_get_set_ne.
Qed.

Lemma groups_mapped_set_group g first mapping :
  buffer_group_buffers g !! 0%nat = Some first →
  groups_mapped mapping →
  groups_mapped
    (foldl (fun m child => dict_set (OBuffer child)
                             (buffer_session_id (buffer_data child)) m)
       (dict_set (OBufferGroup g) (buffer_session_id (buffer_data first)) mapping)
       (buffer_group_buffers g)).
Proof.
  intros Hfirst Hok b g' j Hg' Hb.
  destruct (set_children_spec (buffer_group_buffers g)
              (dict_set (OBufferGroup g) (buffer_session_id (buffer_data first)) mapping))
    as (_ & _ & Hout).
  cbn zeta in Hout.
  destruct (decide (g' = g)) as [->|Hne].
  - exists first. split; [done|]. rewrite Hout by done. by rewrite dict_get_set_eq.
  - rewrite Hout in Hb.
    2:{ intros c Hc [= ->]. apply elem_of_buffer_group_buffers in Hc. congruence. }
    rewrite dict_get_set_ne in Hb by done.
    destruct (Hok b g' j Hg' Hb) as (first' & Hfirst' & Hgroup).
    exists first'. split; [done|]. rewrite Hout by done.
    rewrite dict_get_set_ne; [done|congruence].
Qed.

Lemma build_buffers_covers entries : ∀ (m0 m : IdMapping),
  foldl
    (fun acc (entry : Buffer * BufferEvents) =>
       mapping ← acc;
       let buffer_ : Buffer := entry.1 in
       if dict_mem (OBuffer buffer_) mapping then Ok mapping
       else
         match buffer_group buffer_ with
         | None =>
           Ok (dict_set (OBuffer buffer_)
                 (buffer_session_id (buffer_data buffer_)) mapping)
         | Some group =>
           first ← of_option IndexError (buffer_group_buffers group !! O);
           let initial_id := buffer_session_id (buffer_data first) in
           let mapping := dict_set (OBufferGroup group) initial_id mapping in
           Ok (foldl
                 (fun m child =>
                    dict_set (OBuffer child)
                      (buffer_session_id (buffer_data child)) m)
                 mapping (buffer_group_buffers group))
         end)
    (Ok m0) entries = Ok m →
  groups_mapped m0 →
  groups_mapped m
  ∧ (∀ k, is_Some (dict_get k m0) → is_Some (dict_get k m))
  ∧ (∀ b, b ∈ entries.*1 → grouped_ok b → is_Some (dict_get (OBuffer b) m)).
Proof.
  match goal with |- context [foldl ?f] => set (step := f) end.
  induction entries as [|[b events] entries IH]; intros m0 m Hrun Hok;
    cbn [foldl] in Hrun.
  { injection Hrun as <-. split; [done|]. split; [done|]. by intros b []%elem_of_nil. }
  destruct (step (Ok m0) (b, events)) as [m1|e] eqn:Hone;
    [|rewrite foldl_Raise in Hrun; done].
  destruct (IH m1 m Hrun) as (Hok' & Hmono' & Hcover').
  - (* the group rule after one turn *)
    unfold step in Hone. cbn [mbind result_bind fst] in Hone.
    destruct (dict_mem (OBuffer b) m0); [by injection Hone as <-|].
    destruct (buffer_group b) as [group|] eqn:Hgroup.
    + destruct (buffer_group_buffers group !! 0%nat) as [first|] eqn:Hfirst;
        cbn [mbind result_bind of_option] in Hone; [|done].
      injection Hone as <-. by apply groups_mapped_set_group.
    + injection Hone as <-. by apply groups_mapped_set_lone.
  - assert ((∀ k, is_Some (dict_get k m0) → is_Some (dict_get k m1))
            ∧ (grouped_ok b → is_Some (dict_get (OBuffer b) m1))) as [Hmono1 Hb1].
    { unfold step in Hone. cbn [mbind result_bind fst] in Hone.
      destruct (dict_mem (OBuffer b) m0) eqn:Hmem.
      { injection Hone as <-. split; [done|]. intros _. by apply dict_mem_true. }
      destruct (buffer_group b) as [group|] eqn:Hgroup.
      - destruct (buffer_group_buffers group !! 0%nat) as [first|] eqn:Hfirst;
          cbn [mbind result_bind of_option] in Hone; [|done].
        injection Hone as <-.
        destruct (set_children_spec (buffer_group_buffers group)
                    (dict_set (OBufferGroup group)
                       (buffer_session_id (buffer_data first)) m0))
          as (Hmono & Hin & _).
        cbn zeta in Hmono, Hin. split.
        + intros k Hk. apply Hmono. by apply dict_set_is_Some.
        + intros Hgrouped. apply Hin. by apply Hgrouped.
      - injection Hone as <-. split.
        + intros k Hk. by apply dict_set_is_Some.
        + intros _. rewrite dict_get_set_eq. eauto. }
    split; [done|]. split; [by intros k Hk; apply Hmono', Hmono1|].
    intros b' Hb' Hgrouped. cbn [fmap list_fmap fst] in Hb'.
    apply elem_of_cons in Hb' as [->|Hb']; [|by apply Hcover'].
    by apply Hmono', Hb1.
Qed.

(** X13.  Every buffer that the session holds, and that its group lists
    when it has one, is mapped to its own logical id, and the group of
    a grouped buffer is mapped to the logical id of the first buffer of
    the group. *)
Theorem buffers_are_mapped_to_their_ids (self : Session.t) (mapping : IdMapping) :
  _build_id_mapping_for_buffers self = Ok mapping →
  ∀ b, b ∈ (_buffers self).*1 → grouped_ok b →
    dict_get (OBuffer b) mapping = Some (buffer_key b)
    ∧ ∀ g, buffer_group b = Some g →
           ∃ first, head (buffer_group_buffers g) = Some first
                    ∧ dict_get (OBufferGroup g) mapping = Some (buffer_key first).
Proof.
  intros Hrun b Hb Hgrouped.
  pose proof (build_id_mapping_for_buffers_ids self mapping Hrun) as Hids.
  unfold _build_id_mapping_for_buffers in Hrun.
  apply build_buffers_covers in Hrun as (Hgroups & _ & Hcover).
  2:{ intros b' g i _ Hb'. done. }
  destruct (Hcover b Hb Hgrouped) as [i Hi].
  pose proof (Hids b i Hi) as ->. split; [done|].
  intros g Hg. destruct (Hgroups b g _ Hg Hi) as (first & Hfirst & Hgroup).
  exists first. split; [|done]. by rewrite head_lookup.
Qed.
End BufferIds.

Section TruncationIds.
Context `{Collaborators}.
Import Session.

(** C5.  Ids do not depend on how far a session is rendered.  Every
    node that starts at a listed offset is assigned its own logical
    session id, the root is assigned 0 (as long as it is in no start
    set), and every buffer that the session holds is assigned its own
    logical session id; no other id is given to a node or a buffer.
    After a render, truncated at whatever duration, the buffers are
    mapped as before, every node that starts at a listed offset is
    again assigned its logical session id, and every node that had an
    id keeps it in the next build. *)
Theorem ids_are_stable_under_truncation
    (self : Session.t) (duration_ : option Offset)
    (r : result (list RequestBundle)) (self' : Session.t)
    (nodes buffers : IdMapping) :
  _to_non_xrefd_request_bundles duration_ self = (r, self') →
  _build_id_mapping_for_nodes self = Ok nodes →
  _build_id_mapping_for_buffers self = Ok buffers →
  (∀ n, n ∈ started self (drop 1 (offsets self)) →
        dict_get (ONode n) nodes = Some (node_session_id n))
  ∧ (∀ b, b ∈ (_buffers self).*1 → grouped_ok b →
          dict_get (OBuffer b) buffers = Some (buffer_session_id (buffer_data b)))
  ∧ (∀ n i, dict_get (ONode n) nodes = Some i → n ≠ root_node self →
            i = node_session_id n)
  ∧ (root_node self ∉ started self (drop 1 (offsets self)) →
     dict_get (ONode (root_node self)) nodes = Some 0)
  ∧ (∀ b i, dict_get (OBuffer b) buffers = Some i →
            i = buffer_session_id (buffer_data b))
  ∧ _build_id_mapping_for_buffers self' = Ok buffers
  ∧ ∃ nodes',
      _build_id_mapping_for_nodes self' = Ok nodes'
      ∧ (∀ n, n ∈ started self (drop 1 (offsets self)) →
              dict_get (ONode n) nodes' = Some (node_session_id n))
      ∧ ∀ n i, n ≠ root_node self → dict_get (ONode n) nodes = Some i →
               dict_get (ONode n) nodes' = Some i.
Proof.
  intros Hrun Hnodes Hbuffers.
  apply monotone_to_non_xrefd_request_bundles in Hrun
    as [Hstates Hoffsets Hregistered Hobjects].
  destruct (build_id_mapping_for_nodes_lookup _ _ Hnodes) as [Hreg Hlook].
  assert (∀ n i, dict_get (ONode n) nodes = Some i → n ≠ root_node self →
                 n ∈ started self (drop 1 (offsets self)) ∧ i = node_session_id n)
    as Hstarted.
  { intros n i Hi Hne. rewrite Hlook in Hi.
    destruct (decide (n ∈ _)); [by injection Hi as <-|].
    by rewrite decide_False in Hi. }
  pose proof (build_id_mapping_for_buffers_ids _ _ Hbuffers) as Hids.
  split.
  { intros n Hn. rewrite Hlook. by rewrite decide_True. }
  split.
  { intros b Hb Hgrouped. pose proof Hbuffers as Hcover.
    unfold _build_id_mapping_for_buffers in Hcover.
    apply build_buffers_covers in Hcover as (_ & _ & Hcover).
    2:{ intros b' g i _ Hb'. done. }
    destruct (Hcover b Hb Hgrouped) as [i Hi]. by rewrite (Hids b i Hi) in Hi. }
  split; [intros n i Hi Hne; by apply Hstarted|].
  split.
  { intros Hroot. rewrite Hlook. rewrite decide_False by done. by rewrite decide_True. }
  split; [exact Hids|].
  split.
  { rewrite Hobjects. exact Hbuffers. }
  destruct (build_id_mapping_for_nodes_succeeds self' (Hregistered Hreg))
    as [nodes' Hnodes'].
  exists nodes'. split; [done|].
  destruct (build_id_mapping_for_nodes_lookup _ _ Hnodes') as [_ Hlook'].
  assert (∀ n, n ∈ started self (drop 1 (offsets self)) →
               dict_get (ONode n) nodes' = Some (node_session_id n)) as Hkept.
  { intros n Hin. rewrite Hlook'. rewrite decide_True; [done|].
    apply elem_of_started in Hin as (o & state & Ho & Hstate & Hn).
    apply elem_of_started. exists o, state. eauto. }
  split; [exact Hkept|].
  intros n i Hne Hi. destruct (Hstarted n i Hi Hne) as [Hin ->]. by apply Hkept.
Qed.
End TruncationIds.

Lemma ids_are_stable_under_truncation_witness :
  ∃ nodes buffers,
    Session._build_id_mapping_for_nodes scenario_a_with_buffers = Ok nodes
    ∧ Session._build_id_mapping_for_buffers scenario_a_with_buffers = Ok buffers
    ∧ dict_get (ONode Samples.s1002) nodes = Some 1002
    ∧ dict_get (OBuffer (grouped_buffer 4)) buffers = Some 4
    ∧ Session._build_id_mapping_for_buffers
        (Session._to_non_xrefd_request_bundles (H := plain_collaborators)
           (Some (Finite 10)) scenario_a_with_buffers).2
      = Ok buffers
    ∧ ∃ nodes',
        Session._build_id_mapping_for_nodes
          (Session._to_non_xrefd_request_bundles (H := plain_collaborators)
             (Some (Finite 10)) scenario_a_with_buffers).2
        = Ok nodes'
        ∧ dict_get (ONode Samples.s1002) nodes' = Some 1002.
Proof.
  eexists _, _. split; [vm_compute; reflexivity|]. split; [vm_compute; reflexivity|].
  match goal with
  | |- dict_get _ ?nodes = _ ∧ dict_get _ ?buffers = _ ∧ _ =>
    destruct (ids_are_stable_under_truncation (H := plain_collaborators)
                scenario_a_with_buffers (Some (Finite 10)) _ _ nodes buffers
                (surjective_pairing _) ltac:(vm_compute; reflexivity)
                ltac:(vm_compute; reflexivity))
      as (Hnode & Hbuffer & _ & _ & _ & Hsame & nodes' & Hnodes' & Hkept & _)
  end.
  assert (Samples.s1002
            ∈ started scenario_a_with_buffers
                (drop 1 (Session.offsets scenario_a_with_buffers))) as Hstarted.
  { vm_compute. repeat constructor. }
  split; [exact (Hnode _ Hstarted)|].
  split.
  { apply (Hbuffer (grouped_buffer 4)).
    - vm_compute. repeat constructor.
    - intros g Hg. injection Hg as <-. vm_compute. repeat constructor. }
  split; [exact Hsame|].
  exists nodes'. split; [exact Hnodes'|]. exact (Hkept _ Hstarted).
Defined.

(** The render of the sample session truncated at 10 returns, and the
    buffers keep their ids in the build that follows it. *)
Example truncated_render_keeps_buffer_ids :
  (Session._to_non_xrefd_request_bundles (H := plain_collaborators)
     (Some (Finite 10)) scenario_a_with_buffers).1
  = Samples.scenario_a_truncated.1
  ∧ Session._build_id_mapping_for_buffers
      (Session._to_non_xrefd_request_bundles (H := plain_collaborators)
         (Some (Finite 10)) scenario_a_with_buffers).2
    = Ok [ (OBufferGroup pair_of_buffers, 3); (OBuffer (grouped_buffer 3), 3);
           (OBuffer (grouped_buffer 4), 4); (OBuffer Samples.buffer0, 0) ].
Proof. split; vm_compute; reflexivity. Qed.

Section WholeMapping.
Import Session.

Lemma dict_get_None_keys {V} (k : SessionObject) (d : list (SessionObject * V)) :
  dict_get k d = None ↔ k ∉ d.*1.
Proof.
  induction d as [|[k' v] d IH]; cbn [dict_get fmap list_fmap fst].
  - split; [intros _; apply not_elem_of_nil|done].
  - rewrite not_elem_of_cons. destruct (decide (k' = k)) as [->|Hne].
    + split; [done|]. by intros [? _].
    + rewrite IH. split; [by split|by intros [_ ?]].
Qed.

Lemma dict_set_keys {V} (k : SessionObject) (v : V) (d : list (SessionObject * V)) :
  (dict_set k v d).*1 = if decide (k ∈ d.*1) then d.*1 else d.*1 ++ [k].
Proof.
  induction d as [|[k' v'] d IH]; cbn [dict_set fmap list_fmap fst app].
  - rewrite decide_False; [done|apply not_elem_of_nil].
  - destruct (decide (k' = k)) as [->|Hne]; cbn [fmap list_fmap fst].
    + rewrite decide_True; [done|by left].
    + change (list_fmap _ _ fst ?l) with (l.*1). rewrite IH.
      destruct (decide (k ∈ d.*1)) as [Hin|Hout].
      * rewrite decide_True; [done|by right].
      * rewrite decide_False; [done|]. by intros [?|?]%elem_of_cons.
Qed.

Lemma dict_wf_set {V} (P : SessionObject → Prop) (k : SessionObject) (v : V) d :
  P k → dict_wf P d → dict_wf P (dict_set k v d).
Proof.
  intros Hk [Hnd Hkeys]. split.
  - rewrite dict_set_keys. destruct (decide (k ∈ d.*1)); [done|].
    apply NoDup_app. split; [done|]. split; [|apply NoDup_singleton].
    intros x Hx ->%list_elem_of_singleton. done.
  - intros k' Hk'. destruct (decide (k = k')) as [<-|Hne]; [done|].
    rewrite dict_get_set_ne in Hk' by done. by apply Hkeys.
Qed.

Lemma dict_wf_nil {V} (P : SessionObject → Prop) : dict_wf (V := V) P [].
Proof. split; [constructor|]. by intros k [? ?]. Qed.

Lemma dict_wf_foldl {V B} (P : SessionObject → Prop) (key : B → SessionObject)
    (val : B → V) (l : list B) : ∀ d,
  (∀ x, P (key x)) → dict_wf P d →
  dict_wf P (foldl (fun m x => dict_set (key x) (val x) m) d l).
Proof.
  induction l as [|x l IH]; intros d Hkey Hd; cbn [foldl]; [done|].
  apply IH; [done|]. by apply dict_wf_set.
Qed.

(** The lookup in [d.update(e)]. *)
Lemma dict_get_update {V} (k : SessionObject) (e : list (SessionObject * V)) : ∀ d,
  NoDup e.*1 →
  dict_get k (dict_update d e)
  = match dict_get k e with Some v => Some v | None => dict_get k d end.
Proof.
  unfold dict_update.
  induction e as [|[k0 v0] e IH]; intros d Hnd; cbn [foldl dict_get fst snd]; [done|].
  apply NoDup_cons in Hnd as [Hk0 Hnd]. cbn [fst] in Hk0. rewrite IH by done.
  destruct (decide (k0 = k)) as [->|Hne].
  - apply dict_get_None_keys in Hk0. rewrite Hk0. by rewrite dict_get_set_eq.
  - by rewrite dict_get_set_ne.
Qed.

Lemma buffers_mapping_wf self mapping :
  _build_id_mapping_for_buffers self = Ok mapping → dict_wf is_buffer_key mapping.
Proof.
  unfold _build_id_mapping_for_buffers.
  pose proof (dict_wf_nil (V := Z) is_buffer_key) as Hnil.
  revert Hnil. generalize ([] : IdMapping) as m0.
  induction (_buffers self) as [|[b events] entries IH]; intros m0 Hok Hrun;
    cbn [foldl] in Hrun.
  { by injection Hrun as <-. }
  cbn [mbind result_bind fst] in Hrun.
  destruct (dict_mem (OBuffer b) m0); [by eapply IH|].
  destruct (buffer_group b) as [group|].
  - destruct (buffer_group_buffers group !! 0%nat) as [first|];
      cbn [mbind result_bind of_option] in Hrun.
    + eapply IH; [|exact Hrun].
      apply (dict_wf_foldl is_buffer_key (fun child => OBuffer child)
               (fun child => buffer_session_id (buffer_data child))); [done|].
      by apply dict_wf_set.
    + rewrite foldl_Raise in Hrun; done.
  - eapply IH; [|exact Hrun]. by apply dict_wf_set.
Qed.

Lemma map_hardware_group_wf count group first m m' :
  map_hardware_group count group first m = Ok m' →
  dict_wf is_bus_key m → dict_wf is_bus_key m'.
Proof.
  unfold map_hardware_group. destruct count; [by intros [= <-]|].
  destruct group as [g|]; [|done]. intros [= <-] Hm. unfold map_enumerated.
  apply (dict_wf_foldl is_bus_key (fun ib : nat * Bus => OBus ib.2)
           (fun ib => first + Z.of_nat ib.1)); [done|].
  by apply dict_wf_set.
Qed.

Lemma map_private_bus_wf acc bus :
  dict_wf is_bus_key acc.1 → dict_wf is_bus_key (map_private_bus acc bus).1.
Proof.
  destruct acc as [m [audio control]]. cbn [fst]. intros Hm. unfold map_private_bus.
  destruct (_ || _); [done|].
  destruct (bus_group bus) as [g|]; cbn [allocate fst].
  - apply (dict_wf_foldl is_bus_key (fun _ : nat => OBus bus)); [done|].
    by apply dict_wf_set.
  - by apply dict_wf_set.
Qed.

Lemma map_private_buses_wf buses : ∀ acc,
  dict_wf is_bus_key acc.1 → dict_wf is_bus_key (foldl map_private_bus acc buses).1.
Proof.
  induction buses as [|bus buses IH]; intros acc Hacc; cbn [foldl]; [done|].
  apply IH. by apply map_private_bus_wf.
Qed.

Lemma buses_mapping_wf self mapping :
  _build_id_mapping_for_buses self = Ok mapping → dict_wf is_bus_key mapping.
Proof.
  unfold _build_id_mapping_for_buses. intros Hrun.
  destruct (map_hardware_group (_output_bus_channel_count self) _ 0 [])
    as [m1|] eqn:Hout; [|done].
  cbn [mbind result_bind] in Hrun.
  destruct (map_hardware_group (_input_bus_channel_count self) _ _ m1)
    as [m2|] eqn:Hin; [|done].
  cbn [mbind result_bind] in Hrun. injection Hrun as <-.
  assert (dict_wf is_bus_key m2) as Hm2.
  { eapply map_hardware_group_wf; [exact Hin|].
    eapply map_hardware_group_wf; [exact Hout|]. apply dict_wf_nil. }
  by apply map_private_buses_wf.
Qed.

Lemma nodes_mapping_wf self mapping :
  _build_id_mapping_for_nodes self = Ok mapping → dict_wf is_node_key mapping.
Proof.
  unfold _build_id_mapping_for_nodes. intros Hrun.
  destruct (foldl _ _ _) as [[mapping' next']|] eqn:Hfold; [|done].
  cbn in Hrun. injection Hrun as <-.
  assert (dict_wf is_node_key (([(ONode (root_node self), 0)] : IdMapping), 1000).1)
    as Hinit.
  { apply (dict_wf_set is_node_key (ONode (root_node self)) 0 []); [done|].
    apply dict_wf_nil. }
  change mapping' with (mapping', next').1.
  eapply (foldl_result_invariant (map_offset self)
            (fun acc : IdMapping * Z => dict_wf is_node_key acc.1));
    [| |exact Hfold|exact Hinit].
  - done.
  - intros [m n] offset [m' n'] Hstep Hm. unfold map_offset in Hstep.
    cbn [mbind result_bind] in Hstep.
    destruct (states self !! offset) as [state|]; [|done].
    cbn [mbind result_bind of_option] in Hstep. injection Hstep as Hstep.
    rewrite <- Hstep. clear Hstep. revert Hm. generalize n as next. generalize m as m1.
    unfold map_start_nodes.
    induction (sorted_by node_session_id (State.start_nodes state)) as [|x l IHl];
      intros m1 next Hm1; cbn [foldl]; [done|].
    apply IHl. cbn [fst]. apply dict_wf_set; [done|]. by apply dict_wf_set.
Qed.

(** X14.  The id mapping that a render uses is the three partial
    mappings side by side: a node is looked up as in the mapping of the
    nodes, a buffer or buffer group as in the mapping of the buffers, a
    bus or bus group as in the mapping of the buses.  No entry of one
    part hides an entry of another. *)
Theorem id_mapping_agrees_with_its_parts (self : Session.t) (mapping : IdMapping) :
  _build_id_mapping self = Ok mapping →
  ∃ buffers buses nodes,
    _build_id_mapping_for_buffers self = Ok buffers
    ∧ _build_id_mapping_for_buses self = Ok buses
    ∧ _build_id_mapping_for_nodes self = Ok nodes
    ∧ ∀ k, dict_get k mapping
           = match k with
             | ONode _ => dict_get k nodes
             | OBuffer _ | OBufferGroup _ => dict_get k buffers
             | OBus _ | OBusGroup _ => dict_get k buses
             end.
Proof.
  unfold _build_id_mapping. intros Hrun.
  destruct (_build_id_mapping_for_buffers self) as [buffers|] eqn:Hbuffers; [|done].
  cbn [mbind result_bind] in Hrun.
  destruct (_build_id_mapping_for_buses self) as [buses|] eqn:Hbuses; [|done].
  cbn [mbind result_bind] in Hrun.
  destruct (_build_id_mapping_for_nodes self) as [nodes|] eqn:Hnodes; [|done].
  cbn [mbind result_bind] in Hrun. injection Hrun as <-.
  exists buffers, buses, nodes. repeat split.
  destruct (buffers_mapping_wf _ _ Hbuffers) as [Hnd1 Hk1].
  destruct (buses_mapping_wf _ _ Hbuses) as [Hnd2 Hk2].
  destruct (nodes_mapping_wf _ _ Hnodes) as [Hnd3 Hk3].
  intros k. rewrite !dict_get_update by done. cbn [dict_get].
  destruct (dict_get k nodes) as [v3|] eqn:H3.
  { specialize (Hk3 k ltac:(eauto)). by destruct k. }
  destruct (dict_get k buses) as [v2|] eqn:H2.
  { specialize (Hk2 k ltac:(eauto)). by destruct k. }
  destruct (dict_get k buffers) as [v1|] eqn:H1.
  { specialize (Hk1 k ltac:(eauto)). by destruct k. }
  by destruct k.
Qed.
End WholeMapping.

Lemma buffers_are_mapped_to_their_ids_witness :
  ∃ mapping,
    Session._build_id_mapping_for_buffers with_buffer_group = Ok mapping
    ∧ dict_get (OBuffer (grouped_buffer 4)) mapping = Some 4
    ∧ ∃ first, head (buffer_group_buffers pair_of_buffers) = Some first
               ∧ dict_get (OBufferGroup pair_of_buffers) mapping
                 = Some (Session.buffer_key first).
Proof.
  eexists. split; [vm_compute; reflexivity|].
  match goal with
  | |- dict_get _ ?m = _ ∧ _ =>
    destruct (buffers_are_mapped_to_their_ids with_buffer_group m
                ltac:(vm_compute; reflexivity) (grouped_buffer 4)) as [Hid Hgroup]
  end.
  - vm_compute. constructor.
  - intros g Hg. injection Hg as <-. vm_compute. do 1 constructor. constructor.
  - split; [exact Hid|]. by apply Hgroup.
Defined.

(** The mapping of the buffers of the sample session. *)
Example buffer_group_is_mapped_to_its_first_member :
  Session._build_id_mapping_for_buffers with_buffer_group
  = Ok [ (OBufferGroup pair_of_buffers, 3); (OBuffer (grouped_buffer 3), 3);
         (OBuffer (grouped_buffer 4), 4); (OBuffer Samples.buffer0, 0) ].
Proof. vm_compute. reflexivity. Qed.

Lemma id_mapping_agrees_with_its_parts_witness :
  ∃ mapping,
    Session._build_id_mapping with_lone_buses = Ok mapping
    ∧ ∃ buffers buses nodes,
        Session._build_id_mapping_for_buffers with_lone_buses = Ok buffers
        ∧ Session._build_id_mapping_for_buses with_lone_buses = Ok buses
        ∧ Session._build_id_mapping_for_nodes with_lone_buses = Ok nodes
        ∧ ∀ k, dict_get k mapping
               = match k with
                 | ONode _ => dict_get k nodes
                 | OBuffer _ | OBufferGroup _ => dict_get k buffers
                 | OBus _ | OBusGroup _ => dict_get k buses
                 end.
Proof.
  eexists. split; [vm_compute; reflexivity|].
  apply id_mapping_agrees_with_its_parts. vm_compute. reflexivity.
Defined.

(** ** The collectors of one offset *)

Section Collectors.
Import Session.

Lemma elem_of_set_add {A} `{EqDecision A} (x y : A) (l : list A) :
  x ∈ set_add y l ↔ x = y ∨ x ∈ l.
Proof.
  unfold set_add. destruct (decide (y ∈ l)) as [Hin|Hout].
  - split; [by right|]. by intros [->|?].
  - rewrite elem_of_app, list_elem_of_singleton. tauto.
Qed.

Lemma NoDup_set_add {A} `{EqDecision A} (y : A) (l : list A) :
  NoDup l → NoDup (set_add y l).
Proof.
  intros Hnd. unfold set_add. destruct (decide (y ∈ l)) as [Hin|Hout]; [done|].
  apply NoDup_app. split; [done|]. split; [|apply NoDup_singleton].
  intros x Hx ->%list_elem_of_singleton. done.
Qed.

Lemma collect_synthdefs_spec (nodes : list Node) : ∀ (synthdefs visited : list SynthDef),
  let r := foldl
      (fun '(synthdefs, visited) node =>
         match node_kind node with
         | SynthKind synthdef _ =>
           if decide (synthdef ∈ visited) then (synthdefs, visited)
           else (set_add synthdef synthdefs, set_add synthdef visited)
         | _ => (synthdefs, visited)
         end)
      (synthdefs, visited) nodes in
  (∀ sd, sd ∈ r.1 ↔ sd ∈ synthdefs ∨ (sd ∈ synthdefs_of nodes ∧ sd ∉ visited))
  ∧ (∀ sd, sd ∈ r.2 ↔ sd ∈ visited ∨ sd ∈ synthdefs_of nodes)
  ∧ (NoDup synthdefs → NoDup r.1).
Proof.
  induction nodes as [|node nodes IH]; intros synthdefs visited; cbn [foldl]; cbn zeta.
  { cbn [fst snd synthdefs_of omap list_omap].
    split; [|split; [|done]]; intros sd; rewrite elem_of_nil; tauto. }
  unfold synthdefs_of. cbn [omap list_omap]. fold (synthdefs_of nodes).
  destruct (node_kind node) as [| |synthdef kwargs]; try apply IH.
  destruct (decide (synthdef ∈ visited)) as [Hin|Hout].
  - destruct (IH synthdefs visited) as (Ha & Hb & Hc). cbn zeta in Ha, Hb, Hc.
    split; [|split; [|done]]; intros sd.
    + rewrite Ha, elem_of_cons. split; [tauto|].
      intros [?|[[->|?] ?]]; tauto.
    + rewrite Hb, elem_of_cons. split; [tauto|]. intros [?|[->|?]]; tauto.
  - destruct (IH (set_add synthdef synthdefs) (set_add synthdef visited))
      as (Ha & Hb & Hc). cbn zeta in Ha, Hb, Hc.
    split; [|split]; [intros sd..|].
    + rewrite Ha, !elem_of_set_add, elem_of_cons.
      destruct (decide (sd = synthdef)) as [->|Hne]; tauto.
    + rewrite Hb, elem_of_set_add, elem_of_cons. tauto.
    + intros Hnd. by apply Hc, NoDup_set_add.
Qed.

(** X15.  The synthdef category of one offset receives exactly the
    synthdefs of the starting synths that are not among the visited
    ones, each once, and hands back the visited synthdefs with these
    added: a synthdef received at one offset is not received again by
    a later call that is given the visited synthdefs of this one. *)
Theorem synthdefs_are_received_once
    (start_nodes : list Node) (visited_synthdefs : list SynthDef) :
  let collected := _collect_synthdef_requests start_nodes visited_synthdefs in
  (∀ r, r ∈ collected.1 ↔
        ∃ sd, r = SynthDefReceiveRequest sd
              ∧ sd ∈ synthdefs_of start_nodes ∧ sd ∉ visited_synthdefs)
  ∧ NoDup collected.1
  ∧ (∀ sd, sd ∈ collected.2 ↔ sd ∈ visited_synthdefs ∨ sd ∈ synthdefs_of start_nodes).
Proof.
  cbn zeta. unfold _collect_synthdef_requests.
  destruct (collect_synthdefs_spec start_nodes [] visited_synthdefs) as (Ha & Hb & Hc).
  cbn zeta in Ha, Hb, Hc.
  destruct (foldl _ _ start_nodes) as [synthdefs visited']. cbn [fst snd] in *.
  split; [|split; [|done]].
  - intros r. rewrite list_elem_of_fmap. split.
    + intros (sd & -> & Hsd). exists sd. split; [done|].
      rewrite merge_sort_Permutation in Hsd. apply Ha in Hsd as [[]%elem_of_nil|?]. done.
    + intros (sd & -> & Hsd). exists sd. split; [done|].
      rewrite merge_sort_Permutation. apply Ha. by right.
  - apply NoDup_fmap_2; [by intros ? ? [=]|].
    rewrite merge_sort_Permutation. apply Hc. constructor.
Qed.

Lemma allocate_fold (id_mapping : IdMapping) (l : list Buffer) :
  ∀ (requests : list Request) (bos : gmap Z bool) requests' bos',
  foldl
    (fun acc buffer_ =>
       '(requests, buffer_open_states) ← acc;
       buffer_id ← dict_item (OBuffer buffer_) id_mapping;
       Ok (requests ++ [allocate_request buffer_id buffer_],
           <[buffer_id := false]> buffer_open_states))
    (Ok (requests, bos)) l = Ok (requests', bos') →
  ∃ ids,
    Forall2 (fun b i => dict_get (OBuffer b) id_mapping = Some i) l ids
    ∧ requests' = requests ++ zip_with allocate_request ids l
    ∧ ∀ i, bos' !! i = if decide (i ∈ ids) then Some false else bos !! i.
Proof.
  induction l as [|b l IH]; intros requests bos requests' bos' Hrun; cbn [foldl] in Hrun.
  { injection Hrun as <- <-. exists []. split; [constructor|].
    split; [by rewrite app_nil_r|]. intros i. rewrite decide_False; [done|].
    apply not_elem_of_nil. }
  cbn [mbind result_bind] in Hrun. unfold dict_item in Hrun.
  destruct (dict_get (OBuffer b) id_mapping) as [i0|] eqn:Hb;
    cbn [of_option mbind result_bind] in Hrun; [|by rewrite foldl_Raise in Hrun].
  apply IH in Hrun as (ids & Hids & -> & Hbos).
  exists (i0 :: ids). split; [by constructor|].
  split; [by rewrite <- app_assoc|].
  intros i. rewrite Hbos. destruct (decide (i ∈ ids)) as [Hin|Hout].
  - rewrite decide_True; [done|by right].
  - destruct (decide (i = i0)) as [->|Hne].
    + rewrite decide_True by left. by rewrite lookup_insert_eq.
    + rewrite decide_False by (by intros [?|?]%elem_of_cons).
      by rewrite lookup_insert_ne.
Qed.

(** X16.  The allocation category holds one allocation per starting
    buffer, in the order of the logical ids, each under the id that the
    mapping gives the buffer; every buffer allocated is afterwards
    recorded as closed, and the record of the other buffers is
    unchanged. *)
Theorem allocations_leave_buffers_closed
    (buffer_open_states : gmap Z bool) (id_mapping : IdMapping)
    (start_buffers : list Buffer) (requests : list Request)
    (buffer_open_states' : gmap Z bool) :
  _collect_buffer_allocate_requests buffer_open_states id_mapping start_buffers
  = Ok (requests, buffer_open_states') →
  ∃ ids,
    Forall2 (fun b i => dict_get (OBuffer b) id_mapping = Some i)
      (sorted_by buffer_key start_buffers) ids
    ∧ requests = zip_with allocate_request ids (sorted_by buffer_key start_buffers)
    ∧ ∀ i, buffer_open_states' !! i
           = if decide (i ∈ ids) then Some false else buffer_open_states !! i.
Proof.
  unfold _collect_buffer_allocate_requests. intros Hrun.
  apply allocate_fold in Hrun as (ids & Hids & -> & Hbos).
  by exists ids.
Qed.

Lemma bind_ext_in {A B} (f g : A → list B) (l : list A) :
  (∀ x, x ∈ l → f x = g x) → l ≫= f = l ≫= g.
Proof.
  induction l as [|x l IH]; intros Hfg; [done|].
  cbn. rewrite (Hfg x) by left. f_equal. apply IH. intros y Hy. apply Hfg. by right.
Qed.

Lemma free_fold (id_mapping : IdMapping) (l : list Buffer) :
  ∀ (requests : list Request) (bos : gmap Z bool) requests' bos',
  foldl
    (fun acc buffer_ =>
       '(requests, buffer_open_states) ← acc;
       buffer_id ← dict_item (OBuffer buffer_) id_mapping;
       open_state ← of_option KeyError (buffer_open_states !! buffer_id);
       let requests :=
         if open_state : bool then requests ++ [BufferCloseRequest buffer_id]
         else requests in
       Ok (requests ++ [BufferFreeRequest buffer_id],
           delete buffer_id buffer_open_states))
    (Ok (requests, bos)) l = Ok (requests', bos') →
  ∃ ids,
    Forall2 (fun b i => dict_get (OBuffer b) id_mapping = Some i) l ids
    ∧ NoDup ids
    ∧ (∀ i, i ∈ ids → is_Some (bos !! i))
    ∧ requests' = requests ++ (ids ≫= close_and_free bos)
    ∧ ∀ i, bos' !! i = if decide (i ∈ ids) then None else bos !! i.
Proof.
  induction l as [|b l IH]; intros requests bos requests' bos' Hrun; cbn [foldl] in Hrun.
  { injection Hrun as <- <-. exists []. split; [constructor|]. split; [constructor|].
    split; [by intros i []%elem_of_nil|]. split; [by rewrite app_nil_r|].
    intros i. rewrite decide_False; [done|]. apply not_elem_of_nil. }
  cbn [mbind result_bind] in Hrun. unfold dict_item in Hrun.
  destruct (dict_get (OBuffer b) id_mapping) as [i0|] eqn:Hb;
    cbn [of_option mbind result_bind] in Hrun; [|by rewrite foldl_Raise in Hrun].
  destruct (bos !! i0) as [open_state|] eqn:Hopen;
    cbn [of_option mbind result_bind] in Hrun; [|by rewrite foldl_Raise in Hrun].
  apply IH in Hrun as (ids & Hids & Hnd & Hsome & -> & Hbos).
  assert (∀ i, i ∈ ids → i ≠ i0 ∧ is_Some (bos !! i)) as Hids'.
  { intros i Hi. specialize (Hsome i Hi). destruct (decide (i = i0)) as [->|Hne].
    - rewrite lookup_delete_eq in Hsome. by destruct Hsome.
    - by rewrite lookup_delete_ne in Hsome. }
  exists (i0 :: ids). split; [by constructor|]. split.
  { constructor; [|done]. intros Hin. by destruct (Hids' _ Hin). }
  split.
  { intros i [->|Hi]%elem_of_cons; [eauto|]. by destruct (Hids' _ Hi). }
  split.
  { cbn [mbind list_bind]. change (mbind ?f ?l) with (l ≫= f).
    rewrite (bind_ext_in (close_and_free (delete i0 bos)) (close_and_free bos)).
    - unfold close_and_free at 2. rewrite Hopen.
      destruct open_state; by rewrite <- !app_assoc.
    - intros i Hi. unfold close_and_free.
      destruct (Hids' _ Hi) as [Hne _]. by rewrite lookup_delete_ne. }
  intros i. rewrite Hbos. destruct (decide (i ∈ ids)) as [Hin|Hout].
  - rewrite decide_True; [done|by right].
  - destruct (decide (i = i0)) as [->|Hne].
    + rewrite decide_True by left. by rewrite lookup_delete_eq.
    + rewrite decide_False by (by intros [?|?]%elem_of_cons).
      by rewrite lookup_delete_ne.
Qed.

(** X17.  When the free category is collected every stopping buffer
    was recorded as allocated (the collector raises [KeyError]
    otherwise), no two of them share an id, each is closed first
    exactly when it was recorded as open, then freed, in the order of
    the logical ids, and afterwards the record of the freed buffers is
    gone while that of the others is unchanged. *)
Theorem frees_close_open_buffers_first
    (buffer_open_states : gmap Z bool) (id_mapping : IdMapping)
    (stop_buffers : list Buffer) (requests : list Request)
    (buffer_open_states' : gmap Z bool) :
  _collect_buffer_free_requests buffer_open_states id_mapping stop_buffers
  = Ok (requests, buffer_open_states') →
  ∃ ids,
    Forall2 (fun b i => dict_get (OBuffer b) id_mapping = Some i)
      (sorted_by buffer_key stop_buffers) ids
    ∧ NoDup ids
    ∧ (∀ i, i ∈ ids → is_Some (buffer_open_states !! i))
    ∧ requests = ids ≫= close_and_free buffer_open_states
    ∧ ∀ i, buffer_open_states' !! i
           = if decide (i ∈ ids) then None else buffer_open_states !! i.
Proof.
  unfold _collect_buffer_free_requests. intros Hrun.
  apply free_fold in Hrun as (ids & Hids & Hnd & Hsome & -> & Hbos).
  by exists ids.
Qed.
End Collectors.

Lemma allocations_leave_buffers_closed_witness :
  ∃ requests buffer_open_states',
    Session._collect_buffer_allocate_requests {[ 1 := true ]} file_buffer_ids
      [Samples.file_buffer 1; Samples.file_buffer 0]
    = Ok (requests, buffer_open_states')
    ∧ ∃ ids,
        Forall2 (fun b i => dict_get (OBuffer b) file_buffer_ids = Some i)
          (sorted_by Session.buffer_key [Samples.file_buffer 1; Samples.file_buffer 0])
          ids
        ∧ requests
          = zip_with Session.allocate_request ids
              (sorted_by Session.buffer_key
                 [Samples.file_buffer 1; Samples.file_buffer 0])
        ∧ ∀ i, buffer_open_states' !! i
               = if decide (i ∈ ids) then Some false
                 else ({[ 1 := true ]} : gmap Z bool) !! i.
Proof.
  eexists _, _. split; [vm_compute; reflexivity|].
  apply allocations_leave_buffers_closed. vm_compute. reflexivity.
Defined.

Lemma frees_close_open_buffers_first_witness :
  ∃ requests buffer_open_states',
    Session._collect_buffer_free_requests {[ 0 := true; 1 := false ]} file_buffer_ids
      [Samples.file_buffer 1; Samples.file_buffer 0]
    = Ok (requests, buffer_open_states')
    ∧ ∃ ids,
        Forall2 (fun b i => dict_get (OBuffer b) file_buffer_ids = Some i)
          (sorted_by Session.buffer_key [Samples.file_buffer 1; Samples.file_buffer 0])
          ids
        ∧ NoDup ids
        ∧ (∀ i, i ∈ ids → is_Some (({[ 0 := true; 1 := false ]} : gmap Z bool) !! i))
        ∧ requests = ids ≫= close_and_free {[ 0 := true; 1 := false ]}
        ∧ ∀ i, buffer_open_states' !! i
               = if decide (i ∈ ids) then None
                 else ({[ 0 := true; 1 := false ]} : gmap Z bool) !! i.
Proof.
  eexists _, _. split; [vm_compute; reflexivity|].
  apply frees_close_open_buffers_first. vm_compute. reflexivity.
Defined.

(** An open buffer is closed before it is freed; a buffer that was
    never allocated cannot be freed. *)
Example free_of_an_open_and_of_an_unknown_buffer :
  fst <$> Session._collect_buffer_free_requests {[ 0 := true; 1 := false ]}
            file_buffer_ids [Samples.file_buffer 1; Samples.file_buffer 0]
  = Ok [BufferCloseRequest 0; BufferFreeRequest 0; BufferFreeRequest 1]
  ∧ Session._collect_buffer_free_requests ∅ file_buffer_ids [Samples.file_buffer 0]
    = Raise KeyError.
Proof. split; vm_compute; reflexivity. Qed.

Section NodeCollectors.
Context `{Collaborators}.
Import Session.

Lemma is_Some_dict_set {K V} `{EqDecision K} (k k' : K) (v : V) d :
  is_Some (dict_get k' (dict_set k v d)) ↔ k = k' ∨ is_Some (dict_get k' d).
Proof.
  destruct (decide (k = k')) as [->|Hne].
  - rewrite dict_get_set_eq. split; [by left|eauto].
  - rewrite dict_get_set_ne by done. split; [by right|]. by intros [?|?].
Qed.

Lemma dict_get_is_Some_keys {K V} `{EqDecision K} (k : K) (d : list (K * V)) :
  is_Some (dict_get k d) ↔ k ∈ d.*1.
Proof.
  induction d as [|[k' v] d IH]; cbn [dict_get fmap list_fmap fst].
  - split; [by intros [? ?]|by intros ?%elem_of_nil].
  - rewrite elem_of_cons. destruct (decide (k' = k)) as [->|Hne].
    + split; [by left|eauto].
    + rewrite IH. split; [by right|]. by intros [?|?].
Qed.

Lemma split_settings_fold (id_mapping : IdMapping)
    (parameters : list (string * ParameterRate)) (settings : list (string * Value)) :
  ∀ acc acc',
  foldl
    (fun acc (kv : string * Value) =>
       '(n_settings, a_settings, c_settings) ← acc;
       let '(key, value) := kv in
       if decide (dict_get key parameters = Some SCALAR_RATE) then
         Ok (n_settings, a_settings, c_settings)
       else
         match value with
         | VNone => Ok (n_settings, a_settings, dict_set key (-1) c_settings)
         | VBus b =>
           i ← dict_item (OBus b) id_mapping;
           match calculation_rate b with
           | CONTROL => Ok (n_settings, a_settings, dict_set key i c_settings)
           | AUDIO => Ok (n_settings, dict_set key i a_settings, c_settings)
           end
         | VBusGroup g =>
           i ← dict_item (OBusGroup g) id_mapping;
           match bus_group_calculation_rate g with
           | CONTROL => Ok (n_settings, a_settings, dict_set key i c_settings)
           | AUDIO => Ok (n_settings, dict_set key i a_settings, c_settings)
           end
         | VBuffer b =>
           i ← dict_item (OBuffer b) id_mapping;
           Ok (dict_set key (VNum (Finite i)) n_settings, a_settings, c_settings)
         | VBufferGroup g =>
           i ← dict_item (OBufferGroup g) id_mapping;
           Ok (dict_set key (VNum (Finite i)) n_settings, a_settings, c_settings)
         | _ => Ok (dict_set key value n_settings, a_settings, c_settings)
         end)
    (Ok acc) settings = Ok acc' →
  (∀ key, in_split key acc' ↔
          in_split key acc
          ∨ (key ∈ settings.*1 ∧ dict_get key parameters ≠ Some SCALAR_RATE))
  ∧ ((∀ key v, dict_get key acc.1.1 = Some v → plain_value v) →
     ∀ key v, dict_get key acc'.1.1 = Some v → plain_value v).
Proof.
  match goal with |- context [foldl ?f] => set (step := f) end.
  induction settings as [|[key0 value0] settings IH]; intros acc acc' Hrun;
    cbn [foldl] in Hrun.
  { injection Hrun as <-. split; [|done]. intros key.
    cbn [fmap list_fmap]. rewrite elem_of_nil. tauto. }
  destruct (step (Ok acc) (key0, value0)) as [acc1|e] eqn:Hone;
    [|rewrite foldl_Raise in Hrun; done].
  destruct (IH acc1 acc' Hrun) as [Hkeys Hplain].
  assert ((∀ key, in_split key acc1 ↔
                  in_split key acc
                  ∨ (key = key0 ∧ dict_get key parameters ≠ Some SCALAR_RATE))
          ∧ ((∀ key v, dict_get key acc.1.1 = Some v → plain_value v) →
             ∀ key v, dict_get key acc1.1.1 = Some v → plain_value v)) as [Hkeys1 Hplain1].
  { unfold step in Hone. destruct acc as [[n0 a0] c0].
    cbn [mbind result_bind] in Hone.
    destruct (decide (dict_get key0 parameters = Some SCALAR_RATE)) as [Hscalar|Hother].
    { injection Hone as <-. split; [|done]. intros key. split; [by left|].
      intros [?|[-> ?]]; done. }
    assert (∀ n1 a1 c1,
              acc1 = (n1, a1, c1) →
              (∀ key, in_split key (n1, a1, c1) ↔ key0 = key ∨ in_split key (n0, a0, c0)) →
              ∀ key, in_split key acc1 ↔
                     in_split key (n0, a0, c0)
                     ∨ (key = key0 ∧ dict_get key parameters ≠ Some SCALAR_RATE))
      as Hshape.
    { intros n1 a1 c1 -> Hin key. rewrite Hin. split.
      - intros [<-|?]; [right|left]; done.
      - intros [?|[-> _]]; [right|left]; done. }
    assert (∀ v (n : list (string * Value)),
              plain_value v →
              (∀ key w, dict_get key n = Some w → plain_value w) →
              ∀ key w, dict_get key (dict_set key0 v n) = Some w → plain_value w)
      as Hset.
    { intros v n Hv Hn key w. destruct (decide (key0 = key)) as [->|Hne].
      - rewrite dict_get_set_eq. by intros [= <-].
      - rewrite dict_get_set_ne by done. apply Hn. }
    unfold in_split in Hshape |- *. cbn [fst snd] in Hshape |- *.
    unfold dict_item in Hone.
    destruct value0 as [x| |s|l|b|g|b|g]; cbn [mbind result_bind] in Hone;
      repeat match type of Hone with
             | context [dict_get ?k id_mapping] =>
               destruct (dict_get k id_mapping) as [i|];
                 cbn [of_option mbind result_bind] in Hone; [|done]
             | context [calculation_rate ?b] => destruct (calculation_rate b)
             | context [bus_group_calculation_rate ?g] =>
               destruct (bus_group_calculation_rate g)
             end;
      injection Hone as <-; cbn [fst snd];
      (split;
       [eapply Hshape; [reflexivity|]; intros key; cbn [fst snd];
        rewrite is_Some_dict_set; tauto
       |try done; intros Hn; by apply Hset]). }
  split.
  - intros key. rewrite Hkeys, Hkeys1. cbn [fmap list_fmap fst]. rewrite elem_of_cons.
    split.
    + intros [[?|[-> ?]]|[? ?]]; [by left|right; split; [by left|done]|].
      right. split; [by right|done].
    + intros [?|[[->|?] ?]]; [by left; left|left; right; done|right; done].
  - intros Hn. by apply Hplain, Hplain1.
Qed.

(** X18.  The split of the settings of one node never lets a parameter
    of scalar rate through: a key ends up in the node-set, the
    audio-map or the control-map settings exactly when the node has a
    setting for it and the parameter is not of scalar rate.  The
    node-set settings hold plain values only: every buffer is replaced
    by its id, every bus and every [None] goes to a map request. *)
Theorem scalar_rate_settings_are_skipped
    (id_mapping : IdMapping) (parameters : list (string * ParameterRate))
    (settings : list (string * Value))
    (split : list (string * Value) * list (string * Z) * list (string * Z)) :
  split_settings id_mapping parameters settings = Ok split →
  (∀ key, in_split key split ↔
          key ∈ settings.*1 ∧ dict_get key parameters ≠ Some SCALAR_RATE)
  ∧ ∀ key v, dict_get key split.1.1 = Some v → plain_value v.
Proof.
  unfold split_settings. intros Hrun.
  apply split_settings_fold in Hrun as [Hkeys Hplain]. split.
  - intros key. rewrite Hkeys. unfold in_split. cbn [fst snd dict_get].
    split; [|by right]. intros [[[? ?]|[[? ?]|[? ?]]]|?]; done.
  - apply Hplain. intros key v. done.
Qed.




Lemma partition_stop_nodes_unmapped (id_mapping : IdMapping) (nodes : list Node) :
  ∀ free_ids gate_ids : list Z,
  ¬ Forall (fun n => is_Some (dict_get (ONode n) id_mapping)) nodes →
  foldl
    (fun acc node =>
       '(free_ids, gate_ids) ← acc;
       node_id ← dict_item (ONode node) id_mapping;
       if has_gate node then Ok (free_ids, gate_ids ++ [node_id])
       else if has_duration node then Ok (free_ids ++ [node_id], gate_ids)
       else Ok (free_ids, gate_ids))
    (Ok (free_ids, gate_ids)) nodes
  = Raise KeyError.
Proof.
  induction nodes as [|n nodes IH]; intros free_ids gate_ids Hnot; cbn [foldl].
  { exfalso. apply Hnot. constructor. }
  cbn [mbind result_bind]. unfold dict_item.
  destruct (dict_get (ONode n) id_mapping) as [i|] eqn:Hn;
    cbn [of_option mbind result_bind]; [|by rewrite foldl_Raise].
  assert (¬ Forall (fun n => is_Some (dict_get (ONode n) id_mapping)) nodes) as Hrest.
  { intros Hall. apply Hnot. constructor; [by rewrite Hn|done]. }
  destruct (has_gate n); [by apply IH|]. destruct (has_duration n); by apply IH.
Qed.

(** X20.  The node-free category does not depend on the order in which
    the stop set is iterated: two listings of the same set give the same
    requests, or the same [KeyError]. *)
Theorem node_free_requests_ignore_set_order
    (id_mapping : IdMapping) (stop_nodes stop_nodes' : list Node) :
  stop_nodes ≡ₚ stop_nodes' →
  _collect_node_free_requests id_mapping stop_nodes
  = _collect_node_free_requests id_mapping stop_nodes'.
Proof.
  intros Hperm. unfold _collect_node_free_requests, partition_stop_nodes.
  destruct stop_nodes as [|n nodes], stop_nodes' as [|n' nodes']; [done| | |].
  { by apply Permutation_nil_cons in Hperm. }
  { symmetry in Hperm. by apply Permutation_nil_cons in Hperm. }
  destruct (decide (Forall (fun n => is_Some (dict_get (ONode n) id_mapping))
                      (n :: nodes))) as [Hall|Hnot].
  - assert (Forall (fun n => is_Some (dict_get (ONode n) id_mapping)) (n' :: nodes'))
      as Hall' by (by rewrite <- Hperm).
    rewrite (partition_stop_nodes_spec id_mapping (n :: nodes) [] [] Hall).
    rewrite (partition_stop_nodes_spec id_mapping (n' :: nodes') [] [] Hall').
    cbn [app mbind result_bind].
    assert (∀ keep,
              merge_sort Z.le (ids_where keep id_mapping (n :: nodes))
              = merge_sort Z.le (ids_where keep id_mapping (n' :: nodes'))) as Hsame.
    { intros keep. apply (Sorted_unique Z.le); try apply Sorted_merge_sort; try apply _.
      rewrite !merge_sort_Permutation. unfold ids_where. by rewrite Hperm. }
    by rewrite !Hsame.
  - assert (¬ Forall (fun n => is_Some (dict_get (ONode n) id_mapping)) (n' :: nodes'))
      as Hnot' by (by rewrite <- Hperm).
    rewrite (partition_stop_nodes_unmapped id_mapping (n :: nodes) [] [] Hnot).
    by rewrite (partition_stop_nodes_unmapped id_mapping (n' :: nodes') [] [] Hnot').
Qed.
End NodeCollectors.

Lemma scalar_rate_settings_are_skipped_witness :
  ∃ split,
    Session.split_settings [(OBus (LoneBus 0 CONTROL), 0)]
      (parameters Samples.default_synthdef) mixed_settings = Ok split
    ∧ (∀ key, in_split key split ↔
              key ∈ mixed_settings.*1
              ∧ dict_get key (parameters Samples.default_synthdef) ≠ Some SCALAR_RATE)
    ∧ ∀ key v, dict_get key split.1.1 = Some v → plain_value v.
Proof.
  eexists. split; [vm_compute; reflexivity|].
  apply (scalar_rate_settings_are_skipped [(OBus (LoneBus 0 CONTROL), 0)]).
  vm_compute. reflexivity.
Defined.

(** The split of the sample settings: [out] is dropped. *)
Example split_of_mixed_settings :
  Session.split_settings [(OBus (LoneBus 0 CONTROL), 0)]
    (parameters Samples.default_synthdef) mixed_settings
  = Ok ([("frequency", VNum (Finite 443))], [],
        [("amplitude", 0); ("pan", -1)])%string.
Proof. vm_compute. reflexivity. Qed.


Lemma node_free_requests_ignore_set_order_witness :
  Session._collect_node_free_requests Samples.scenario_a_node_ids
    [Samples.g1000; Samples.s1002; Samples.g1003]
  = Session._collect_node_free_requests Samples.scenario_a_node_ids
      [Samples.s1002; Samples.g1000; Samples.g1003].
Proof.
  apply node_free_requests_ignore_set_order. constructor.
Defined.

(** ** The bundles of a render *)

Section Bundles.
Context `{Collaborators}.
Import Session.

Lemma StronglySorted_sublist {A} (R : relation A) (l1 l2 : list A) :
  l1 `sublist_of` l2 → StronglySorted R l2 → StronglySorted R l1.
Proof.
  induction 1 as [|x l1 l2 Hsub IH|x l1 l2 Hsub IH]; intros Hs; [done| |].
  - apply StronglySorted_cons in Hs as [Hall Hs].
    apply StronglySorted_cons. split; [|by apply IH].
    apply Forall_forall. intros y Hy. rewrite Forall_forall in Hall.
    apply Hall. by eapply sublist_subseteq.
  - apply StronglySorted_cons in Hs as [_ Hs]. by apply IH.
Qed.

Lemma StronglySorted_le_NoDup_lt (l : list Offset) :
  StronglySorted Offset_le l → NoDup l → StronglySorted Offset_lt l.
Proof.
  induction 1 as [|x l Hs IH Hall]; intros Hnd; [constructor|].
  apply NoDup_cons in Hnd as [Hx Hnd]. constructor; [by apply IH|].
  apply Forall_forall. intros y Hy. rewrite Forall_forall in Hall.
  apply Offset_le_neq_lt; [by apply Hall|]. by intros ->.
Qed.

(** The loop appends bundles only: one per offset walked at most, none
    of them empty. *)
Lemma compile_offsets_bundles buffer_settings bus_settings d id_mapping :
  ∀ offs acc bos visited self bundles self',
    compile_offsets buffer_settings bus_settings d id_mapping offs acc bos visited self
    = (Ok bundles, self') →
    ∃ new,
      bundles = acc ++ new
      ∧ (timestamp <$> new) `sublist_of` offs
      ∧ Forall (fun b => contents b ≠ []) new.
Proof.
  intros offs. induction offs as [|offset offs IH];
    intros acc bos visited self bundles self' Hrun.
  { cbn [compile_offsets] in Hrun. unfold ret in Hrun. injection Hrun as <- <-.
    exists []. split; [by rewrite app_nil_r|]. split; [constructor|constructor]. }
  cbn [compile_offsets] in Hrun. unfold bind at 1 in Hrun.
  destruct (_collect_requests_at_offset _ _ _ _ _ _ _ _ self)
    as [[[[requests bos1] visited1]|e] self1] eqn:Hcollect; [|done].
  destruct (bool_decide (offset = d)).
  - exists [{| contents := requests ++ [NothingRequest]; timestamp := offset |}].
    split.
    { destruct requests; cbn [app] in Hrun; unfold ret in Hrun; by injection Hrun as <- <-. }
    split.
    + cbn [fmap list_fmap timestamp]. apply sublist_skip, sublist_nil_l.
    + constructor; [|constructor]. cbn [contents]. by destruct requests.
  - destruct requests as [|r requests].
    + apply IH in Hrun as (new & -> & Hsub & Hne).
      exists new. split; [done|]. split; [by apply sublist_cons|done].
    + apply IH in Hrun as (new & -> & Hsub & Hne).
      exists ({| contents := r :: requests; timestamp := offset |} :: new).
      split; [by rewrite <- app_assoc|]. split.
      * cbn [fmap list_fmap timestamp]. by apply sublist_skip.
      * by constructor.
Qed.

(** X21.  On a session whose offset list is strictly ascending a
    render emits its bundles in strictly increasing order of their
    time stamps, so that no two bundles share a time stamp; no bundle
    is empty; and every bundle is stamped with an offset listed after
    the first one or with the duration of the render. *)
Theorem bundles_ascend_and_are_not_empty
    (self : Session.t) (duration_ : option Offset)
    (bundles : list RequestBundle) (self' : Session.t) :
  StronglySorted Offset_lt (offsets self) →
  _to_non_xrefd_request_bundles duration_ self = (Ok bundles, self') →
  StronglySorted Offset_lt (timestamp <$> bundles)
  ∧ Forall (fun b => contents b ≠ []) bundles
  ∧ Forall (fun b => timestamp b ∈ drop 1 (offsets self)
                     ∨ timestamp b = duration_or duration_ self) bundles.
Proof.
  intros Hsorted Hrun. unfold _to_non_xrefd_request_bundles in Hrun.
  destruct (_build_id_mapping self) as [id_mapping|]; [|done].
  destruct (_ && _); [done|].
  set (d := duration_or duration_ self) in *.
  destruct (_collect_buffer_settings self _) as [buffer_settings|]; [|done].
  destruct (_collect_bus_settings self _) as [bus_settings|]; [|done].
  set (offs := if decide (d ∈ drop 1 (offsets self)) then drop 1 (offsets self)
               else merge_sort Offset_le (drop 1 (offsets self) ++ [d])) in Hrun.
  assert (StronglySorted Offset_lt (drop 1 (offsets self))) as Hrest
    by (eapply StronglySorted_sublist; [apply sublist_drop|done]).
  assert (StronglySorted Offset_lt offs
          ∧ ∀ o, o ∈ offs → o ∈ drop 1 (offsets self) ∨ o = d) as [Hoffs Hwhere].
  { unfold offs. destruct (decide _) as [Hd_in|Hd_out].
    - split; [done|]. intros o Ho. by left.
    - split.
      + apply StronglySorted_le_NoDup_lt; [apply StronglySorted_merge_sort; apply _|].
        rewrite merge_sort_Permutation. apply NoDup_app.
        split; [by apply StronglySorted_lt_NoDup|].
        split; [|apply NoDup_singleton].
        intros o Ho ->%list_elem_of_singleton. done.
      + intros o. rewrite merge_sort_Permutation, elem_of_app, list_elem_of_singleton.
        done. }
  apply compile_offsets_bundles in Hrun as (new & -> & Hsub & Hne).
  cbn [app]. split; [by eapply StronglySorted_sublist|]. split; [done|].
  apply Forall_forall. intros b Hb. apply Hwhere.
  eapply sublist_subseteq; [exact Hsub|]. by apply list_elem_of_fmap_2.
Qed.

(** X22.  A render never takes anything away from the session: every
    state stays registered under its offset, every offset listed after
    the first stays listed, and the buffers, the buses, the root node,
    the channel counts and the padding are those before the render,
    whether the render returns or raises. *)
Theorem render_only_adds_states
    (self : Session.t) (duration_ : option Offset)
    (r : result (list RequestBundle)) (self' : Session.t) :
  _to_non_xrefd_request_bundles duration_ self = (r, self') →
  (∀ o state, states self !! o = Some state → states self' !! o = Some state)
  ∧ (∀ o, o ∈ drop 1 (offsets self) → o ∈ drop 1 (offsets self'))
  ∧ _buffers self' = _buffers self
  ∧ _buses self' = _buses self
  ∧ root_node self' = root_node self
  ∧ _input_bus_channel_count self' = _input_bus_channel_count self
  ∧ _output_bus_channel_count self' = _output_bus_channel_count self
  ∧ padding self' = padding self.
Proof.
  intros Hrun. apply monotone_to_non_xrefd_request_bundles in Hrun
    as [Hstates Hoffsets _ Hobjects].
  split; [done|]. split; [done|]. rewrite Hobjects. done.
Qed.
End Bundles.

Lemma bundles_ascend_and_are_not_empty_witness :
  StronglySorted Offset_lt (timestamp <$> Samples.scenario_a_bundles)
  ∧ Forall (fun b => contents b ≠ []) Samples.scenario_a_bundles
  ∧ Forall (fun b => timestamp b ∈ drop 1 (Session.offsets Samples.scenario_a)
                     ∨ timestamp b
                       = Session.duration_or (Some (Finite 20)) Samples.scenario_a)
      Samples.scenario_a_bundles.
Proof.
  apply (bundles_ascend_and_are_not_empty (H := plain_collaborators)
           Samples.scenario_a (Some (Finite 20)) Samples.scenario_a_bundles
           Samples.scenario_a_render.2).
  - exact (offsets_sorted _ scenario_a_ok).
  - change (Samples.scenario_a_render
            = (Ok Samples.scenario_a_bundles, Samples.scenario_a_render.2)).
    rewrite (surjective_pairing Samples.scenario_a_render) at 1.
    f_equal; vm_compute; reflexivity.
Defined.

Lemma render_only_adds_states_witness :
  (∀ o state, Session.states Samples.scenario_a !! o = Some state →
              Session.states Samples.scenario_a_truncated.2 !! o = Some state)
  ∧ (∀ o, o ∈ drop 1 (Session.offsets Samples.scenario_a) →
          o ∈ drop 1 (Session.offsets Samples.scenario_a_truncated.2))
  ∧ Session._buffers Samples.scenario_a_truncated.2 = Session._buffers Samples.scenario_a
  ∧ Session._buses Samples.scenario_a_truncated.2 = Session._buses Samples.scenario_a
  ∧ Session.root_node Samples.scenario_a_truncated.2
    = Session.root_node Samples.scenario_a
  ∧ Session._input_bus_channel_count Samples.scenario_a_truncated.2
    = Session._input_bus_channel_count Samples.scenario_a
  ∧ Session._output_bus_channel_count Samples.scenario_a_truncated.2
    = Session._output_bus_channel_count Samples.scenario_a
  ∧ Session.padding Samples.scenario_a_truncated.2 = Session.padding Samples.scenario_a.
Proof.
  apply (render_only_adds_states (H := plain_collaborators) Samples.scenario_a
           (Some (Finite 10)) Samples.scenario_a_truncated.1).
  apply surjective_pairing.
Defined.

Lemma written_value_is_held_witness :
  ∃ self',
    Synth._set_at_timestep sine_with_track 3 "frequency" 9 = Ok self'
    ∧ Synth._get_at_timestep self' 4 "frequency" = Ok 9.
Proof.
  apply (written_value_is_held sine_with_track 3 4 "frequency" 9).
  - vm_compute. eauto.
  - vm_compute. repeat first [apply SSorted_nil | apply SSorted_cons | constructor].
  - vm_compute. intros x Hx.
    repeat (inversion Hx as [|? ? ? Hx']; subst; clear Hx; rename Hx' into Hx).
  - vm_compute. discriminate.
  - reflexivity.
  - lia.
  - intros p Hp Hlt.
    assert (p = (2, 3) ∨ p = (5, 1)) as [-> | ->].
    { change (p ∈ [(2, 3); (5, 1)]) in Hp.
      apply elem_of_cons in Hp as [->|Hp]; [by left|].
      apply elem_of_cons in Hp as [->|Hp]; [by right|]. by apply elem_of_nil in Hp. }
    + unfold sine_with_track, Samples.sine, Synth.with_events in Hlt. cbn in Hlt. lia.
    + unfold sine_with_track, Samples.sine, Synth.with_events. cbn. lia.
Defined.

Lemma render_at_breakpoint_is_repeatable_witness :
  Samples.scenario_a_render.2 = Samples.scenario_a
  ∧ Session._to_non_xrefd_request_bundles (H := plain_collaborators) (Some (Finite 20))
      Samples.scenario_a_render.2
    = (Samples.scenario_a_render.1, Samples.scenario_a_render.2).
Proof.
  apply (render_at_breakpoint_is_repeatable (H := plain_collaborators)
           Samples.scenario_a (Some (Finite 20))).
  - intros o Ho. apply (states_registered _ scenario_a_ok).
    by eapply subseteq_drop.
  - vm_compute. do 1 constructor. constructor.
  - apply surjective_pairing.
Defined.
